(** * FILE: the login state machine and the friends-dump engine of [core.py]

    A shallow embedding of [FacebookAPI] (src/core.py) together with the
    session store of [Config] (src/config.py) and the validation wrapper of
    the menu application (src/FILE.py).

    Modelling conventions.
    - Python [str] is [string]; ordering, [startswith], [in], [lower] and
      [strip] act on the characters of the string (ASCII letters and ASCII
      white space for the last two).
    - The remote endpoints are oracles: every request is answered by a
      function of the request (and of its position in the run where the
      code issues several), so nothing is assumed about the answers.
    - JSON answers are decoded to the shape the endpoint documents; a field
      of a record may be absent ([None]).
    - Every function returns, next to its Python result, the list of the
      requests it issued, in issue order.
    - [progress_callback] and the terminal output of [Config.animate] are
      presentation only and are left out. *)

From Stdlib Require Import String Ascii List Bool Arith Lia OrderedTypeEx.
From stdpp Require Import base option list sorting gmap sets strings.

Open Scope string_scope.
Open Scope list_scope.
Open Scope nat_scope.

(** ** Python string operations *)

Module PyStr.

(** [s.startswith(p)] *)
Definition startswith (s p : string) : bool := String.prefix p s.

(** [sub in s] for two strings *)
Fixpoint contains (sub s : string) : bool :=
  String.prefix sub s ||
  match s with
  | EmptyString => false
  | String _ s' => contains sub s'
  end.

Definition is_upper (c : ascii) : bool :=
  (65 <=? nat_of_ascii c)%nat && (nat_of_ascii c <=? 90)%nat.

Definition lower_char (c : ascii) : ascii :=
  if is_upper c then ascii_of_nat (nat_of_ascii c + 32) else c.

(** [s.lower()] *)
Fixpoint lower (s : string) : string :=
  match s with
  | EmptyString => EmptyString
  | String c s' => String (lower_char c) (lower s')
  end.

Definition is_space (c : ascii) : bool :=
  let n := nat_of_ascii c in
  ((9 <=? n)%nat && (n <=? 13)%nat) || ((28 <=? n)%nat && (n <=? 32)%nat).

Fixpoint lstrip (s : string) : string :=
  match s with
  | EmptyString => EmptyString
  | String c s' => if is_space c then lstrip s' else s
  end.

Fixpoint rstrip (s : string) : string :=
  match s with
  | EmptyString => EmptyString
  | String c s' =>
      match rstrip s' with
      | EmptyString => if is_space c then EmptyString else String c EmptyString
      | r => String c r
      end
  end.

(** [s.strip()] *)
Definition strip (s : string) : string := rstrip (lstrip s).

(** truth value of a [str] *)
Definition truthy (s : string) : bool := negb (String.eqb s "").

(** truth value of an [Optional[str]] *)
Definition opt_truthy (o : option string) : bool :=
  match o with
  | Some s => truthy s
  | None => false
  end.

End PyStr.

(** ** Requests sent to the remote service *)

Inductive request : Type :=
  | ReqLogin (email password : string)
      (* POST LOGIN_API_URL {email, password, convert_all: True} *)
  | ReqOAuth (cookie : string)
      (* GET OAUTH_URL, cookies={'cookie': cookie} *)
  | ReqTokenApi (cookie : string)
      (* POST TOKEN_API_URL {cookies: cookie} *)
  | ReqFriends (uid token cookie : string).
      (* GET GRAPH_API_BASE/uid?access_token=token&fields=friends *)

(** ** Session store ([Config]) *)

Record session : Type := mk_session {
  sess_token : option string;
  sess_cookie : option string;
  sess_login_check : option (list string)
}.

(** No session file: [_load_session] returns [{}]. *)
Definition empty_session : session := mk_session None None None.

Definition save_token (token : string) (s : session) : session :=
  mk_session (Some token) (sess_cookie s) (sess_login_check s).

Definition save_cookie (cookie : string) (s : session) : session :=
  mk_session (sess_token s) (Some cookie) (sess_login_check s).

Definition save_login_check (friend_ids : list string) (s : session) : session :=
  mk_session (sess_token s) (sess_cookie s) (Some friend_ids).

Definition load_token (s : session) : option string := sess_token s.
Definition load_cookie (s : session) : option string := sess_cookie s.

Definition clear_credentials (s : session) : session := empty_session.

(** ** The [FacebookAPI] object *)

Record api : Type := mk_api {
  _token : option string;
  _cookie : option string;
  _config : session
}.

(** [__init__]: the credentials are loaded from the saved session. *)
Definition _load_session (cfg : session) : api :=
  mk_api (load_token cfg) (load_cookie cfg) cfg.

(** the [token] property setter *)
Definition set_token (value : string) (a : api) : api :=
  mk_api (Some value) (_cookie a) (save_token value (_config a)).

(** the [cookie] property setter *)
Definition set_cookie (value : string) (a : api) : api :=
  mk_api (_token a) (Some value) (save_cookie value (_config a)).

Definition is_logged_in (a : api) : bool :=
  PyStr.opt_truthy (_token a) && PyStr.opt_truthy (_cookie a).

Definition logout (a : api) : api :=
  mk_api None None (clear_credentials (_config a)).

(** Strings of the requests: an absent credential formats as [None]. *)
Definition fmt (o : option string) : string := default "None" o.

(** ** Answers of the friends endpoint *)

Record friend : Type := mk_friend {
  f_id : option string;
  f_name : option string
}.

(** The decoded JSON object of a friends answer: whether it has the key
    [error], the list under [friends.data] when both keys are there, and
    whether it has any key besides these. *)
Record fetch_body : Type := mk_body {
  has_error : bool;
  friends_data : option (list friend);
  other_keys : bool
}.

(** truth value of the dict *)
Definition body_truthy (b : fetch_body) : bool :=
  has_error b || bool_decide (is_Some (friends_data b)) || other_keys b.

(** [response.get('friends', {}).get('data', [])] *)
Definition get_friends (b : fetch_body) : list friend :=
  default [] (friends_data b).

(** The graph endpoint: the answer to the [n]-th friends request of a run,
    for identifier [uid]; [None] when [_make_request] returns [None]. *)
Definition network : Type := nat -> string -> option fetch_body.

(** ** The dump engine: [FacebookAPI.dump_friends] *)

Module Dump.

(** [_fetch_friends] (through [_make_request]): the decoded answer, or
    [None] for a status other than 200 and for a request that raises.
    [n] is the number of friends requests issued before this one. *)
Definition _fetch_friends (net : network) (n : nat) (uid : string)
  : option fetch_body :=
  net n uid.

(** [asyncio.gather] over [_fetch_friends(session, uid) for uid in uids]:
    one request per identifier, the answers in task order.  [start] is the
    number of friends requests issued before. *)
Definition gather (net : network) (start : nat) (uids : list string)
  : list (option fetch_body) :=
  imap (fun i uid => _fetch_friends net (start + i) uid) uids.

Definition requests_for (a : api) (uids : list string) : list request :=
  map (fun uid => ReqFriends uid (fmt (_token a)) (fmt (_cookie a))) uids.

(** *** Phase 1 *)

(** Body of [for friend in friends] of Phase 1. *)
Definition collect_friend (all_friend_ids : list string) (fr : friend)
  : list string :=
  match f_id fr with
  | Some friend_id =>
      if PyStr.truthy friend_id && negb (bool_decide (friend_id ∈ all_friend_ids))
      then all_friend_ids ++ [friend_id]
      else all_friend_ids
  | None => all_friend_ids
  end.

(** Body of [for response in responses] of Phase 1. *)
Definition collect_response (all_friend_ids : list string)
    (response : option fetch_body) : list string :=
  match response with
  | Some b =>
      if body_truthy b && negb (has_error b)
      then foldl collect_friend all_friend_ids (get_friends b)
      else all_friend_ids
  | None => all_friend_ids
  end.

Definition phase1 (responses : list (option fetch_body)) : list string :=
  foldl collect_response [] responses.

(** [sorted(set(all_friend_ids), reverse=True)] *)
Definition str_ge (x y : string) : Prop := String.leb y x = true.

#[export] Instance str_ge_dec x y : Decision (str_ge x y).
Proof. unfold str_ge. apply _. Defined.

Definition sorted_set_reverse (l : list string) : list string :=
  merge_sort str_ge (elements (list_to_set l : gset string)).

(** *** Phase 2 *)

(** The sets and lists of one pass over a response. *)
Record batch : Type := mk_batch {
  written_main : gset string;
  written_unsep : gset string;
  new_main : list string;
  new_unsep : list string
}.

(** [if sep_prefixes:] *)
Definition prefixes_given (sep_prefixes : option (list string)) : bool :=
  match sep_prefixes with
  | Some (_ :: _) => true
  | _ => false
  end.

(** [any(friend_id.startswith(p) for p in sep_prefixes)] *)
Definition any_startswith (friend_id : string) (sep_prefixes : option (list string))
  : bool :=
  existsb (PyStr.startswith friend_id) (default [] sep_prefixes).

(** [f"{friend_id}|{friend_name}"] *)
Definition item_of (friend_id friend_name : string) : string :=
  friend_id +:+ "|" +:+ friend_name.

Definition add_main (item : string) (b : batch) : batch :=
  if bool_decide (item ∈ written_main b) then b
  else mk_batch ({[ item ]} ∪ written_main b) (written_unsep b)
                (new_main b ++ [item]) (new_unsep b).

Definition add_unsep (item : string) (b : batch) : batch :=
  if bool_decide (item ∈ written_unsep b) then b
  else mk_batch (written_main b) ({[ item ]} ∪ written_unsep b)
                (new_main b) (new_unsep b ++ [item]).

(** Body of [for friend in friends] of Phase 2; a record without [id]
    raises [KeyError], which is caught: [continue]. *)
Definition route_friend (sep_prefixes : option (list string)) (b : batch)
    (fr : friend) : batch :=
  match f_id fr with
  | None => b
  | Some friend_id =>
      let friend_name := default "Unknown" (f_name fr) in
      let item := item_of friend_id friend_name in
      if prefixes_given sep_prefixes then
        if any_startswith friend_id sep_prefixes
        then add_main item b
        else add_unsep item b
      else add_main item b
  end.

(** The state of the Phase 2 loop: the two seen sets, the lines appended
    so far to [output_file] and to [unsep_file], and the two counters. *)
Record dump_state : Type := mk_state {
  seen_main : gset string;
  seen_unsep : gset string;
  out_main : list string;
  out_unsep : list string;
  line_count : nat;
  line_count_un : nat
}.

Definition init_state : dump_state := mk_state ∅ ∅ [] [] 0 0.

Definition nonempty {A} (l : list A) : bool :=
  match l with [] => false | _ => true end.

(** Body of [for response in responses] of Phase 2.  [unsep_file] tells
    whether a second output file was passed. *)
Definition process_response (sep_prefixes : option (list string))
    (unsep_file : bool) (st : dump_state) (response : option fetch_body)
  : dump_state :=
  match response with
  | None => st
  | Some body =>
      if negb (body_truthy body) then st
      else
        let b := foldl (route_friend sep_prefixes)
                   (mk_batch (seen_main st) (seen_unsep st) [] [])
                   (get_friends body) in
        let write_main := nonempty (new_main b) in
        let write_unsep := nonempty (new_unsep b) && unsep_file in
        mk_state (written_main b) (written_unsep b)
          (if write_main then out_main st ++ new_main b else out_main st)
          (if write_unsep then out_unsep st ++ new_unsep b else out_unsep st)
          (if write_main then line_count st + length (new_main b)
           else line_count st)
          (if write_unsep then line_count_un st + length (new_unsep b)
           else line_count_un st)
  end.

Definition phase2 (sep_prefixes : option (list string)) (unsep_file : bool)
    (responses : list (option fetch_body)) : dump_state :=
  foldl (process_response sep_prefixes unsep_file) init_state responses.

(** *** The whole call *)

(** What a call returns and does: the counts returned, the requests
    issued, and the items appended to [output_file] and to [unsep_file], in
    the order written.  An item is written with a line feed after it; it is
    one line of the file when it holds no line boundary (module [DumpText]
    gives the texts written). *)
Record dump_result : Type := mk_result {
  returned : nat * nat;
  issued : list request;
  main_lines : list string;
  unsep_lines : list string
}.

Definition target_uids (recursive : bool) (all_friend_ids uids : list string)
  : list string :=
  if recursive then all_friend_ids else uids.

Definition dump_friends (net : network) (a : api) (uids : list string)
    (unsep_file : bool) (sep_prefixes : option (list string))
    (recursive : bool) : dump_result :=
  if negb (is_logged_in a) then mk_result (0, 0) [] [] []
  else
    let responses := gather net 0 uids in
    let all_friend_ids := phase1 responses in
    if negb (nonempty all_friend_ids)
    then mk_result (0, 0) (requests_for a uids) [] []
    else
      let all_friend_ids := sorted_set_reverse all_friend_ids in
      let targets := target_uids recursive all_friend_ids uids in
      let responses := gather net (length uids) targets in
      let st := phase2 sep_prefixes unsep_file responses in
      mk_result (line_count st, line_count_un st)
        (requests_for a uids ++ requests_for a targets)
        (out_main st) (out_unsep st).

(** [dump_simple]: no second file, no prefixes, [recursive=False]; the
    result is [result[0]]. *)
Definition dump_simple (net : network) (a : api) (uids : list string)
  : nat * dump_result :=
  let r := dump_friends net a uids false None false in
  (fst (returned r), r).

Definition dump_unlimited (net : network) (a : api) (uids : list string)
    (unsep_file : bool) (sep_prefixes : option (list string)) : dump_result :=
  dump_friends net a uids unsep_file sep_prefixes true.

End Dump.

(** ** Token extraction and the two logins *)

Module Auth.

(** An operation of the object: the object afterwards, the requests sent
    and the Python result. *)
Record outcome (A : Type) : Type := mk_outcome {
  after : api;
  sent : list request;
  result : A
}.

Arguments mk_outcome {A} _ _ _.
Arguments after {A} _.
Arguments sent {A} _.
Arguments result {A} _.

(** The decoded answer of the login API: [data.get('status')],
    [data.get('data', {}).get('cookies')] and [data.get('message')]. *)
Record login_data : Type := mk_login_data {
  ld_status : option string;
  ld_cookies : option string;
  ld_message : option string
}.

(** [response.json()] of the login answer: the object, or the exception
    raised by the decoding or by reading a decoded value that is not an
    object (given by its text). *)
Inductive login_json : Type :=
  | JsonRaises (e : string)
  | JsonData (data : login_data).

(** What [requests.post(LOGIN_API_URL, ...)] does: it times out, raises
    another exception (given by its text), or answers with a body. *)
Inductive login_outcome : Type :=
  | LoginTimeout
  | LoginRaises (e : string)
  | LoginBody (response_text : string) (json : login_json).

(** The decoded answer of the token API. *)
Record token_data : Type := mk_token_data {
  td_status : option string;
  td_access_token : option string
}.

(** The remote side of the login paths.  [login_api n uid password] is the
    answer to the POST issued after [n] earlier ones of the same call;
    [oauth_status cookie] is [str(response.headers)] of the OAuth probe,
    [None] when the request raises; [token_api cookie] is the decoded
    answer of the token API, [None] when the request or its decoding
    raises. *)
Record remote : Type := mk_remote {
  login_api : nat -> string -> string -> login_outcome;
  oauth_status : string -> option string;
  token_api : string -> option token_data
}.

Definition MAX_API_RETRIES : nat := 10.

(** The double quote, and the two texts searched in the headers:
    the key with its colon, and the key with the opening quote of the
    value. *)
Definition dquote : ascii := ascii_of_nat 34.

Definition token_key : string :=
  String dquote ("access_token" +:+ String dquote ":").

Definition token_open : string := token_key +:+ String dquote "".

(** The characters of [s] before its first quote; [None] when [s] has no
    quote. *)
Fixpoint until_quote (s : string) : option string :=
  match s with
  | EmptyString => None
  | String c s' =>
      if Ascii.eqb c dquote then Some EmptyString
      else option_map (String c) (until_quote s')
  end.

Fixpoint skip (n : nat) (s : string) : string :=
  match n, s with
  | S n', String _ s' => skip n' s'
  | _, _ => s
  end.

(** The token pattern matched at the head of [s]: the key, the opening
    quote, one or more characters other than the quote (the token), and
    the closing quote. *)
Definition token_at (s : string) : option string :=
  if String.prefix token_open s then
    match until_quote (skip (String.length token_open) s) with
    | Some tok => if PyStr.truthy tok then Some tok else None
    | None => None
    end
  else None.

(** [re.search] of the pattern: the leftmost match. *)
Fixpoint search_token (s : string) : option string :=
  match token_at s with
  | Some tok => Some tok
  | None =>
      match s with
      | EmptyString => None
      | String _ s' => search_token s'
      end
  end.

Definition _extract_token_from_cookie (rm : remote) (cookie : string)
  : option string :=
  match oauth_status rm cookie with
  | Some headers =>
      if PyStr.contains token_key headers then search_token headers else None
  | None => None
  end.

Definition _extract_token_from_api (rm : remote) (cookie : string)
  : option string :=
  match token_api rm cookie with
  | Some data =>
      if bool_decide (td_status data = Some "success")
         && PyStr.opt_truthy (td_access_token data)
      then td_access_token data
      else None
  | None => None
  end.

(** [if token:] on an [Optional[str]]: the token when it is a non-empty
    string. *)
Definition usable (token : option string) : option string :=
  match token with
  | Some t => if PyStr.truthy t then Some t else None
  | None => None
  end.

(** [self.cookie = cookie; self.token = token] *)
Definition store (cookie token : string) (a : api) : api :=
  set_token token (set_cookie cookie a).

(** *** [login_with_cookie] *)

Definition sb_constant : string := "sb=By.ShajoN-404.OfficiaL;".

(** [re.search(r'sb=[^;]+', cookie)]: somewhere in the cookie, [sb=]
    followed by a character other than [;]. *)
Fixpoint has_sb (cookie : string) : bool :=
  (String.prefix "sb=" cookie &&
   match String.get 3 cookie with
   | Some c => negb (Ascii.eqb c ";")
   | None => false
   end) ||
  match cookie with
  | EmptyString => false
  | String _ rest => has_sb rest
  end.

Definition ensure_sb (cookie : string) : string :=
  if has_sb cookie then cookie else sb_constant +:+ cookie.

Definition login_with_cookie (rm : remote) (a : api) (cookie : string)
  : outcome (bool * string) :=
  let cookie := ensure_sb cookie in
  match usable (_extract_token_from_cookie rm cookie) with
  | Some token =>
      mk_outcome (store cookie token a) [ReqOAuth cookie] (true, "SUCCESS")
  | None =>
      match usable (_extract_token_from_api rm cookie) with
      | Some token =>
          mk_outcome (store cookie token a)
            [ReqOAuth cookie; ReqTokenApi cookie] (true, "SUCCESS")
      | None =>
          mk_outcome a [ReqOAuth cookie; ReqTokenApi cookie]
            (false, "TOKEN_FAILED")
      end
  end.

(** *** [login_with_credentials] *)

Definition proxy_error : string := "SOCKSHTTPSConnectionPool".

(** [data.get('status') == 'success' and data.get('data', {}).get('cookies')] *)
Definition login_success (data : login_data) : bool :=
  bool_decide (ld_status data = Some "success")
  && PyStr.opt_truthy (ld_cookies data).

(** The statements after the success test: the status of a failure. *)
Definition failure_status (data : login_data) : string :=
  let error_msg := PyStr.lower (default "" (ld_message data)) in
  if PyStr.contains "checkpoint" error_msg
     || PyStr.contains "two-factor" error_msg
  then "CHECKPOINT"
  else if PyStr.contains "invalid" error_msg
          || PyStr.contains "incorrect" error_msg
          || PyStr.contains "wrong" error_msg
  then "INVALID_CREDENTIALS"
  else default "LOGIN_FAILED" (ld_message data).

(** The [while retry_count < MAX_API_RETRIES] loop.  [remaining] is
    [MAX_API_RETRIES - retry_count]: an iteration either returns or adds
    one to [retry_count]. *)
Fixpoint login_loop (rm : remote) (uid password : string) (a : api)
    (remaining retry_count : nat) (log : list request)
  : outcome (bool * string) :=
  match remaining with
  | 0 => mk_outcome a log (false, "MAX_RETRIES_EXCEEDED")
  | S remaining' =>
      let log := log ++ [ReqLogin uid password] in
      match login_api rm retry_count uid password with
      | LoginTimeout =>
          login_loop rm uid password a remaining' (S retry_count) log
      | LoginRaises e => mk_outcome a log (false, "ERROR: " +:+ e)
      | LoginBody response_text json =>
          if PyStr.contains proxy_error response_text
          then login_loop rm uid password a remaining' (S retry_count) log
          else
            match json with
            | JsonRaises e => mk_outcome a log (false, "ERROR: " +:+ e)
            | JsonData data =>
                if login_success data then
                  let cookie := fmt (ld_cookies data) in
                  match usable (_extract_token_from_cookie rm cookie) with
                  | Some token =>
                      mk_outcome (store cookie token a)
                        (log ++ [ReqOAuth cookie]) (true, "SUCCESS")
                  | None =>
                      match usable (_extract_token_from_api rm cookie) with
                      | Some token =>
                          mk_outcome (store cookie token a)
                            (log ++ [ReqOAuth cookie; ReqTokenApi cookie])
                            (true, "SUCCESS")
                      | None =>
                          mk_outcome a
                            (log ++ [ReqOAuth cookie; ReqTokenApi cookie])
                            (false, "TOKEN_FAILED")
                      end
                  end
                else mk_outcome a log (false, failure_status data)
            end
      end
  end.

Definition login_with_credentials (rm : remote) (a : api)
    (uid password : string) : outcome (bool * string) :=
  login_loop rm uid password a MAX_API_RETRIES 0 [].

End Auth.

(** ** Login validation: [FacebookAPI.validate_login] *)

Module Validate.
Import Auth.

(** The probe file [.uid.txt]: found at none of the three paths, found and
    unreadable, or read ([read_text().splitlines()]). *)
Inductive uid_file : Type :=
  | FileAbsent
  | FileUnreadable
  | FileLines (test_uids : list string).

(** The answer to a probe: [str(data)] and the decoded object. *)
Record probe_answer : Type := mk_answer {
  pa_repr : string;
  pa_body : fetch_body
}.

(** [probes n uid]: the answer to the probe of [uid] issued after [n]
    earlier ones; [None] when [requests.get] or [response.json()]
    raises (a timeout or any other exception). *)
Definition probe_net : Type := nat -> string -> option probe_answer.

Definition error_words : list string :=
  ["blocked"; "misuse"; "abusive"; "exceeded"; "misusing"; "error"].

(** [any(word in str(data).lower() for word in error_words)] *)
Definition has_error_word (repr : string) : bool :=
  existsb (fun word => PyStr.contains word (PyStr.lower repr)) error_words.

(** [[f['id'] for f in friends]]; [None] when a record has no [id]
    ([KeyError]). *)
Definition friend_ids_of (friends : list friend) : option (list string) :=
  mapM f_id friends.

(** The result of [validate_login] with the value of [blocked_detected]
    when it returns. *)
Record validation : Type := mk_validation {
  v_after : api;
  v_sent : list request;
  v_result : bool * list string;
  v_blocked : bool
}.

(** The loop [for uid in test_uids] and the statements after it; [n] is
    the number of probes issued so far. *)
Fixpoint probe_loop (probes : probe_net) (a : api) (test_uids : list string)
    (n : nat) (blocked_detected : bool) (log : list request) : validation :=
  match test_uids with
  | [] => mk_validation a log (false, []) blocked_detected
  | uid :: rest =>
      let uid := PyStr.strip uid in
      if negb (PyStr.truthy uid)
      then probe_loop probes a rest n blocked_detected log
      else
        let log := log ++ [ReqFriends uid (fmt (_token a)) (fmt (_cookie a))] in
        match probes n uid with
        | None => probe_loop probes a rest (S n) blocked_detected log
        | Some answer =>
            if has_error_word (pa_repr answer)
            then probe_loop probes a rest (S n) true log
            else
              let friends := get_friends (pa_body answer) in
              if Dump.nonempty friends then
                match friend_ids_of friends with
                | Some friend_ids =>
                    mk_validation
                      (mk_api (_token a) (_cookie a)
                         (save_login_check friend_ids (_config a)))
                      log (true, friend_ids) blocked_detected
                | None => probe_loop probes a rest (S n) blocked_detected log
                end
              else probe_loop probes a rest (S n) blocked_detected log
        end
  end.

Definition validate_login (file : uid_file) (probes : probe_net) (a : api)
  : validation :=
  if negb (is_logged_in a) then mk_validation a [] (false, []) false
  else
    match file with
    | FileAbsent => mk_validation a [] (true, []) false
    | FileUnreadable => mk_validation a [] (true, []) false
    | FileLines test_uids =>
        if negb (Dump.nonempty test_uids)
        then mk_validation a [] (true, []) false
        else probe_loop probes a test_uids 0 false []
    end.

(** [_validate_current_login] of the menu application (FILE.py): a failed
    validation logs out. *)
Definition _validate_current_login (file : uid_file) (probes : probe_net)
    (a : api) : api * bool :=
  if negb (is_logged_in a) then (a, false)
  else
    let v := validate_login file probes a in
    if negb (fst (v_result v)) then (logout (v_after v), false)
    else (v_after v, true).

End Validate.

(** ** The operations on the credentials *)

Module Session.
Import Auth Validate.

(** An operation of the menu application together with what the remote
    side answers to it (the property setters and the module-level functions
    of [core.py], which the application does not call, are in [CoreOps]). *)
Inductive operation : Type :=
  | LoginWithCookie (rm : remote) (cookie : string)
  | LoginWithCredentials (rm : remote) (uid password : string)
  | Logout
  | ValidateLogin (file : uid_file) (probes : probe_net)
  | ValidateCurrentLogin (file : uid_file) (probes : probe_net)
  | Restart.

(** [Restart]: a new [FacebookAPI] over the same session store. *)
Definition step (a : api) (op : operation) : api :=
  match op with
  | LoginWithCookie rm cookie => after (login_with_cookie rm a cookie)
  | LoginWithCredentials rm uid password =>
      after (login_with_credentials rm a uid password)
  | Logout => logout a
  | ValidateLogin file probes => v_after (validate_login file probes a)
  | ValidateCurrentLogin file probes =>
      fst (_validate_current_login file probes a)
  | Restart => _load_session (_config a)
  end.

Definition run (ops : list operation) (a : api) : api := foldl step a ops.

(** The object created when no session file exists. *)
Definition fresh : api := _load_session empty_session.

(** Token and cookie are both non-empty strings, or both absent. *)
Definition both_or_neither (a : api) : Prop :=
  (PyStr.opt_truthy (_token a) = true ∧ PyStr.opt_truthy (_cookie a) = true) ∨
  (_token a = None ∧ _cookie a = None).

(** The session store holds the credentials of the object. *)
Definition in_step (a : api) : Prop :=
  sess_token (_config a) = _token a ∧ sess_cookie (_config a) = _cookie a.

(** A login either stores a non-empty cookie and a non-empty token, or
    leaves the object as it was. *)
Definition stored_or_unchanged (a : api) (o : outcome (bool * string)) : Prop :=
  (fst (result o) = true ∧
   ∃ cookie token, after o = store cookie token a ∧
     PyStr.truthy cookie = true ∧ PyStr.truthy token = true) ∨
  (fst (result o) = false ∧ after o = a).

End Session.

(** The scenarios of the specification, run on the model. *)

Module Scenario.
Import Dump.

Definition alice : api :=
  mk_api (Some "EAAB-token") (Some "sb=x;c_user=1") empty_session.

Definition ann : fetch_body :=
  mk_body false (Some [mk_friend (Some "7") (Some "Ann")]) true.
Definition bo : fetch_body :=
  mk_body false (Some [mk_friend (Some "9") (Some "Bo")]) true.

Definition net1 : network := fun _ uid =>
  if String.eqb uid "100012345" then Some ann
  else if String.eqb uid "7" then Some bo
  else None.

(** Two seeds that share the friend [7|Ann]; the second also lists a
    record without [id] and a record without [name]. *)
Definition seeds2 : list string := ["100012345"; "100067890"].

Definition crowd : fetch_body :=
  mk_body false
    (Some [mk_friend (Some "7") (Some "Ann");
           mk_friend (Some "100055") (Some "Cy");
           mk_friend None (Some "Zed");
           mk_friend (Some "42") None]) true.

Definition net2 : network := fun _ uid =>
  if String.eqb uid "100012345" then Some ann
  else if String.eqb uid "100067890" then Some crowd
  else None.

(** Probe answers: a friends list, a rate-limit error, and a friends list
    with a record that has no [id]. *)
Definition probe_friends : Validate.probe_answer :=
  Validate.mk_answer "{'friends': {'data': [{'id': '7', 'name': 'Ann'}]}}" ann.

Definition probe_limit : Validate.probe_answer :=
  Validate.mk_answer "{'error': {'message': 'limit Exceeded', 'code': 4}}"
    (mk_body true None false).

Definition probe_no_id : Validate.probe_answer :=
  Validate.mk_answer "{'friends': {'data': [{'name': 'Ann'}]}}"
    (mk_body false (Some [mk_friend None (Some "Ann")]) false).

(** The first probe is rate limited, the second times out, the third
    answers with friends; a fourth would answer too. *)
Definition probes1 : Validate.probe_net := fun n _ =>
  match n with
  | 0 => Some probe_limit
  | 1 => None
  | _ => Some probe_friends
  end.

Definition uid_lines : list string := [" 4 "; ""; "5"; "6"; "8"].

(** Remote sides of the login paths. *)
Definition no_token : string -> option string := fun _ => None.
Definition no_token_data : string -> option Auth.token_data := fun _ => None.

(** The login API times out on every call. *)
Definition rm_timeout : Auth.remote :=
  Auth.mk_remote (fun _ _ _ => Auth.LoginTimeout) no_token no_token_data.

(** The login API answers twice with the proxy error, then rejects the
    password. *)
Definition rm_rejects : Auth.remote :=
  Auth.mk_remote
    (fun n _ _ =>
       if (n <? 2)%nat
       then Auth.LoginBody "SOCKSHTTPSConnectionPool(host='b-api.facebook.com')"
              (Auth.JsonRaises "Expecting value")
       else Auth.LoginBody "{status: error}"
              (Auth.JsonData
                 (Auth.mk_login_data (Some "error") None
                    (Some "Incorrect username or PASSWORD"))))
    no_token no_token_data.

(** The headers of the OAuth probe hold a token. *)
Definition oauth_headers : string :=
  "{'Location': 'x#" +:+ Auth.token_open +:+ "EAAB-fresh"
  +:+ String Auth.dquote ",'}".

Definition rm_oauth : Auth.remote :=
  Auth.mk_remote (fun _ _ _ => Auth.LoginTimeout)
    (fun _ => Some oauth_headers) no_token_data.

(** The OAuth probe fails and the token API answers. *)
Definition rm_fallback : Auth.remote :=
  Auth.mk_remote (fun _ _ _ => Auth.LoginTimeout) no_token
    (fun _ => Some (Auth.mk_token_data (Some "success") (Some "EAAB-second"))).

End Scenario.

(** ** Notions used to state the properties of the dump *)

Module DumpSpec.
Import Dump.

(** The two output targets. *)
Inductive target : Type := Main | Unsep.

#[export] Instance target_eq_dec : EqDecision target.
Proof. solve_decision. Defined.

(** Where the branches of [route_friend] send a record with identifier
    [friend_id]. *)
Definition route_of (sep_prefixes : option (list string)) (friend_id : string)
  : target :=
  if prefixes_given sep_prefixes then
    if any_startswith friend_id sep_prefixes then Main else Unsep
  else Main.

(** The target and the formatted line of a record; [None] for a record
    without [id]. *)
Definition classify (sep_prefixes : option (list string)) (fr : friend)
  : option (target * string) :=
  match f_id fr with
  | Some friend_id =>
      Some (route_of sep_prefixes friend_id,
            item_of friend_id (default "Unknown" (f_name fr)))
  | None => None
  end.

(** The friend records of an answer, and of a list of answers. *)
Definition answer_friends (response : option fetch_body) : list friend :=
  match response with
  | Some b => get_friends b
  | None => []
  end.

Definition records (responses : list (option fetch_body)) : list friend :=
  responses ≫= answer_friends.

(** [produced sep rs t x]: some record of the answers [rs] is routed to
    [t] and formats as the line [x]. *)
Definition produced (sep_prefixes : option (list string))
    (responses : list (option fetch_body)) (t : target) (x : string) : Prop :=
  ∃ fr, fr ∈ records responses ∧ classify sep_prefixes fr = Some (t, x).

(** A seen set with the list of the lines accepted so far. *)
Definition add_seen (item : string) (p : gset string * list string)
  : gset string * list string :=
  if bool_decide (item ∈ p.1) then p else ({[ item ]} ∪ p.1, p.2 ++ [item]).

Definition part (t : target) (b : batch) : gset string * list string :=
  match t with
  | Main => (written_main b, new_main b)
  | Unsep => (written_unsep b, new_unsep b)
  end.

(** The invariant of a seen set and its list: the list has no duplicate
    and holds exactly the members of the set. *)
Definition tracked (p : gset string * list string) : Prop :=
  NoDup p.2 ∧ ∀ x, x ∈ p.1 ↔ x ∈ p.2.

Definition empty_batch : batch := mk_batch ∅ ∅ [] [].

(** One pass of [route_friend] over a list of records. *)
Definition one_pass (sep : option (list string)) (frs : list friend) : batch :=
  foldl (route_friend sep) empty_batch frs.

(** Lines accepted before a pass do not change what the pass does. *)
Definition shift (nm nu : list string) (b : batch) : batch :=
  mk_batch (written_main b) (written_unsep b)
           (nm ++ new_main b) (nu ++ new_unsep b).

(** The loop state that goes with a batch holding every line accepted
    since the start of Phase 2. *)
Definition state_of (unsep_file : bool) (b : batch) : dump_state :=
  mk_state (written_main b) (written_unsep b)
    (new_main b) (if unsep_file then new_unsep b else [])
    (length (new_main b)) (if unsep_file then length (new_unsep b) else 0).

(** Strictly descending order on identifiers. *)
Definition str_gt (x y : string) : Prop := String.ltb y x = true.

(** [offers rs x]: some answer without the key [error] lists a friend
    whose id is the non-empty string [x]. *)
Definition offers (responses : list (option fetch_body)) (x : string) : Prop :=
  ∃ b fr, Some b ∈ responses ∧ has_error b = false ∧
          fr ∈ get_friends b ∧ f_id fr = Some x ∧ x ≠ "".

(** The answers that Phase 2 of a call processes; none when the call
    returns before Phase 2. *)
Definition phase2_answers (net : network) (a : api) (uids : list string)
    (recursive : bool) : list (option fetch_body) :=
  if negb (is_logged_in a) then []
  else
    let all_friend_ids := phase1 (gather net 0 uids) in
    if negb (nonempty all_friend_ids) then []
    else gather net (length uids)
           (target_uids recursive (sorted_set_reverse all_friend_ids) uids).

(** A line occurs in the answers when some record of theirs formats as it. *)
Definition occurs (sep_prefixes : option (list string))
    (responses : list (option fetch_body)) (x : string) : Prop :=
  ∃ t, produced sep_prefixes responses t x.

(** Number of times a line was written during the call, both files
    together. *)
Definition times_written (r : dump_result) (x : string) : nat :=
  count_occ string_dec (main_lines r ++ unsep_lines r) x.

End DumpSpec.

(** ** Notions used to state the properties of the logins *)

Module AuthSpec.
Import Auth.

(** The answers on which [login_with_credentials] tries again: a timeout,
    or a body that holds the proxy error text. *)
Definition transient (o : login_outcome) : bool :=
  match o with
  | LoginTimeout => true
  | LoginRaises _ => false
  | LoginBody response_text _ => PyStr.contains proxy_error response_text
  end.

Definition is_login (r : request) : bool :=
  match r with
  | ReqLogin _ _ => true
  | _ => false
  end.

End AuthSpec.

(** ** Notions used to state the properties of the validation *)

Module ValidateSpec.
Import Validate.

(** What the body of the probe loop makes of an answer: it marks the
    session blocked, it harvests the friend ids and returns, or it passes
    on to the next probe. *)
Inductive verdict : Type :=
  | Blocked
  | Harvest (friend_ids : list string)
  | Passed.

#[export] Instance verdict_eq_dec : EqDecision verdict.
Proof. solve_decision. Defined.

Definition verdict_of (answer : option probe_answer) : verdict :=
  match answer with
  | None => Passed
  | Some ans =>
      if has_error_word (pa_repr ans) then Blocked
      else
        match get_friends (pa_body ans) with
        | [] => Passed
        | friends =>
            match friend_ids_of friends with
            | Some friend_ids => Harvest friend_ids
            | None => Passed
            end
        end
  end.

(** The identifiers probed: the lines of the file, stripped, without the
    blank ones, in the order of the file. *)
Definition probe_ids (test_uids : list string) : list string :=
  List.filter PyStr.truthy (map PyStr.strip test_uids).

(** The verdicts on the answers to the probes of [ids], the first of which
    is probe number [n]. *)
Fixpoint verdicts (probes : probe_net) (n : nat) (ids : list string)
  : list verdict :=
  match ids with
  | [] => []
  | uid :: rest => verdict_of (probes n uid) :: verdicts probes (S n) rest
  end.

Definition is_harvest (v : verdict) : bool :=
  match v with
  | Harvest _ => true
  | _ => false
  end.

Definition probe_requests (a : api) (ids : list string) : list request :=
  map (fun uid => ReqFriends uid (fmt (_token a)) (fmt (_cookie a))) ids.

(** The object after a successful validation: the friend ids are saved in
    the session store. *)
Definition with_login_check (friend_ids : list string) (a : api) : api :=
  mk_api (_token a) (_cookie a) (save_login_check friend_ids (_config a)).

End ValidateSpec.

(** ** File utilities: [FileUtils] (core.py) and [Config] (config.py)

    A file read with [readlines()] is the list of its lines, [None] when it
    cannot be read, and what [writelines] writes is the list of the lines
    written.  A file read with [read().splitlines()] is given by its text,
    and what [write] writes is a text. *)

Module PyList.

(** The bound of a slice: a negative index counts from the end, and the
    result is kept between 0 and the length. *)
Definition norm_index (len : nat) (i : Z) : nat :=
  if (i <? 0)%Z then Z.to_nat (i + Z.of_nat len)
  else Nat.min (Z.to_nat i) len.

(** [l[i:j]] *)
Definition slice {A} (l : list A) (i j : Z) : list A :=
  let s := norm_index (length l) i in
  let e := norm_index (length l) j in
  take (e - s) (drop s l).

(** [del l[i:j]] *)
Definition del_slice {A} (l : list A) (i j : Z) : list A :=
  let s := norm_index (length l) i in
  let e := norm_index (length l) j in
  take s l ++ drop (Nat.max s e) l.

End PyList.

(** Texts and their lines. *)

Module Text.

Definition LF : ascii := ascii_of_nat 10.
Definition CR : ascii := ascii_of_nat 13.

(** The line boundaries of [str.splitlines] among the characters below
    256: line feed, vertical tab, form feed, carriage return, the file,
    group and record separators and the next-line character. *)
Definition is_linebreak (c : ascii) : bool :=
  let n := nat_of_ascii c in
  ((10 <=? n)%nat && (n <=? 13)%nat) || ((28 <=? n)%nat && (n <=? 30)%nat) ||
  (n =? 133)%nat.

(** A text that holds no line boundary. *)
Fixpoint single_line (s : string) : bool :=
  match s with
  | EmptyString => true
  | String c s' => negb (is_linebreak c) && single_line s'
  end.

(** What a read in text mode returns of a text: a carriage return with the
    line feed after it, and a carriage return alone, become a line feed.
    [after_cr] tells that the character before was a carriage return. *)
Fixpoint universal_newlines_from (after_cr : bool) (s : string) : string :=
  match s with
  | EmptyString => EmptyString
  | String c s' =>
      if after_cr && Ascii.eqb c LF then universal_newlines_from false s'
      else if Ascii.eqb c CR then String LF (universal_newlines_from true s')
      else String c (universal_newlines_from false s')
  end.

Definition universal_newlines (s : string) : string :=
  universal_newlines_from false s.

(** The lines of a text, ended by the characters that [boundary] accepts; a
    carriage return and the line feed after it end one line; a last line
    needs no end, and the text after the last end is a line when it is not
    empty. *)
Fixpoint lines_by (boundary : ascii -> bool) (after_cr : bool) (s : string)
  : list string :=
  match s with
  | EmptyString => []
  | String c s' =>
      if after_cr && Ascii.eqb c LF then lines_by boundary false s'
      else if boundary c
      then EmptyString :: lines_by boundary (Ascii.eqb c CR) s'
      else
        match lines_by boundary false s' with
        | [] => [String c EmptyString]
        | line :: rest => String c line :: rest
        end
  end.

(** [s.splitlines()] *)
Definition splitlines (s : string) : list string :=
  lines_by is_linebreak false s.

(** [open(path, 'r').read().splitlines()] for a file that holds [text]. *)
Definition read_lines (text : string) : list string :=
  splitlines (universal_newlines text).

(** The lines that successive calls of [input()] return when [text] is
    what the terminal delivers, before the end of the input: a line ends
    at a line feed. *)
Definition input_lines (text : string) : list string :=
  lines_by (Ascii.eqb LF) false (universal_newlines text).

(** ['\n'.join(lines)] *)
Fixpoint join_lines (lines : list string) : string :=
  match lines with
  | [] => EmptyString
  | [x] => x
  | x :: rest => x +:+ String LF (join_lines rest)
  end.

(** Every line followed by a line feed. *)
Fixpoint lines_text (lines : list string) : string :=
  match lines with
  | [] => EmptyString
  | x :: rest => x +:+ String LF (lines_text rest)
  end.

(** A list of lines without its last line when that line is empty. *)
Fixpoint strip_last_empty (lines : list string) : list string :=
  match lines with
  | [] => []
  | [x] => if String.eqb x "" then [] else [x]
  | x :: rest => x :: strip_last_empty rest
  end.

End Text.

(** The texts that Phase 2 of [dump_friends] appends to its two files. *)

Module DumpText.
Import Dump.

(** The lists [new_main] and [new_unsep] that the body of
    [for response in responses] has collected when it comes to write. *)
Definition batch_of (sep_prefixes : option (list string)) (st : dump_state)
    (response : option fetch_body) : batch :=
  match response with
  | None => mk_batch (seen_main st) (seen_unsep st) [] []
  | Some body =>
      if negb (body_truthy body)
      then mk_batch (seen_main st) (seen_unsep st) [] []
      else foldl (route_friend sep_prefixes)
             (mk_batch (seen_main st) (seen_unsep st) [] [])
             (get_friends body)
  end.

(** ['\n'.join(new_main) + '\n'] *)
Definition batch_text (lines : list string) : string :=
  Text.join_lines lines +:+ String Text.LF EmptyString.

(** The loop state with the texts appended so far to [output_file] and to
    [unsep_file]. *)
Record written : Type := mk_written {
  state : dump_state;
  main_text : string;
  unsep_text : string
}.

(** Body of [for response in responses] of Phase 2, with the two writes. *)
Definition write_response (sep_prefixes : option (list string))
    (unsep_file : bool) (w : written) (response : option fetch_body)
  : written :=
  let b := batch_of sep_prefixes (state w) response in
  mk_written (process_response sep_prefixes unsep_file (state w) response)
    (if nonempty (new_main b)
     then main_text w +:+ batch_text (new_main b) else main_text w)
    (if nonempty (new_unsep b) && unsep_file
     then unsep_text w +:+ batch_text (new_unsep b) else unsep_text w).

Definition phase2_texts (sep_prefixes : option (list string))
    (unsep_file : bool) (responses : list (option fetch_body)) : written :=
  foldl (write_response sep_prefixes unsep_file)
        (mk_written init_state EmptyString EmptyString) responses.

(** The texts appended by a call of [dump_friends]: they are the texts of
    the two files when these did not exist before. *)
Definition dump_texts (net : network) (a : api) (uids : list string)
    (unsep_file : bool) (sep_prefixes : option (list string))
    (recursive : bool) : string * string :=
  let w := phase2_texts sep_prefixes unsep_file
             (DumpSpec.phase2_answers net a uids recursive) in
  (main_text w, unsep_text w).

End DumpText.

Module FileUtils.


(** The result of [cut_or_delete_lines]: the value returned, the lines
    written back to the file and the lines written to [cut_to]; [None] for
    a file that is not written. *)
Record cut_result : Type := mk_cut {
  cut_ok : bool;
  file_lines : option (list string);
  cut_lines : option (list string)
}.

(** [cut_to] is [None] when no file for the cut lines is passed, and
    otherwise tells whether that file can be opened for writing;
    [writable] tells whether the file itself can.  An [open] that raises
    ends the call: the handler returns [False] and what was not written
    yet is not written. *)
Definition cut_or_delete_lines (content : option (list string))
    (start_line end_line : Z) (cut_to : option bool) (writable : bool)
  : cut_result :=
  match content with
  | None => mk_cut false None None
  | Some lines =>
      let start_idx := (start_line - 1)%Z in
      let end_idx := end_line in
      match cut_to with
      | Some false => mk_cut false None None
      | _ =>
          let cut :=
            match cut_to with
            | Some _ => Some (PyList.slice lines start_idx end_idx)
            | None => None
            end in
          if writable
          then mk_cut true (Some (PyList.del_slice lines start_idx end_idx)) cut
          else mk_cut false None cut
      end
  end.

(** [line.startswith(tuple(prefixes))] *)
Definition starts_with_any (prefixes : list string) (line : string) : bool :=
  existsb (PyStr.startswith line) prefixes.

(** [separate_by_prefix]: [content] is the text of the file, [None] when
    it cannot be read, and [writable] tells whether [output_file] can be
    opened for writing.  The count returned and the text written to
    [output_file], [None] when nothing is written. *)
Definition separate_by_prefix (content : option string)
    (prefixes : list string) (writable : bool) : nat * option string :=
  match content with
  | None => (0, None)
  | Some text =>
      let lines := Text.read_lines text in
      let matching := List.filter (starts_with_any prefixes) lines in
      if Dump.nonempty matching then
        if writable then (length matching, Some (Text.join_lines matching))
        else (0, None)
      else (0, None)
  end.

(** [Config.remove_duplicates_from_file]: the count returned and the text
    written back, [None] when the file is not written. *)
Definition remove_duplicates_from_file (content : option string)
    (writable : bool) : nat * option string :=
  match content with
  | None => (0, None)
  | Some text =>
      let lines := Text.read_lines text in
      let unique_lines := Dump.sorted_set_reverse lines in
      if writable
      then (length unique_lines, Some (Text.join_lines unique_lines))
      else (0, None)
  end.

End FileUtils.

(** ** The menu application (FILE.py) *)

Module App.

(** [_get_int_input]: [typed] is the integer that [int] reads from the
    input, [None] when it raises [ValueError]. *)
Definition _get_int_input (typed : option Z) (default : Z) : Z :=
  match typed with
  | Some value => if (value >? 0)%Z then value else default
  | None => default
  end.




(** [_do_simple_dump]: the count shown. *)
Definition _do_simple_dump (net : network) (a : api) (uids : list string)
  : option (nat * Dump.dump_result) :=
  if negb (is_logged_in a) then None
  else if negb (Dump.nonempty uids) then None
  else Some (Dump.dump_simple net a uids).

End App.

(** Further concrete data. *)

Module Samples.


(** Every identifier has two friends whose lines are the same: the id of
    the first holds a bar. *)
Definition net_bar : network := fun _ _ =>
  Some (mk_body false
          (Some [mk_friend (Some "1|2") (Some "x");
                 mk_friend (Some "1") (Some "2|x")])
          false).

(** Every identifier has one friend, whose name holds a line feed. *)
Definition net_break : network := fun _ _ =>
  Some (mk_body false
          (Some [mk_friend (Some "7") (Some ("Ann" +:+ String Text.LF "Bo"))])
          false).

End Samples.

(** ** More of the session store ([Config]) *)

Module SessionStore.

(** [load_login_check] *)
Definition load_login_check (s : session) : list string :=
  default [] (sess_login_check s).

Record session_info : Type := mk_info {
  has_token : bool;
  has_cookie : bool;
  friend_count : nat
}.

(** [get_session_info] *)
Definition get_session_info (s : session) : session_info :=
  mk_info (PyStr.opt_truthy (sess_token s)) (PyStr.opt_truthy (sess_cookie s))
          (length (default [] (sess_login_check s))).

End SessionStore.

(** ** The logins of the menu (FILE.py) and the functions kept for
    backward compatibility (core.py) *)

Module Logins.
Import Auth Validate.

(** [_do_cookie_login]: a failed login logs out. *)
Definition _do_cookie_login (rm : remote) (a : api) (cookie : string)
  : api * bool :=
  let o := login_with_cookie rm a cookie in
  if fst (result o) then (after o, true) else (logout (after o), false).

(** [_do_id_pass_login] *)
Definition _do_id_pass_login (rm : remote) (a : api) (uid password : string)
  : api * bool :=
  let o := login_with_credentials rm a uid password in
  (after o, fst (result o)).

(** Choice A of [_main_login_menu]: the object afterwards, and whether
    [_home_menu] is entered. *)
Definition choose_cookie_login (rm : remote) (file : uid_file)
    (probes : probe_net) (a : api) (cookie : string) : api * bool :=
  let r := _do_cookie_login rm a cookie in
  if snd r then _validate_current_login file probes (fst r)
  else (fst r, false).

(** Choice B of [_main_login_menu]. *)
Definition choose_id_pass_login (rm : remote) (file : uid_file)
    (probes : probe_net) (a : api) (uid password : string) : api * bool :=
  let r := _do_id_pass_login rm a uid password in
  if snd r then _validate_current_login file probes (fst r)
  else (fst r, false).

(** The module-level [login_with_credentials]: cookie, token and status. *)
Definition login_with_credentials_alias (rm : remote) (a : api)
    (uid password : string) : api * (option string * option string * string) :=
  let o := login_with_credentials rm a uid password in
  if fst (result o)
  then (after o, (_cookie (after o), _token (after o), snd (result o)))
  else (after o, (None, None, snd (result o))).

(** The module-level [login_with_cookie]: token and status. *)
Definition login_with_cookie_alias (rm : remote) (a : api) (cookie : string)
  : api * (option string * string) :=
  let o := login_with_cookie rm a cookie in
  if fst (result o) then (after o, (_token (after o), snd (result o)))
  else (after o, (None, snd (result o))).

End Logins.

(** ** Reading identifiers from the terminal (FILE.py) *)

Module Inputs.

(** [s.split('|')[0]] *)
Fixpoint before_bar (s : string) : string :=
  match s with
  | EmptyString => EmptyString
  | String c s' =>
      if Ascii.eqb c "|"%char then EmptyString else String c (before_bar s')
  end.

(** [_get_input]: [raw] is the line that [input] returns. *)
Definition _get_input (raw : string) : string := PyStr.strip raw.

(** The loop of [_get_uid_list].  [typed] holds the lines that [input()]
    returns, in order; the result is the list [uids] with the lines that
    were not read.  [None]: the input ends before an empty line
    ([EOFError]). *)
Fixpoint uid_list_loop (uids typed : list string)
  : option (list string * list string) :=
  match typed with
  | [] => None
  | raw :: rest =>
      let line := PyStr.strip raw in
      if negb (PyStr.truthy line) then Some (uids, rest)
      else
        let uid := PyStr.strip (before_bar line) in
        uid_list_loop (if PyStr.truthy uid then uids ++ [uid] else uids) rest
  end.

Definition _get_uid_list (typed : list string)
  : option (list string * list string) :=
  uid_list_loop [] typed.

(** The loop [for i in range(count)] of [_get_uids_numbered], with [n]
    rounds to go. *)
Fixpoint numbered_loop (n : nat) (uids typed : list string)
  : option (list string * list string) :=
  match n with
  | 0 => Some (uids, typed)
  | S n' =>
      match typed with
      | [] => None
      | raw :: rest =>
          let uid := _get_input raw in
          let uid := if PyStr.contains "|" uid then before_bar uid else uid in
          numbered_loop n' (uids ++ [PyStr.strip uid]) rest
      end
  end.

Definition _get_uids_numbered (count : Z) (typed : list string)
  : option (list string * list string) :=
  numbered_loop (Z.to_nat count) [] typed.

(** The decoded answer of the UID service: [data.get('status')] and
    [data.get('data', {}).get('user_id')]. *)
Record uid_data : Type := mk_uid_data {
  ud_status : option string;
  ud_user_id : option string
}.

(** [svc n url]: the answer to the POST for [url] issued after [n] earlier
    ones; [None] when the request or its decoding raises. *)
Definition uid_service : Type := nat -> string -> option uid_data.

Definition facebook_prefix : string := "https://www.facebook.com/".

(** [extract_uid_from_url]: the result and the URLs posted. *)
Definition extract_uid_from_url (svc : uid_service) (n : nat) (url : string)
  : option string * list string :=
  if negb (PyStr.startswith url facebook_prefix) then (None, [])
  else
    match svc n url with
    | Some data =>
        if bool_decide (ud_status data = Some "success") &&
           PyStr.opt_truthy (ud_user_id data)
        then (ud_user_id data, [url])
        else (None, [url])
    | None => (None, [url])
    end.

Record url_result : Type := mk_urls {
  found : list string;
  posted : list string;
  unread : list string
}.

(** The loop [for i in range(count)] of [_get_urls_to_uids], with [n]
    rounds to go. *)
Fixpoint urls_loop (svc : uid_service) (n : nat) (uids posted typed : list string)
  : option url_result :=
  match n with
  | 0 => Some (mk_urls uids posted typed)
  | S n' =>
      match typed with
      | [] => None
      | raw :: rest =>
          let url := _get_input raw in
          if negb (PyStr.startswith url facebook_prefix)
          then urls_loop svc n' uids posted rest
          else
            let r := extract_uid_from_url svc (length posted) url in
            match fst r with
            | Some uid =>
                if PyStr.truthy uid
                then urls_loop svc n' (uids ++ [uid]) (posted ++ snd r) rest
                else urls_loop svc n' uids (posted ++ snd r) rest
            | None => urls_loop svc n' uids (posted ++ snd r) rest
            end
      end
  end.

Definition _get_urls_to_uids (svc : uid_service) (count : Z)
    (typed : list string) : option url_result :=
  urls_loop svc (Z.to_nat count) [] [] typed.

(** An identifier found: not empty, and the user id of a successful answer
    to one of the URLs posted, the [from]-th or a later one. *)
Definition answered (svc : uid_service) (sent : list string) (from : nat)
    (uid : string) : Prop :=
  PyStr.truthy uid = true ∧
  ∃ k url data, from ≤ k ∧ sent !! k = Some url ∧ svc k url = Some data ∧
    ud_status data = Some "success" ∧ ud_user_id data = Some uid.

(** An identifier that is not empty, holds no bar and has no white space
    at either end. *)
Definition clean_id (uid : string) : bool :=
  PyStr.truthy uid && negb (PyStr.contains "|" uid) &&
  String.eqb (PyStr.strip uid) uid.

End Inputs.

(** ** Cookie strings ([parse_cookies]) *)

Module Cookies.

(** [s.split(sep)] for a separator of one character. *)
Fixpoint split_char (sep : ascii) (s : string) : list string :=
  match s with
  | EmptyString => [EmptyString]
  | String c s' =>
      if Ascii.eqb c sep then EmptyString :: split_char sep s'
      else
        match split_char sep s' with
        | p :: ps => String c p :: ps
        | [] => [String c EmptyString]
        end
  end.

(** [s.split(sep, 1)] for [s] that holds [sep]: the text before the first
    [sep] and the text after it. *)
Fixpoint split_once (sep : ascii) (s : string) : string * string :=
  match s with
  | EmptyString => (EmptyString, EmptyString)
  | String c s' =>
      if Ascii.eqb c sep then (EmptyString, s')
      else (String c (fst (split_once sep s')), snd (split_once sep s'))
  end.

(** Body of [for cookie in cookie_str.split(';')]. *)
Definition parse_cookie (cookies : gmap string string) (cookie : string)
  : gmap string string :=
  if PyStr.contains "=" cookie then
    let kv := split_once "=" (PyStr.strip cookie) in
    <[fst kv := snd kv]> cookies
  else cookies.

Definition parse_cookies (cookie_str : string) : gmap string string :=
  foldl parse_cookie ∅ (split_char ";" cookie_str).

(** A cookie string in the usual form: [key=value] pairs separated by a
    semicolon and a space. *)
Fixpoint cookie_text (pairs : list (string * string)) : string :=
  match pairs with
  | [] => EmptyString
  | [kv] => fst kv +:+ "=" +:+ snd kv
  | kv :: rest => fst kv +:+ "=" +:+ snd kv +:+ "; " +:+ cookie_text rest
  end.

(** A key that [parse_cookies] returns as it is: no semicolon, no equals
    sign, no white space in front. *)
Definition plain_key (k : string) : bool :=
  negb (PyStr.contains ";" k) && negb (PyStr.contains "=" k) &&
  String.eqb (PyStr.lstrip k) k.

(** A value that [parse_cookies] returns as it is: no semicolon and no
    white space at the end. *)
Definition plain_value (v : string) : bool :=
  negb (PyStr.contains ";" v) && String.eqb (PyStr.rstrip v) v.

End Cookies.

(** ** The module-level functions of [core.py] that take the credentials *)

Module Compat.

(** [_api._token = token; _api._cookie = cookie]: the fields are written
    directly, not through the property setters. *)
Definition set_fields (token cookie : string) (a : api) : api :=
  mk_api (Some token) (Some cookie) (_config a).

(** The module-level [validate_login]. *)
Definition validate_login_alias (file : Validate.uid_file)
    (probes : Validate.probe_net) (a : api) (token cookie : string)
  : Validate.validation :=
  Validate.validate_login file probes (set_fields token cookie a).

(** The module-level [dump_unlimited]: the object afterwards and the
    result. *)
Definition dump_unlimited_alias (net : network) (a : api) (uids : list string)
    (token cookie : string) (unsep_file : bool)
    (sep_prefixes : option (list string)) : api * Dump.dump_result :=
  let a := set_fields token cookie a in
  (a, Dump.dump_unlimited net a uids unsep_file sep_prefixes).

(** The module-level [dump_simple]. *)
Definition dump_simple_alias (net : network) (a : api) (uids : list string)
    (token cookie : string) : api * (nat * Dump.dump_result) :=
  let a := set_fields token cookie a in
  (a, Dump.dump_simple net a uids).

End Compat.

(** More concrete data: a UID service that knows one profile. *)

Module InputSamples.

Definition svc1 : Inputs.uid_service := fun _ url =>
  if String.eqb url "https://www.facebook.com/ann"
  then Some (Inputs.mk_uid_data (Some "success") (Some "7"))
  else Some (Inputs.mk_uid_data (Some "error") None).

End InputSamples.

(** ** The cutter of the file menu (FILE.py) *)

Module Menus.

(** What the first [open] of the menu finds: no file
    ([FileNotFoundError]), a file that cannot be read (another exception)
    or the lines of the file. *)
Inductive file_read : Type :=
  | FileMissing
  | FileFails
  | FileHolds (lines : list string).

(** How [_menu_cutter] ends: [FILE NOT FOUND] is shown, an exception
    leaves the method, or [cut_or_delete_lines] is called. *)
Inductive cutter_outcome : Type :=
  | CutterNotFound
  | CutterRaises
  | CutterDone (r : FileUtils.cut_result).

(** Whether [Path(typed)] can be opened for writing, [fs] telling it for
    the paths that are not empty: [Path('')] is the current directory. *)
Definition can_write (fs : string -> bool) (typed : string) : bool :=
  negb (String.eqb typed "") && fs typed.

(** [_menu_cutter].  [content] is what the file typed holds and [writable]
    whether it can be written back; [typed_start] and [typed_end] are what
    [int] reads for the two line numbers, [action] the answer to the
    question [DELETE OR CUT?] and [cut_path] the answer to
    [FILE PATH TO SAVE CUT LINES], asked when the action is [cut].  The
    file is read by the menu and again by [cut_or_delete_lines]: both reads
    give the same lines. *)
Definition _menu_cutter (content : file_read) (writable : bool)
    (fs : string -> bool) (typed_start typed_end : option Z)
    (action cut_path : string) : cutter_outcome :=
  match content with
  | FileMissing => CutterNotFound
  | FileFails => CutterRaises
  | FileHolds lines =>
      let start := App._get_int_input typed_start 1 in
      let stop := App._get_int_input typed_end 1 in
      let action := PyStr.lower (Inputs._get_input action) in
      let cut_file :=
        if String.eqb action "cut"
        then Some (can_write fs (Inputs._get_input cut_path))
        else None in
      CutterDone (FileUtils.cut_or_delete_lines (Some lines) start stop
                    cut_file writable)
  end.

End Menus.

(** ** Every operation of [core.py] on the credentials *)

Module CoreOps.

(** Besides the operations of [Session.operation]: the two property
    setters, and the module-level functions that write the fields from
    their arguments. *)
Inductive core_operation : Type :=
  | Listed (op : Session.operation)
  | SetToken (value : string)
  | SetCookie (value : string)
  | ModuleValidateLogin (file : Validate.uid_file) (probes : Validate.probe_net)
      (token cookie : string)
  | ModuleDumpUnlimited (net : network) (uids : list string)
      (token cookie : string) (unsep_file : bool)
      (sep_prefixes : option (list string))
  | ModuleDumpSimple (net : network) (uids : list string)
      (token cookie : string).

Definition core_step (a : api) (op : core_operation) : api :=
  match op with
  | Listed op => Session.step a op
  | SetToken value => set_token value a
  | SetCookie value => set_cookie value a
  | ModuleValidateLogin file probes token cookie =>
      Validate.v_after (Compat.validate_login_alias file probes a token cookie)
  | ModuleDumpUnlimited net uids token cookie unsep_file sep_prefixes =>
      fst (Compat.dump_unlimited_alias net a uids token cookie unsep_file
             sep_prefixes)
  | ModuleDumpSimple net uids token cookie =>
      fst (Compat.dump_simple_alias net a uids token cookie)
  end.

Definition core_run (ops : list core_operation) (a : api) : api :=
  foldl core_step a ops.

End CoreOps.

(** ** What Phase 2 passes over *)

Module SkipSpec.





End SkipSpec.

(** * Properties *)

(** ** Facts about Phase 2: one pass over all friend records *)

Module DumpFacts.
Import Dump DumpSpec.

Lemma part_add_main t item b :
  part t (add_main item b) =
  if decide (t = Main) then add_seen item (part t b) else part t b.
Proof.
  unfold add_main, add_seen.
  destruct t; simpl; destruct (bool_decide _); reflexivity.
Qed.

Lemma part_add_unsep t item b :
  part t (add_unsep item b) =
  if decide (t = Unsep) then add_seen item (part t b) else part t b.
Proof.
  unfold add_unsep, add_seen.
  destruct t; simpl; destruct (bool_decide _); reflexivity.
Qed.

Lemma part_route_friend sep t b fr :
  part t (route_friend sep b fr) =
  match classify sep fr with
  | Some (t', item) => if decide (t = t') then add_seen item (part t b) else part t b
  | None => part t b
  end.
Proof.
  unfold route_friend, classify, route_of.
  destruct (f_id fr) as [fid|]; [|reflexivity].
  destruct (prefixes_given sep); [destruct (any_startswith fid sep)|];
    auto using part_add_main, part_add_unsep.
Qed.

Lemma tracked_add_seen item p : tracked p → tracked (add_seen item p).
Proof.
  intros [Hnd Hiff]. unfold add_seen. case_bool_decide as Hin; [done|].
  split; simpl.
  - apply NoDup_app. split_and!; [done| |apply NoDup_singleton].
    intros x Hx ->%list_elem_of_singleton. apply Hin, Hiff, Hx.
  - intros x. rewrite elem_of_union, elem_of_singleton, elem_of_app,
      list_elem_of_singleton, Hiff. tauto.
Qed.

Lemma elem_of_add_seen item p x :
  tracked p → (x ∈ (add_seen item p).2 ↔ x ∈ p.2 ∨ x = item).
Proof.
  intros [_ Hiff]. unfold add_seen. case_bool_decide as Hin; simpl.
  - split; [auto|]. intros [?| ->]; [done|]. by apply Hiff.
  - rewrite elem_of_app, list_elem_of_singleton. tauto.
Qed.

Lemma one_pass_snoc sep frs fr :
  one_pass sep (frs ++ [fr]) = route_friend sep (one_pass sep frs) fr.
Proof. unfold one_pass. by rewrite foldl_app. Qed.

Lemma one_pass_tracked sep t frs :
  tracked (part t (one_pass sep frs)) ∧
  ∀ x, x ∈ (part t (one_pass sep frs)).2 ↔
       ∃ fr, fr ∈ frs ∧ classify sep fr = Some (t, x).
Proof.
  induction frs as [|fr frs [IHt IHm]] using rev_ind.
  - split; [|intros x; split].
    + destruct t; (split; [constructor|]); intros x; simpl; set_solver.
    + destruct t; simpl; intros H; inversion H.
    + intros (fr & H & _). inversion H.
  - rewrite one_pass_snoc, part_route_friend.
    destruct (classify sep fr) as [[t' item]|] eqn:Hc.
    + destruct (decide (t = t')) as [<-|Hne].
      * split; [by apply tracked_add_seen|]. intros x.
        rewrite elem_of_add_seen, IHm by done. split.
        -- intros [(fr' & Hin & Hc')| ->].
           ++ exists fr'. split; [|done]. apply elem_of_app. by left.
           ++ exists fr. split; [|done]. apply elem_of_app. right.
              by apply list_elem_of_singleton.
        -- intros (fr' & [Hin| ->%list_elem_of_singleton]%elem_of_app & Hc').
           ++ left. by exists fr'.
           ++ right. congruence.
      * split; [done|]. intros x. rewrite IHm. split.
        -- intros (fr' & Hin & Hc'). exists fr'. split; [|done].
           apply elem_of_app. by left.
        -- intros (fr' & [Hin| ->%list_elem_of_singleton]%elem_of_app & Hc').
           ++ by exists fr'.
           ++ congruence.
    + split; [done|]. intros x. rewrite IHm. split.
      * intros (fr' & Hin & Hc'). exists fr'. split; [|done].
        apply elem_of_app. by left.
      * intros (fr' & [Hin| ->%list_elem_of_singleton]%elem_of_app & Hc').
        -- by exists fr'.
        -- congruence.
Qed.

Lemma route_friend_shift sep nm nu b fr :
  route_friend sep (shift nm nu b) fr = shift nm nu (route_friend sep b fr).
Proof.
  unfold route_friend. destruct (f_id fr) as [fid|]; [|done].
  destruct (prefixes_given sep); [destruct (any_startswith fid sep)|];
    unfold add_main, add_unsep, shift; simpl; case_bool_decide; simpl;
    by rewrite ?app_assoc.
Qed.

Lemma foldl_route_shift sep nm nu frs b :
  foldl (route_friend sep) (shift nm nu b) frs =
  shift nm nu (foldl (route_friend sep) b frs).
Proof.
  revert b. induction frs as [|fr frs IH]; intros b; simpl; [done|].
  by rewrite route_friend_shift, IH.
Qed.

Lemma foldl_route_fresh sep b frs :
  foldl (route_friend sep) b frs =
  shift (new_main b) (new_unsep b)
    (foldl (route_friend sep)
       (mk_batch (written_main b) (written_unsep b) [] []) frs).
Proof.
  rewrite <- foldl_route_shift. f_equal.
  destruct b; unfold shift; simpl. by rewrite !app_nil_r.
Qed.

Lemma falsy_body_no_friends body :
  body_truthy body = false → get_friends body = [].
Proof.
  unfold body_truthy, get_friends. destruct (friends_data body); simpl.
  - intros H. destruct (has_error body); simpl in H; discriminate.
  - done.
Qed.

Lemma process_response_state_of sep uf b r :
  process_response sep uf (state_of uf b) r =
  state_of uf (foldl (route_friend sep) b (answer_friends r)).
Proof.
  destruct r as [body|]; simpl; [|done].
  destruct (body_truthy body) eqn:Ht; simpl.
  - rewrite (foldl_route_fresh sep b).
    set (b' := foldl _ (mk_batch _ _ [] []) _).
    unfold state_of, shift; simpl.
    destruct (new_main b') as [|m ms], (new_unsep b') as [|u us], uf; simpl;
      rewrite ?app_nil_r, ?length_app, ?Nat.add_0_r; done.
  - by rewrite falsy_body_no_friends.
Qed.

(** Phase 2 is one pass of [route_friend] over all records of all
    answers, the accepted lines being the two files. *)
Lemma phase2_one_pass sep uf rs :
  phase2 sep uf rs = state_of uf (one_pass sep (records rs)).
Proof.
  unfold phase2, records. induction rs as [|r rs IH] using rev_ind.
  - by destruct uf.
  - rewrite foldl_app, IH, bind_app. simpl. rewrite app_nil_r.
    rewrite process_response_state_of. unfold one_pass. by rewrite foldl_app.
Qed.

Lemma count_occ_NoDup (l : list string) x :
  NoDup l → count_occ string_dec l x = if bool_decide (x ∈ l) then 1 else 0.
Proof.
  intros Hnd. case_bool_decide as Hin.
  - apply NoDup_ListNoDup in Hnd.
    by apply (proj1 (NoDup_count_occ' string_dec l) Hnd), list_elem_of_In.
  - apply count_occ_not_In. by rewrite <- list_elem_of_In.
Qed.

(** What Phase 2 writes: no line twice in a file; the main file holds
    the lines of the records routed to it, the second file (when given)
    those of the other records. *)
Lemma phase2_written sep uf rs :
  let st := phase2 sep uf rs in
  NoDup (out_main st) ∧ NoDup (out_unsep st) ∧
  (∀ x, x ∈ out_main st ↔ produced sep rs Main x) ∧
  (∀ x, x ∈ out_unsep st ↔ uf = true ∧ produced sep rs Unsep x) ∧
  line_count st = length (out_main st) ∧
  line_count_un st = length (out_unsep st).
Proof.
  simpl. rewrite phase2_one_pass. unfold state_of, produced; simpl.
  destruct (one_pass_tracked sep Main (records rs)) as [[HndM _] HM].
  destruct (one_pass_tracked sep Unsep (records rs)) as [[HndU _] HU].
  simpl in *. split_and!; try done.
  - destruct uf; [done|constructor].
  - intros x. destruct uf.
    + rewrite HU. split; [intros H; by split|intros [_ H]; done].
    + split; [intros H; inversion H|intros [? _]; done].
  - by destruct uf.
Qed.

End DumpFacts.

(** ** Facts about Phase 1 and the ordering of the candidates *)

Module CandidateFacts.
Import Dump DumpSpec.

Lemma leb_cases (x y : string) :
  String.leb x y = true ↔ String_as_OT.lt x y ∨ x = y.
Proof.
  unfold String.leb. rewrite <- String_as_OT.cmp_lt, <- String_as_OT.cmp_eq.
  unfold String_as_OT.cmp. destruct (String.compare x y);
    intuition congruence.
Qed.

#[export] Instance str_ge_total : Total str_ge.
Proof. intros x y. unfold str_ge. destruct (String.leb_total x y); auto. Qed.

#[export] Instance str_ge_trans : Transitive str_ge.
Proof.
  intros x y z. unfold str_ge. rewrite !leb_cases.
  intros [Hyx| ->] [Hzy| ->]; auto.
  left. eapply String_as_OT.lt_trans; eauto.
Qed.

#[export] Instance str_ge_antisymm : AntiSymm eq str_ge.
Proof. intros x y Hxy Hyx. by apply String.leb_antisym. Qed.

Lemma str_ge_ne_gt x y : str_ge x y → x ≠ y → str_gt x y.
Proof.
  unfold str_ge, str_gt, String.ltb. rewrite leb_cases.
  intros [Hlt| ->] Hne; [|done].
  apply String_as_OT.cmp_lt in Hlt. unfold String_as_OT.cmp in Hlt.
  by rewrite Hlt.
Qed.

Lemma str_gt_ge x y : str_gt x y → str_ge x y ∧ x ≠ y.
Proof.
  unfold str_ge, str_gt, String.ltb, String.leb.
  destruct (String.compare y x) eqn:Hc; try done. intros _. split; [done|].
  intros ->. assert (String.compare y y = Eq) as Heq
    by (by apply String_as_OT.cmp_eq). congruence.
Qed.

Lemma StronglySorted_strict (l : list string) :
  StronglySorted str_ge l → NoDup l → StronglySorted str_gt l.
Proof.
  induction 1 as [|x l Hl IH Hx]; intros Hnd; constructor.
  - apply IH. by apply NoDup_cons in Hnd as [_ ?].
  - apply NoDup_cons in Hnd as [Hnin _].
    rewrite Forall_forall in Hx |- *. intros y Hy.
    apply str_ge_ne_gt; [by apply Hx|]. intros ->. auto.
Qed.

Lemma StronglySorted_weaken (l : list string) :
  StronglySorted str_gt l → StronglySorted str_ge l ∧ NoDup l.
Proof.
  induction 1 as [|x l Hl [IHs IHn] Hx].
  - split; constructor.
  - rewrite Forall_forall in Hx. split.
    + constructor; [done|]. apply Forall_forall. intros y Hy.
      by apply str_gt_ge, Hx.
    + apply NoDup_cons. split; [|done]. intros Hin.
      by destruct (str_gt_ge _ _ (Hx _ Hin)).
Qed.

(** [sorted(set(l), reverse=True)] holds the members of [l], each once,
    in strictly descending order. *)
Lemma sorted_set_reverse_spec (l : list string) :
  (∀ x, x ∈ sorted_set_reverse l ↔ x ∈ l) ∧
  NoDup (sorted_set_reverse l) ∧
  StronglySorted str_gt (sorted_set_reverse l).
Proof.
  unfold sorted_set_reverse.
  assert (NoDup (merge_sort str_ge (elements (list_to_set l : gset string))))
    as Hnd by (rewrite merge_sort_Permutation; apply NoDup_elements).
  split_and!; [|done|].
  - intros x. by rewrite merge_sort_Permutation, elem_of_elements,
      elem_of_list_to_set.
  - apply StronglySorted_strict; [|done].
    apply StronglySorted_merge_sort; apply _.
Qed.

(** The order in which the set is enumerated does not matter: the result
    is the only strictly descending list with these members. *)
Lemma sorted_set_reverse_unique (l k : list string) :
  (∀ x, x ∈ k ↔ x ∈ l) → StronglySorted str_gt k →
  k = sorted_set_reverse l.
Proof.
  intros Hmem Hk. destruct (sorted_set_reverse_spec l) as (Hm & Hnd & Hs).
  apply StronglySorted_weaken in Hk as [Hk Hndk].
  apply StronglySorted_weaken in Hs as [Hs _].
  apply (StronglySorted_unique str_ge); [done|done|].
  apply NoDup_Permutation; [done|done|]. intros x. by rewrite Hm, Hmem.
Qed.

Lemma truthy_ne (x : string) : PyStr.truthy x = true ↔ x ≠ "".
Proof.
  unfold PyStr.truthy. rewrite negb_true_iff. apply String.eqb_neq.
Qed.

Lemma collect_friends_spec frs acc :
  NoDup acc →
  NoDup (foldl collect_friend acc frs) ∧
  ∀ x, x ∈ foldl collect_friend acc frs ↔
       x ∈ acc ∨ ∃ fr, fr ∈ frs ∧ f_id fr = Some x ∧ x ≠ "".
Proof.
  revert acc. induction frs as [|fr frs IH]; intros acc Hnd; simpl.
  - split; [done|]. intros x. split; [auto|].
    intros [?|(fr & H & _)]; [done|inversion H].
  - assert (NoDup (collect_friend acc fr) ∧
            ∀ x, x ∈ collect_friend acc fr ↔
                 x ∈ acc ∨ (f_id fr = Some x ∧ x ≠ "")) as [Hnd' Hstep].
    { unfold collect_friend. destruct (f_id fr) as [fid|]; [|split; [done|]].
      - destruct (PyStr.truthy fid) eqn:Ht; simpl.
        + apply truthy_ne in Ht. case_bool_decide as Hin; simpl.
          * split; [done|]. intros x. split; [auto|].
            intros [?|[[= ->] _]]; done.
          * split.
            -- apply NoDup_app. split_and!; [done| |apply NoDup_singleton].
               intros x Hx ->%list_elem_of_singleton. done.
            -- intros x. rewrite elem_of_app, list_elem_of_singleton.
               split; [intros [?| ->]; auto|].
               intros [?|[[= ->] _]]; auto.
        + split; [done|]. intros x. split; [auto|].
          intros [?|[[= ->] Hne]]; [done|].
          apply truthy_ne in Hne. congruence.
      - intros x. split; [auto|]. intros [?|[? _]]; done. }
    destruct (IH _ Hnd') as [Hnd'' Hmem]. split; [done|].
    intros x. rewrite Hmem, Hstep. split.
    + intros [[?|[? ?]]|(fr' & ? & ? & ?)]; auto.
      * right. exists fr. split_and!; [left|done|done].
      * right. exists fr'. split_and!; [by right|done|done].
    + intros [?|(fr' & Hin & ? & ?)]; auto.
      apply elem_of_cons in Hin as [->|?]; auto.
      right. by exists fr'.
Qed.

(** The candidate list of Phase 1: every offered identifier, once. *)
Lemma phase1_spec (responses : list (option fetch_body)) :
  NoDup (phase1 responses) ∧ ∀ x, x ∈ phase1 responses ↔ offers responses x.
Proof.
  unfold phase1.
  cut (∀ acc, NoDup acc →
         NoDup (foldl collect_response acc responses) ∧
         ∀ x, x ∈ foldl collect_response acc responses ↔
              x ∈ acc ∨ offers responses x).
  { intros H. destruct (H [] (NoDup_nil_2)) as [Hnd Hm]. split; [done|].
    intros x. rewrite Hm. split; [intros [H'|?]; [inversion H'|done]|auto]. }
  induction responses as [|r rs IH]; intros acc Hnd; simpl.
  - split; [done|]. intros x. split; [auto|].
    intros [?|(b & fr & H & _)]; [done|inversion H].
  - assert (NoDup (collect_response acc r) ∧
            ∀ x, x ∈ collect_response acc r ↔ x ∈ acc ∨ offers [r] x)
      as [Hnd' Hstep].
    { unfold collect_response, offers. destruct r as [b|].
      - destruct (body_truthy b) eqn:Ht; simpl.
        + destruct (has_error b) eqn:He; simpl.
          * split; [done|]. intros x. split; [auto|].
            intros [?|(b' & fr & Hb%list_elem_of_singleton & ? & _)];
              [done|]. simplify_eq. congruence.
          * destruct (collect_friends_spec (get_friends b) acc Hnd)
              as [? Hm]. split; [done|]. intros x. rewrite Hm. split.
            -- intros [?|(fr & ? & ? & ?)]; auto. right.
               exists b, fr. split_and!; try done. by left.
            -- intros [?|(b' & fr & Hb%list_elem_of_singleton & ? & ? & ? & ?)];
                 auto. simplify_eq. right. by exists fr.
        + split; [done|]. intros x. split; [auto|].
          intros [?|(b' & fr & Hb%list_elem_of_singleton & ? & Hin & _)];
            [done|]. simplify_eq.
          rewrite DumpFacts.falsy_body_no_friends in Hin by done.
          inversion Hin.
      - split; [done|]. intros x. split; [auto|].
        intros [?|(b' & fr & Hb%list_elem_of_singleton & _)]; done. }
    destruct (IH _ Hnd') as [Hnd'' Hm]. split; [done|]. intros x.
    rewrite Hm, Hstep. unfold offers. split.
    + intros [[?|(b & fr & Hb%list_elem_of_singleton & ?)]|(b & fr & ? & ?)];
        auto; right; exists b, fr; split; try done.
      * subst. by left.
      * by right.
    + intros [?|(b & fr & Hb & ?)]; auto.
      apply elem_of_cons in Hb as [<-|?].
      * left. right. exists b, fr. split; [by left|done].
      * right. by exists b, fr.
Qed.

End CandidateFacts.


(** ** The dump engine: what a call writes, fetches and returns *)

Module DumpClaims.
Import Dump DumpSpec DumpFacts CandidateFacts.

(** The files and counters of a call are those of Phase 2 run on
    [phase2_answers]. *)
Lemma dump_friends_phase2 net a uids uf sep recursive :
  let r := dump_friends net a uids uf sep recursive in
  let st := phase2 sep uf (phase2_answers net a uids recursive) in
  returned r = (line_count st, line_count_un st) ∧
  main_lines r = out_main st ∧ unsep_lines r = out_unsep st.
Proof.
  unfold dump_friends, phase2_answers.
  destruct (is_logged_in a); simpl; [|done].
  destruct (nonempty (phase1 (gather net 0 uids))); simpl; done.
Qed.

Lemma dump_friends_written net a uids uf sep recursive :
  let r := dump_friends net a uids uf sep recursive in
  let rs := phase2_answers net a uids recursive in
  NoDup (main_lines r) ∧ NoDup (unsep_lines r) ∧
  (∀ x, x ∈ main_lines r ↔ produced sep rs Main x) ∧
  (∀ x, x ∈ unsep_lines r ↔ uf = true ∧ produced sep rs Unsep x) ∧
  returned r = (length (main_lines r), length (unsep_lines r)).
Proof.
  simpl.
  destruct (dump_friends_phase2 net a uids uf sep recursive) as (Hr & Hm & Hu).
  destruct (phase2_written sep uf (phase2_answers net a uids recursive))
    as (? & ? & ? & ? & Hc & Hcu).
  rewrite Hr, Hm, Hu, Hc, Hcu. done.
Qed.

Lemma route_of_no_prefixes sep fid :
  prefixes_given sep = false → route_of sep fid = Main.
Proof. unfold route_of. by intros ->. Qed.

Lemma produced_no_prefixes sep rs t x :
  prefixes_given sep = false → produced sep rs t x → t = Main.
Proof.
  intros Hp (fr & _ & Hc). unfold classify in Hc.
  destruct (f_id fr); [|done]. rewrite route_of_no_prefixes in Hc by done.
  congruence.
Qed.

Lemma count_occ_app_str (l k : list string) x :
  count_occ string_dec (l ++ k) x =
  count_occ string_dec l x + count_occ string_dec k x.
Proof. apply count_occ_app. Qed.

Lemma any_startswith_true fid sep :
  any_startswith fid sep = true ↔
  ∃ p, p ∈ default [] sep ∧ PyStr.startswith fid p = true.
Proof.
  unfold any_startswith. rewrite existsb_exists.
  split; intros (p & Hin & Hp); exists p; split; try done;
    by apply list_elem_of_In.
Qed.

Lemma any_startswith_false fid sep :
  any_startswith fid sep = false ↔
  ∀ p, p ∈ default [] sep → PyStr.startswith fid p = false.
Proof.
  split.
  - intros Hf p Hin. destruct (PyStr.startswith fid p) eqn:Hp; [|done].
    assert (any_startswith fid sep = true) as Ht
      by (apply any_startswith_true; eauto).
    congruence.
  - intros Hall. destruct (any_startswith fid sep) eqn:Ha; [|done].
    apply any_startswith_true in Ha as (p & Hin & Hp).
    rewrite Hall in Hp by done. done.
Qed.

(** C3.  With prefixes, a line of the main file is the line of a record of
    the answers whose id starts with one of the prefixes, and a line of the
    second file is the line of a record whose id starts with none of them.
    Without prefixes nothing goes to the second file and every line that
    occurs in the answers is in the main file. *)
Theorem dump_friends_prefix_routing net a uids uf sep recursive x :
  let r := dump_friends net a uids uf sep recursive in
  let rs := phase2_answers net a uids recursive in
  (prefixes_given sep = true →
   (x ∈ main_lines r →
    ∃ fr fid, fr ∈ records rs ∧ f_id fr = Some fid ∧
      x = item_of fid (default "Unknown" (f_name fr)) ∧
      ∃ p, p ∈ default [] sep ∧ PyStr.startswith fid p = true) ∧
   (x ∈ unsep_lines r →
    ∃ fr fid, fr ∈ records rs ∧ f_id fr = Some fid ∧
      x = item_of fid (default "Unknown" (f_name fr)) ∧
      ∀ p, p ∈ default [] sep → PyStr.startswith fid p = false)) ∧
  (prefixes_given sep = false →
   (x ∉ unsep_lines r) ∧ (occurs sep rs x → x ∈ main_lines r)).
Proof.
  simpl.
  destruct (dump_friends_written net a uids uf sep recursive)
    as (_ & _ & HM & HU & _).
  split.
  - intros Hp. split.
    + intros (fr & Hin & Hc)%HM. unfold classify, route_of in Hc.
      destruct (f_id fr) as [fid|] eqn:Hid; [|done]. rewrite Hp in Hc.
      destruct (any_startswith fid sep) eqn:Ha; [|done].
      exists fr, fid. split_and!; try done; [congruence|].
      by apply any_startswith_true.
    + intros (_ & fr & Hin & Hc)%HU. unfold classify, route_of in Hc.
      destruct (f_id fr) as [fid|] eqn:Hid; [|done]. rewrite Hp in Hc.
      destruct (any_startswith fid sep) eqn:Ha; [done|].
      exists fr, fid. split_and!; try done; [congruence|].
      by apply any_startswith_false.
  - intros Hp. split.
    + intros (_ & Hu)%HU. by pose proof (produced_no_prefixes _ _ _ _ Hp Hu).
    + intros [t Ht]. pose proof (produced_no_prefixes _ _ _ _ Hp Ht) as ->.
      by apply HM.
Qed.

(** The line [100055|Cy] of the main file comes from an id that starts
    with the prefix [1000]. *)
Lemma dump_friends_prefix_routing_witness :
  ∃ fid name, "100055|Cy" = item_of fid name ∧
    PyStr.startswith fid "1000" = true.
Proof.
  destruct (proj1 (proj1 (dump_friends_prefix_routing Scenario.net2
              Scenario.alice Scenario.seeds2 true (Some ["1000"]) false
              "100055|Cy") eq_refl))
    as (fr & fid & _ & _ & Hx & p & Hp & Hs).
  - vm_compute. constructor.
  - apply list_elem_of_singleton in Hp as ->. eauto.
Defined.

Lemma nonempty_false {A} (l : list A) : nonempty l = false ↔ l = [].
Proof. destruct l; simpl; split; congruence. Qed.

(** C2 (as amended).  In a logged-in call Phase 1 always runs: every seed is
    fetched once, whatever [recursive] is.  The candidates, sorted, are the
    offered identifiers, each once, in strictly descending order, and no
    other list has these three properties.  Without a candidate the call
    stops there with (0, 0).  Otherwise Phase 2 fetches the sorted
    candidates when [recursive] is set and the seeds, unchanged and so a
    second time, when it is not; the files hold what Phase 2 accepted from
    its own answers, and the returned counts are the numbers of lines
    written. *)
Theorem dump_friends_targets net a uids uf sep recursive :
  is_logged_in a = true →
  let r := dump_friends net a uids uf sep recursive in
  let found := phase1 (gather net 0 uids) in
  let candidates := sorted_set_reverse found in
  ((∀ x, x ∈ candidates ↔ offers (gather net 0 uids) x) ∧
   NoDup candidates ∧ StronglySorted str_gt candidates ∧
   (∀ k, (∀ x, x ∈ k ↔ offers (gather net 0 uids) x) →
         StronglySorted str_gt k → k = candidates)) ∧
  (found = [] →
   issued r = requests_for a uids ∧ returned r = (0, 0) ∧
   main_lines r = [] ∧ unsep_lines r = []) ∧
  (found ≠ [] →
   let targets := if recursive then candidates else uids in
   let answers := gather net (length uids) targets in
   issued r = requests_for a uids ++ requests_for a targets ∧
   main_lines r = out_main (phase2 sep uf answers) ∧
   unsep_lines r = out_unsep (phase2 sep uf answers) ∧
   returned r = (length (main_lines r), length (unsep_lines r)) ∧
   (∀ x, x ∈ main_lines r ++ unsep_lines r → occurs sep answers x)).
Proof.
  intros Hlog. simpl.
  destruct (phase1_spec (gather net 0 uids)) as [_ Hoff].
  destruct (sorted_set_reverse_spec (phase1 (gather net 0 uids)))
    as (Hmem & Hnd & Hsort).
  split_and!.
  - intros x. by rewrite Hmem.
  - done.
  - done.
  - intros k Hk Hs. apply sorted_set_reverse_unique; [|done].
    intros x. by rewrite Hk, Hoff.
  - intros Hnil. unfold dump_friends. rewrite Hlog, Hnil. done.
  - intros Hne.
    assert (nonempty (phase1 (gather net 0 uids)) = true) as Hn.
    { destruct (nonempty _) eqn:E; [done|]. by apply nonempty_false in E. }
    pose proof (dump_friends_written net a uids uf sep recursive) as Hw.
    simpl in Hw. destruct Hw as (_ & _ & HM & HU & Hret).
    assert (phase2_answers net a uids recursive =
            gather net (length uids)
              (if recursive then sorted_set_reverse (phase1 (gather net 0 uids))
               else uids)) as Hans.
    { unfold phase2_answers, target_uids. by rewrite Hlog, Hn. }
    rewrite Hans in HM, HU.
    unfold dump_friends, target_uids in *. rewrite Hlog, Hn in *. simpl in *.
    split_and!; try done.
    intros x [Hx|Hx]%elem_of_app.
    + exists Main. by apply HM.
    + exists Unsep. by apply HU.
Qed.

(** The recursive scenario of the specification: the seed is fetched, then
    its friend [7], and [9|Bo] is the line written. *)
Lemma dump_friends_targets_witness :
  is_logged_in Scenario.alice = true ∧
  issued (dump_friends Scenario.net1 Scenario.alice ["100012345"] false None true) =
    [ReqFriends "100012345" "EAAB-token" "sb=x;c_user=1";
     ReqFriends "7" "EAAB-token" "sb=x;c_user=1"] ∧
  main_lines (dump_friends Scenario.net1 Scenario.alice ["100012345"] false None true) =
    ["9|Bo"].
Proof.
  split; [reflexivity|].
  destruct (proj2 (proj2 (dump_friends_targets Scenario.net1 Scenario.alice
              ["100012345"] false None true eq_refl)))
    as (Hi & Hm & _).
  - vm_compute. discriminate.
  - split; [rewrite Hi|rewrite Hm]; vm_compute; reflexivity.
Defined.

(** C2 as stated fails for [recursive=False]: Phase 1 runs all the same, so
    the seed is fetched twice. *)
Lemma simple_mode_counterexample :
  ¬ (∀ net a uids uf sep,
       is_logged_in a = true →
       issued (dump_friends net a uids uf sep false) = requests_for a uids).
Proof.
  intros H.
  specialize (H Scenario.net1 Scenario.alice ["100012345"] false None eq_refl).
  vm_compute in H. discriminate.
Qed.

(** The two scenarios of the specification. *)
Example scenario_simple :
  let r := dump_friends Scenario.net1 Scenario.alice ["100012345"] false None false in
  main_lines r = ["7|Ann"] ∧ returned r = (1, 0).
Proof. vm_compute. done. Qed.

Example scenario_recursive :
  let r := dump_friends Scenario.net1 Scenario.alice ["100012345"] false None true in
  main_lines r = ["9|Bo"] ∧ returned r = (1, 0).
Proof. vm_compute. done. Qed.

(** C4.  A call with no seed, and a call made while logged out, returns
    (0, 0), issues no request and writes nothing; so do the two wrappers
    ([dump_simple] returns the first count, 0). *)
Theorem dump_friends_short_circuit net a uids uf sep recursive :
  uids = [] ∨ is_logged_in a = false →
  let r := dump_friends net a uids uf sep recursive in
  (returned r = (0, 0) ∧ issued r = [] ∧
   main_lines r = [] ∧ unsep_lines r = []) ∧
  (fst (dump_simple net a uids) = 0 ∧
   issued (snd (dump_simple net a uids)) = []) ∧
  (returned (dump_unlimited net a uids uf sep) = (0, 0) ∧
   issued (dump_unlimited net a uids uf sep) = []).
Proof.
  intros H. unfold dump_simple, dump_unlimited, dump_friends; simpl.
  destruct H as [-> | ->]; simpl; [|done].
  destruct (is_logged_in a); simpl; done.
Qed.

(** A call without seeds and a call after a logout. *)
Lemma dump_friends_short_circuit_witness :
  issued (dump_friends Scenario.net1 Scenario.alice [] true (Some ["1000"]) true) = [] ∧
  returned (dump_friends Scenario.net1 (logout Scenario.alice) ["100012345"]
              false None false) = (0, 0).
Proof.
  split.
  - exact (proj1 (proj2 (proj1 (dump_friends_short_circuit Scenario.net1
             Scenario.alice [] true (Some ["1000"]) true (or_introl eq_refl))))).
  - exact (proj1 (proj1 (dump_friends_short_circuit Scenario.net1
             (logout Scenario.alice) ["100012345"] false None false
             (or_intror eq_refl)))).
Defined.







Example scenario_skips :
  let r := dump_friends Scenario.net2 Scenario.alice Scenario.seeds2 true
             (Some ["1000"]) false in
  main_lines r = ["100055|Cy"] ∧ unsep_lines r = ["7|Ann"; "42|Unknown"] ∧
  returned r = (1, 2).
Proof. vm_compute. done. Qed.

End DumpClaims.

(** ** The logins *)

Module AuthClaims.
Import Auth AuthSpec.

Lemma usable_truthy o t : usable o = Some t → o = Some t ∧ PyStr.truthy t = true.
Proof.
  unfold usable. destruct o as [t'|]; [|done].
  destruct (PyStr.truthy t') eqn:Ht; [|done]. by intros [= <-].
Qed.

Lemma usable_none_not_logged o : usable o = None → PyStr.opt_truthy o = false.
Proof.
  unfold usable, PyStr.opt_truthy. destruct o as [t|]; [|done].
  by destruct (PyStr.truthy t).
Qed.

Lemma replicate_snoc_cons {A} k (x : A) rest :
  replicate k x ++ x :: rest = x :: replicate k x ++ rest.
Proof. induction k as [|k IH]; simpl; [done|by rewrite IH]. Qed.

(** While the answers are transient the loop only counts and asks again. *)
Lemma login_loop_retries rm uid password a k :
  ∀ remaining retry_count log,
    k ≤ remaining →
    (∀ n, n < k → transient (login_api rm (retry_count + n) uid password) = true) →
    login_loop rm uid password a remaining retry_count log =
    login_loop rm uid password a (remaining - k) (retry_count + k)
      (log ++ replicate k (ReqLogin uid password)).
Proof.
  induction k as [|k IH]; intros remaining retry_count log Hle Htr.
  - by rewrite Nat.sub_0_r, Nat.add_0_r, app_nil_r.
  - destruct remaining as [|remaining]; [lia|].
    assert (transient (login_api rm retry_count uid password) = true) as H0.
    { specialize (Htr 0). rewrite Nat.add_0_r in Htr. apply Htr. lia. }
    assert (login_loop rm uid password a (S remaining) retry_count log =
            login_loop rm uid password a remaining (S retry_count)
              (log ++ [ReqLogin uid password])) as ->.
    { simpl. destruct (login_api rm retry_count uid password); simpl in H0;
        [done|done|by rewrite H0]. }
    rewrite IH.
    + simpl. rewrite <- app_assoc. simpl. f_equal. lia.
    + lia.
    + intros n Hn. replace (S retry_count + n) with (retry_count + S n) by lia.
      apply Htr. lia.
Qed.

(** The iteration that meets an answer which is not transient. *)
Lemma login_loop_settles rm uid password a remaining retry_count log :
  transient (login_api rm retry_count uid password) = false →
  let o := login_loop rm uid password a (S remaining) retry_count log in
  ∃ rest, sent o = log ++ ReqLogin uid password :: rest ∧
          forallb (fun r => negb (is_login r)) rest = true.
Proof.
  intros Htr. simpl.
  destruct (login_api rm retry_count uid password) as [|e|text js];
    simpl in Htr; [done| |].
  - exists []. simpl. done.
  - rewrite Htr. destruct js as [e|data].
    + exists []. done.
    + destruct (login_success data).
      * destruct (usable (_extract_token_from_cookie _ _)).
        -- eexists [_]. simpl. by rewrite <- app_assoc.
        -- destruct (usable (_extract_token_from_api _ _));
             eexists [_; _]; simpl; by rewrite <- app_assoc.
      * exists []. done.
Qed.

(** C5.  The ceiling is 10.  When every answer is transient (a timeout, or
    a body holding the proxy error text) the call issues exactly 10 login
    requests, all the same, leaves the object unchanged and returns
    [MAX_RETRIES_EXCEEDED].  When the first answer that is not transient
    is answer [k], the call issues [k + 1] login requests, all the same,
    and no login request after them.  A first answer that rejects the
    credentials ends the call after its single request. *)
Theorem login_retry_ceiling rm a uid password :
  let o := login_with_credentials rm a uid password in
  MAX_API_RETRIES = 10 ∧
  ((∀ n, n < MAX_API_RETRIES →
         transient (login_api rm n uid password) = true) →
   o = mk_outcome a (replicate 10 (ReqLogin uid password))
         (false, "MAX_RETRIES_EXCEEDED")) ∧
  (∀ k, k < MAX_API_RETRIES →
        (∀ n, n < k → transient (login_api rm n uid password) = true) →
        transient (login_api rm k uid password) = false →
        ∃ rest, sent o = replicate (S k) (ReqLogin uid password) ++ rest ∧
                forallb (fun r => negb (is_login r)) rest = true) ∧
  (∀ text data,
     login_api rm 0 uid password = LoginBody text (JsonData data) →
     PyStr.contains proxy_error text = false →
     login_success data = false →
     o = mk_outcome a [ReqLogin uid password] (false, failure_status data)).
Proof.
  simpl. unfold login_with_credentials. split_and!.
  - reflexivity.
  - intros Htr.
    rewrite (login_loop_retries rm uid password a MAX_API_RETRIES); [|done|done].
    by rewrite Nat.sub_diag.
  - intros k Hk Htr Hstop.
    rewrite (login_loop_retries rm uid password a k); [|lia|done].
    destruct (MAX_API_RETRIES - k) as [|m] eqn:Hm; [lia|].
    destruct (login_loop_settles rm uid password a m (0 + k)
                ([] ++ replicate k (ReqLogin uid password)) Hstop)
      as (rest & Hs & Hr).
    exists rest. split; [|done]. rewrite Hs. simpl.
    apply replicate_snoc_cons.
  - intros text data H0 Hp Hs. simpl. by rewrite H0, Hp, Hs.
Qed.

(** A login API that always times out, and one that rejects the password
    after two proxy errors. *)
Lemma login_retry_ceiling_witness :
  login_with_credentials Scenario.rm_timeout Scenario.alice "u" "p" =
    mk_outcome Scenario.alice (replicate 10 (ReqLogin "u" "p"))
      (false, "MAX_RETRIES_EXCEEDED") ∧
  ∃ rest, sent (login_with_credentials Scenario.rm_rejects Scenario.alice "u" "p") =
            replicate 3 (ReqLogin "u" "p") ++ rest.
Proof.
  split.
  - apply (proj1 (proj2 (login_retry_ceiling Scenario.rm_timeout
                           Scenario.alice "u" "p"))).
    intros n _. reflexivity.
  - destruct (proj1 (proj2 (proj2 (login_retry_ceiling Scenario.rm_rejects
                 Scenario.alice "u" "p"))) 2) as (rest & Hs & _).
    + unfold MAX_API_RETRIES. lia.
    + intros n Hn. destruct n as [|[|n]]; [reflexivity|reflexivity|lia].
    + reflexivity.
    + exists rest. exact Hs.
Defined.

(** C8.  The first answer that is not transient, when it decodes and is no
    success, ends the call as a failure that leaves the object unchanged,
    with a status read from the lower-cased message: [CHECKPOINT] when it
    holds [checkpoint] or [two-factor]; if not, [INVALID_CREDENTIALS] when
    it holds [invalid], [incorrect] or [wrong]; if not, the message as the
    remote side wrote it ([LOGIN_FAILED] when the answer has none). *)
Theorem login_failure_status rm a uid password k text data :
  k < MAX_API_RETRIES →
  (∀ n, n < k → transient (login_api rm n uid password) = true) →
  login_api rm k uid password = LoginBody text (JsonData data) →
  PyStr.contains proxy_error text = false →
  login_success data = false →
  let o := login_with_credentials rm a uid password in
  let has := fun word =>
    PyStr.contains word (PyStr.lower (default "" (ld_message data))) in
  fst (result o) = false ∧ after o = a ∧
  (has "checkpoint" = true ∨ has "two-factor" = true →
   snd (result o) = "CHECKPOINT") ∧
  (has "checkpoint" = false → has "two-factor" = false →
   has "invalid" = true ∨ has "incorrect" = true ∨ has "wrong" = true →
   snd (result o) = "INVALID_CREDENTIALS") ∧
  (has "checkpoint" = false → has "two-factor" = false →
   has "invalid" = false → has "incorrect" = false → has "wrong" = false →
   snd (result o) = default "LOGIN_FAILED" (ld_message data)).
Proof.
  intros Hk Htr Hans Hp Hs. simpl. unfold login_with_credentials.
  rewrite (login_loop_retries rm uid password a k); [|lia|done].
  destruct (MAX_API_RETRIES - k) as [|m] eqn:Hm; [lia|].
  simpl. rewrite Hans, Hp, Hs. simpl. unfold failure_status.
  split_and!; try done.
  - intros [-> | ->]; simpl; [done|]. by rewrite orb_true_r.
  - intros -> -> [-> | [-> | ->]]; simpl; by rewrite ?orb_true_r.
  - by intros -> -> -> -> ->.
Qed.

(** The rejection met after two retries is classified by its message,
    whatever the case of its letters. *)
Lemma login_failure_status_witness :
  result (login_with_credentials Scenario.rm_rejects Scenario.alice "u" "p") =
    (false, "INVALID_CREDENTIALS").
Proof.
  destruct (login_failure_status Scenario.rm_rejects Scenario.alice "u" "p" 2
              "{status: error}"
              (mk_login_data (Some "error") None
                 (Some "Incorrect username or PASSWORD")))
    as (Hf & _ & _ & Hi & _).
  - unfold MAX_API_RETRIES. lia.
  - intros n Hn. destruct n as [|[|n]]; [reflexivity|reflexivity|lia].
  - reflexivity.
  - reflexivity.
  - reflexivity.
  - apply injective_projections; [exact Hf|].
    apply Hi; [reflexivity|reflexivity|]. right. left. reflexivity.
Defined.

Lemma has_sb_cons c rest :
  has_sb (String c rest) =
  (String.prefix "sb=" (String c rest) &&
   match String.get 3 (String c rest) with
   | Some c' => negb (Ascii.eqb c' ";")
   | None => false
   end) || has_sb rest.
Proof. reflexivity. Qed.

Lemma contains_cons sub c rest :
  PyStr.contains sub (String c rest) =
  String.prefix sub (String c rest) || PyStr.contains sub rest.
Proof. reflexivity. Qed.

(** A cookie that does not hold the text [sb=] has no [sb] field. *)
Lemma no_sb_text cookie :
  PyStr.contains "sb=" cookie = false → has_sb cookie = false.
Proof.
  induction cookie as [|c rest IH]; [done|].
  rewrite contains_cons, has_sb_cons.
  intros [Hp Hr]%orb_false_elim. by rewrite Hp, IH.
Qed.

Lemma token_at_truthy s t : token_at s = Some t → PyStr.truthy t = true.
Proof.
  unfold token_at. destruct (String.prefix token_open s); [|done].
  destruct (until_quote _) as [tok|]; [|done].
  destruct (PyStr.truthy tok) eqn:Ht; [|done]. by intros [= <-].
Qed.

Lemma search_token_truthy s t : search_token s = Some t → PyStr.truthy t = true.
Proof.
  induction s as [|c s IH].
  - intros H. vm_compute in H. discriminate.
  - change (search_token (String c s)) with
      (match token_at (String c s) with
       | Some tok => Some tok
       | None => search_token s
       end).
    destruct (token_at (String c s)) eqn:E; [|done].
    intros [= <-]. eapply token_at_truthy, E.
Qed.

(** What either extraction returns passes the test [if token:]. *)
Lemma usable_extract_cookie rm cookie :
  usable (_extract_token_from_cookie rm cookie) =
  _extract_token_from_cookie rm cookie.
Proof.
  unfold usable. destruct (_extract_token_from_cookie rm cookie) as [t|] eqn:E;
    [|done].
  unfold _extract_token_from_cookie in E.
  destruct (oauth_status rm cookie) as [h|]; [|done].
  destruct (PyStr.contains token_key h); [|done].
  by rewrite (search_token_truthy _ _ E).
Qed.

Lemma usable_extract_api rm cookie :
  usable (_extract_token_from_api rm cookie) = _extract_token_from_api rm cookie.
Proof.
  unfold usable. destruct (_extract_token_from_api rm cookie) as [t|] eqn:E;
    [|done].
  unfold _extract_token_from_api in E.
  destruct (token_api rm cookie) as [d|]; [|done].
  destruct (bool_decide _); simpl in E; [|done].
  destruct (PyStr.opt_truthy (td_access_token d)) eqn:Ht; [|done].
  rewrite E in Ht. simpl in Ht. by rewrite Ht.
Qed.

(** C7.  A cookie without an [sb] field (in particular one that does not
    hold the text [sb=]) is used with the constant put before it, any other
    cookie as it is.  The first request is the OAuth probe and carries the
    cookie used.  When the probe yields a token the call stores the cookie
    used and that token and sends nothing else; when it yields none the
    token API is asked with the same cookie, and its token is stored with
    the cookie used; when both yield none the call returns [TOKEN_FAILED]
    and the object is unchanged.  After a success the object and the
    session store hold the cookie used and a non-empty token. *)
Theorem login_with_cookie_spec rm a cookie :
  let used := ensure_sb cookie in
  let o := login_with_cookie rm a cookie in
  let primary := _extract_token_from_cookie rm used in
  let secondary := _extract_token_from_api rm used in
  (has_sb cookie = false → used = "sb=By.ShajoN-404.OfficiaL;" +:+ cookie) ∧
  (PyStr.contains "sb=" cookie = false → has_sb cookie = false) ∧
  (has_sb cookie = true → used = cookie) ∧
  (∃ rest, sent o = ReqOAuth used :: rest) ∧
  (∀ t, primary = Some t →
        o = mk_outcome (store used t a) [ReqOAuth used] (true, "SUCCESS")) ∧
  (∀ t, primary = None → secondary = Some t →
        o = mk_outcome (store used t a) [ReqOAuth used; ReqTokenApi used]
              (true, "SUCCESS")) ∧
  (primary = None → secondary = None →
   o = mk_outcome a [ReqOAuth used; ReqTokenApi used] (false, "TOKEN_FAILED")) ∧
  (fst (result o) = true →
   _cookie (after o) = Some used ∧ sess_cookie (_config (after o)) = Some used ∧
   ∃ t, _token (after o) = Some t ∧ sess_token (_config (after o)) = Some t ∧
        t ≠ "").
Proof.
  simpl. unfold login_with_cookie.
  rewrite usable_extract_cookie, usable_extract_api.
  split_and!.
  - unfold ensure_sb. by intros ->.
  - apply no_sb_text.
  - unfold ensure_sb. by intros ->.
  - destruct (_extract_token_from_cookie rm (ensure_sb cookie));
      [|destruct (_extract_token_from_api rm (ensure_sb cookie))]; eauto.
  - by intros t ->.
  - by intros t -> ->.
  - by intros -> ->.
  - destruct (_extract_token_from_cookie rm (ensure_sb cookie)) as [t|] eqn:E1.
    + intros _. simpl. split_and!; try done. exists t. split_and!; try done.
      rewrite <- usable_extract_cookie in E1.
      apply usable_truthy in E1 as [_ Ht]. intros ->. done.
    + destruct (_extract_token_from_api rm (ensure_sb cookie)) as [t|] eqn:E2;
        [|done].
      intros _. simpl. split_and!; try done. exists t. split_and!; try done.
      rewrite <- usable_extract_api in E2.
      apply usable_truthy in E2 as [_ Ht]. intros ->. done.
Qed.

(** A cookie without [sb] field, the OAuth probe failing and the token
    API answering. *)
Lemma login_with_cookie_spec_witness :
  login_with_cookie Scenario.rm_fallback Scenario.alice "c_user=1; xs=abc" =
    mk_outcome
      (store "sb=By.ShajoN-404.OfficiaL;c_user=1; xs=abc" "EAAB-second"
         Scenario.alice)
      [ReqOAuth "sb=By.ShajoN-404.OfficiaL;c_user=1; xs=abc";
       ReqTokenApi "sb=By.ShajoN-404.OfficiaL;c_user=1; xs=abc"]
      (true, "SUCCESS").
Proof.
  exact (proj1 (proj2 (proj2 (proj2 (proj2 (proj2
           (login_with_cookie_spec Scenario.rm_fallback Scenario.alice
              "c_user=1; xs=abc"))))))
           "EAAB-second" eq_refl eq_refl).
Defined.

Example login_with_cookie_oauth :
  login_with_cookie Scenario.rm_oauth Session.fresh "sb=abc;c_user=1" =
    mk_outcome (store "sb=abc;c_user=1" "EAAB-fresh" Session.fresh)
      [ReqOAuth "sb=abc;c_user=1"] (true, "SUCCESS").
Proof. vm_compute. reflexivity. Qed.

End AuthClaims.

(** ** The validation of a login *)

Module ValidateClaims.
Import Validate ValidateSpec.

Lemma probe_ids_cons uid rest :
  probe_ids (uid :: rest) =
  if PyStr.truthy (PyStr.strip uid) then PyStr.strip uid :: probe_ids rest
  else probe_ids rest.
Proof. reflexivity. Qed.

(** One turn of the loop, by the verdict on the answer. *)
Lemma probe_loop_cons probes a uid rest n blocked log :
  probe_loop probes a (uid :: rest) n blocked log =
  let uid' := PyStr.strip uid in
  if PyStr.truthy uid' then
    let log' := log ++ probe_requests a [uid'] in
    match verdict_of (probes n uid') with
    | Blocked => probe_loop probes a rest (S n) true log'
    | Harvest friend_ids =>
        mk_validation (with_login_check friend_ids a) log' (true, friend_ids)
          blocked
    | Passed => probe_loop probes a rest (S n) blocked log'
    end
  else probe_loop probes a rest n blocked log.
Proof.
  simpl. destruct (PyStr.truthy (PyStr.strip uid)); simpl; [|done].
  unfold verdict_of. destruct (probes n (PyStr.strip uid)) as [ans|]; [|done].
  destruct (has_error_word (pa_repr ans)); [done|].
  destruct (get_friends (pa_body ans)) as [|fr frs]; [done|].
  cbn [Dump.nonempty]. destruct (friend_ids_of (fr :: frs)); done.
Qed.

(** No probe harvests: every probe is issued and the validation fails. *)
Lemma probe_loop_exhausted probes a test_uids :
  ∀ n blocked log,
    forallb (fun v => negb (is_harvest v))
      (verdicts probes n (probe_ids test_uids)) = true →
    probe_loop probes a test_uids n blocked log =
    mk_validation a (log ++ probe_requests a (probe_ids test_uids)) (false, [])
      (blocked || bool_decide (Blocked ∈ verdicts probes n (probe_ids test_uids))).
Proof.
  induction test_uids as [|uid rest IH]; intros n blocked log Hall.
  - simpl. by rewrite app_nil_r, orb_false_r.
  - rewrite probe_loop_cons. rewrite probe_ids_cons in Hall |- *. simpl.
    destruct (PyStr.truthy (PyStr.strip uid)); [|by apply IH].
    simpl in Hall. apply andb_true_iff in Hall as [Hv Hall].
    destruct (verdict_of (probes n (PyStr.strip uid))) eqn:Ev; [|done|].
    + rewrite IH by done. simpl. rewrite Ev, <- app_assoc. simpl.
      f_equal. by destruct blocked.
    + rewrite IH by done. simpl. rewrite Ev, <- app_assoc. simpl.
      f_equal. f_equal. apply bool_decide_ext. rewrite elem_of_cons.
      split; [auto|]. by intros [?|?].
Qed.

(** The first probe that harvests ends the validation. *)
Lemma probe_loop_harvest probes a test_uids :
  ∀ n blocked log pre friend_ids post,
    verdicts probes n (probe_ids test_uids) = pre ++ Harvest friend_ids :: post →
    forallb (fun v => negb (is_harvest v)) pre = true →
    probe_loop probes a test_uids n blocked log =
    mk_validation (with_login_check friend_ids a)
      (log ++ probe_requests a (take (S (length pre)) (probe_ids test_uids)))
      (true, friend_ids)
      (blocked || bool_decide (Blocked ∈ pre)).
Proof.
  induction test_uids as [|uid rest IH];
    intros n blocked log pre friend_ids post Hvs Hpre.
  - simpl in Hvs. by destruct pre.
  - rewrite probe_loop_cons. rewrite probe_ids_cons in Hvs |- *. simpl.
    destruct (PyStr.truthy (PyStr.strip uid)); [|by eapply IH].
    simpl in Hvs. destruct pre as [|v pre]; simpl in Hvs.
    + injection Hvs as Hv _. rewrite Hv. simpl.
      rewrite orb_false_r. done.
    + injection Hvs as Hv Hvs. simpl in Hpre.
      apply andb_true_iff in Hpre as [Hnv Hpre]. rewrite Hv.
      destruct v; [|done|].
      * erewrite IH by done. simpl. rewrite <- app_assoc. simpl.
        f_equal. by destruct blocked.
      * erewrite IH by done. simpl. rewrite <- app_assoc. simpl.
        f_equal. f_equal. apply bool_decide_ext. rewrite elem_of_cons.
        split; [auto|]. by intros [?|?].
Qed.

(** C6 (as amended).  A call made while logged out fails at once, whatever
    the probe file is.  A logged-in call succeeds with an empty list and no
    request when the file is absent, unreadable or has no line.  Otherwise
    the identifiers are probed in the order of the file, stripped, blank
    lines left out.  An answer whose serialized form holds one of the six
    words marks the session blocked; an answer free of them with a
    non-empty friends array whose records all have an id harvests these
    ids; any other answer, and a request that raises, is passed over.  At
    the first probe that harvests, the ids are saved in the session store
    and returned with success, and no later probe is issued.  When no probe
    harvests, every probe is issued and the call fails with an empty list.
    The blocked mark at return tells whether a probe issued before was
    marked. *)
Theorem validate_login_spec probes a :
  (is_logged_in a = false →
   ∀ file, validate_login file probes a = mk_validation a [] (false, []) false) ∧
  (is_logged_in a = true →
   validate_login FileAbsent probes a = mk_validation a [] (true, []) false ∧
   validate_login FileUnreadable probes a = mk_validation a [] (true, []) false ∧
   validate_login (FileLines []) probes a = mk_validation a [] (true, []) false) ∧
  (∀ answer,
     (has_error_word (pa_repr answer) = true →
      verdict_of (Some answer) = Blocked) ∧
     (∀ friend_ids,
        has_error_word (pa_repr answer) = false →
        get_friends (pa_body answer) ≠ [] →
        friend_ids_of (get_friends (pa_body answer)) = Some friend_ids →
        verdict_of (Some answer) = Harvest friend_ids)) ∧
  (is_logged_in a = true →
   ∀ test_uids, test_uids ≠ [] →
     let v := validate_login (FileLines test_uids) probes a in
     let ids := probe_ids test_uids in
     let vs := verdicts probes 0 ids in
     (∀ pre friend_ids post,
        vs = pre ++ Harvest friend_ids :: post →
        forallb (fun v => negb (is_harvest v)) pre = true →
        v = mk_validation (with_login_check friend_ids a)
              (probe_requests a (take (S (length pre)) ids))
              (true, friend_ids) (bool_decide (Blocked ∈ pre))) ∧
     (forallb (fun v => negb (is_harvest v)) vs = true →
      v = mk_validation a (probe_requests a ids) (false, [])
            (bool_decide (Blocked ∈ vs)))).
Proof.
  split_and!.
  - intros Hl file. unfold validate_login. by rewrite Hl.
  - intros Hl. unfold validate_login. by rewrite Hl.
  - intros answer. unfold verdict_of. split.
    + by intros ->.
    + intros friend_ids -> Hne Hids.
      destruct (get_friends (pa_body answer)); [done|]. by rewrite Hids.
  - intros Hl test_uids Hne. simpl. unfold validate_login. rewrite Hl. simpl.
    destruct test_uids as [|uid rest]; [done|]. cbn [Dump.nonempty negb].
    split.
    + intros pre friend_ids post Hvs Hpre.
      by rewrite (probe_loop_harvest _ _ _ _ _ _ _ _ _ Hvs Hpre).
    + intros Hall. by rewrite probe_loop_exhausted.
Qed.

(** Five lines, one of them blank: the first probe is blocked, the second
    raises, the third harvests, and the fourth identifier is not probed. *)
Lemma validate_login_spec_witness :
  validate_login (FileLines Scenario.uid_lines) Scenario.probes1 Scenario.alice =
    mk_validation (with_login_check ["7"] Scenario.alice)
      (probe_requests Scenario.alice ["4"; "5"; "6"])
      (true, ["7"]) true.
Proof.
  exact (proj1 (proj2 (proj2 (proj2
           (validate_login_spec Scenario.probes1 Scenario.alice)))
           eq_refl Scenario.uid_lines ltac:(discriminate))
           [Blocked; Passed] ["7"] [Harvest ["7"]] eq_refl eq_refl).
Defined.

(** C6 as stated fails in two places: with the probe file absent a
    logged-out call does not succeed; and an answer free of the six words
    whose friends array is not empty, one record of which has no id, is
    passed over instead of ending the call with success. *)
Lemma validate_login_counterexample :
  v_result (validate_login FileAbsent Scenario.probes1 (logout Scenario.alice)) =
    (false, []) ∧
  (has_error_word (pa_repr Scenario.probe_no_id) = false ∧
   Dump.nonempty (get_friends (pa_body Scenario.probe_no_id)) = true ∧
   v_result (validate_login (FileLines ["4"])
               (fun _ _ => Some Scenario.probe_no_id) Scenario.alice) =
     (false, [])).
Proof. vm_compute. done. Qed.

End ValidateClaims.

(** ** The credentials of the object *)

Module SessionClaims.
Import Auth AuthSpec Validate Session.

Lemma ensure_sb_truthy cookie : PyStr.truthy (ensure_sb cookie) = true.
Proof.
  unfold ensure_sb. destruct (has_sb cookie) eqn:E; [|done].
  destruct cookie; [done|done].
Qed.

Lemma login_with_cookie_stores rm a cookie :
  stored_or_unchanged a (login_with_cookie rm a cookie).
Proof.
  unfold login_with_cookie.
  destruct (usable (_extract_token_from_cookie rm (ensure_sb cookie)))
    as [t|] eqn:E1.
  - left. split; [done|]. exists (ensure_sb cookie), t. split_and!; [done| |].
    + apply ensure_sb_truthy.
    + by apply AuthClaims.usable_truthy in E1 as [_ ?].
  - destruct (usable (_extract_token_from_api rm (ensure_sb cookie)))
      as [t|] eqn:E2.
    + left. split; [done|]. exists (ensure_sb cookie), t. split_and!; [done| |].
      * apply ensure_sb_truthy.
      * by apply AuthClaims.usable_truthy in E2 as [_ ?].
    + by right.
Qed.

Lemma login_loop_stores rm uid password a remaining :
  ∀ retry_count log,
    stored_or_unchanged a (login_loop rm uid password a remaining retry_count log).
Proof.
  induction remaining as [|remaining IH]; intros retry_count log; simpl.
  - by right.
  - destruct (login_api rm retry_count uid password) as [|e|text js]; [done| |].
    + by right.
    + destruct (PyStr.contains proxy_error text); [done|].
      destruct js as [e|data]; [by right|].
      destruct (login_success data) eqn:Hs; [|by right].
      assert (PyStr.truthy (fmt (ld_cookies data)) = true) as Hc.
      { unfold login_success in Hs. apply andb_true_iff in Hs as [_ Hs].
        by destruct (ld_cookies data). }
      destruct (usable (_extract_token_from_cookie rm _)) as [t|] eqn:E1.
      * left. split; [done|]. eexists _, t. split_and!; [done|done|].
        by apply AuthClaims.usable_truthy in E1 as [_ ?].
      * destruct (usable (_extract_token_from_api rm _)) as [t|] eqn:E2.
        -- left. split; [done|]. eexists _, t. split_and!; [done|done|].
           by apply AuthClaims.usable_truthy in E2 as [_ ?].
        -- by right.
Qed.

Lemma login_with_credentials_stores rm a uid password :
  stored_or_unchanged a (login_with_credentials rm a uid password).
Proof. apply login_loop_stores. Qed.

Lemma store_invariant cookie token a :
  PyStr.truthy cookie = true → PyStr.truthy token = true →
  both_or_neither (store cookie token a) ∧ in_step (store cookie token a) ∧
  is_logged_in (store cookie token a) = true.
Proof.
  intros Hc Ht. unfold both_or_neither, in_step, is_logged_in, store; simpl.
  rewrite Hc, Ht. split_and!; try done. by left.
Qed.

Lemma stored_or_unchanged_invariant a o :
  stored_or_unchanged a o → both_or_neither a → in_step a →
  both_or_neither (after o) ∧ in_step (after o).
Proof.
  intros [[_ (c & t & -> & Hc & Ht)]|[_ ->]] Hb Hi; [|done].
  by destruct (store_invariant c t a Hc Ht) as (? & ? & _).
Qed.

(** The validation does not touch the credentials, in the object or in the
    session store. *)
Lemma probe_loop_credentials probes a test_uids :
  ∀ n blocked log,
    let v := probe_loop probes a test_uids n blocked log in
    _token (v_after v) = _token a ∧ _cookie (v_after v) = _cookie a ∧
    sess_token (_config (v_after v)) = sess_token (_config a) ∧
    sess_cookie (_config (v_after v)) = sess_cookie (_config a).
Proof.
  induction test_uids as [|uid rest IH]; intros n blocked log; [done|].
  rewrite ValidateClaims.probe_loop_cons. simpl.
  destruct (PyStr.truthy (PyStr.strip uid)); [|apply IH].
  destruct (ValidateSpec.verdict_of _); [apply IH|done|apply IH].
Qed.

Lemma validate_login_credentials file probes a :
  let v := validate_login file probes a in
  _token (v_after v) = _token a ∧ _cookie (v_after v) = _cookie a ∧
  sess_token (_config (v_after v)) = sess_token (_config a) ∧
  sess_cookie (_config (v_after v)) = sess_cookie (_config a).
Proof.
  simpl. unfold validate_login. destruct (is_logged_in a); simpl; [|done].
  destruct file as [| |test_uids]; [done|done|].
  destruct test_uids as [|uid rest]; [done|]. apply probe_loop_credentials.
Qed.

Lemma logout_invariant a : both_or_neither (logout a) ∧ in_step (logout a).
Proof. split; [by right|done]. Qed.

Lemma step_invariant a op :
  both_or_neither a → in_step a →
  both_or_neither (step a op) ∧ in_step (step a op).
Proof.
  intros Hb Hi. destruct op as [rm c|rm u pw| |file probes|file probes|]; simpl.
  - eapply stored_or_unchanged_invariant; eauto using login_with_cookie_stores.
  - eapply stored_or_unchanged_invariant;
      eauto using login_with_credentials_stores.
  - apply logout_invariant.
  - destruct (validate_login_credentials file probes a) as (Ht & Hc & Hst & Hsc).
    unfold both_or_neither, in_step in *. rewrite Ht, Hc, Hst, Hsc. done.
  - unfold _validate_current_login. destruct (is_logged_in a); simpl; [|done].
    destruct (fst (v_result (validate_login file probes a))); simpl.
    + destruct (validate_login_credentials file probes a)
        as (Ht & Hc & Hst & Hsc).
      unfold both_or_neither, in_step in *. rewrite Ht, Hc, Hst, Hsc. done.
    + apply logout_invariant.
  - unfold both_or_neither, in_step, _load_session, load_token, load_cookie
      in *; simpl. destruct Hi as [-> ->]. done.
Qed.

Lemma is_logged_in_iff a :
  is_logged_in a = true ↔
  ∃ token cookie, _token a = Some token ∧ _cookie a = Some cookie ∧
                  token ≠ "" ∧ cookie ≠ "".
Proof.
  unfold is_logged_in, PyStr.opt_truthy. rewrite andb_true_iff. split.
  - intros [Ht Hc]. destruct (_token a) as [t|], (_cookie a) as [c|];
      try done. exists t, c.
    split_and!; try done; by apply CandidateFacts.truthy_ne.
  - intros (t & c & -> & -> & Ht & Hc).
    split; by apply CandidateFacts.truthy_ne.
Qed.

(** C9 (as amended).  Token and cookie are both non-empty or both absent,
    and equal to what the session store holds, after any sequence of
    logins, logouts, validations and restarts that starts without a session
    file; each of these operations keeps this.  The object is logged in exactly when both are
    non-empty strings.  A login that succeeds leaves the object logged in
    with both set; a login that fails leaves the object as it was.  A
    logout clears both and the session store.  [validate_login] itself
    never changes them; a validation that fails, run by the application
    ([_validate_current_login]), logs out, so both are cleared.  Among the
    operations of [core.py] these are the ones of [CoreOps.Listed]. *)
Theorem credentials_invariant :
  (∀ ops, both_or_neither (run ops fresh) ∧ in_step (run ops fresh)) ∧
  (∀ ops,
     both_or_neither (CoreOps.core_run (map CoreOps.Listed ops) fresh) ∧
     in_step (CoreOps.core_run (map CoreOps.Listed ops) fresh)) ∧
  (∀ a op, both_or_neither a → in_step a →
           both_or_neither (step a op) ∧ in_step (step a op)) ∧
  (∀ a, is_logged_in a = true ↔
        ∃ token cookie, _token a = Some token ∧ _cookie a = Some cookie ∧
                        token ≠ "" ∧ cookie ≠ "") ∧
  (∀ rm a cookie,
     let o := login_with_cookie rm a cookie in
     (fst (result o) = true → is_logged_in (after o) = true) ∧
     (fst (result o) = false → after o = a)) ∧
  (∀ rm a uid password,
     let o := login_with_credentials rm a uid password in
     (fst (result o) = true → is_logged_in (after o) = true) ∧
     (fst (result o) = false → after o = a)) ∧
  (∀ a, _token (logout a) = None ∧ _cookie (logout a) = None ∧
        _config (logout a) = empty_session) ∧
  (∀ file probes a,
     _token (v_after (validate_login file probes a)) = _token a ∧
     _cookie (v_after (validate_login file probes a)) = _cookie a) ∧
  (∀ file probes a,
     both_or_neither a →
     snd (_validate_current_login file probes a) = false →
     _token (fst (_validate_current_login file probes a)) = None ∧
     _cookie (fst (_validate_current_login file probes a)) = None).
Proof.
  assert (∀ a o, stored_or_unchanged a o →
            (fst (result o) = true → is_logged_in (after o) = true) ∧
            (fst (result o) = false → after o = a)) as Hlogin.
  { intros a o [[Hr (c & t & -> & Hc & Ht)]|[Hr ->]].
    - split; [|congruence]. intros _.
      by destruct (store_invariant c t a Hc Ht) as (_ & _ & ?).
    - split; [congruence|done]. }
  assert (∀ ops, both_or_neither (run ops fresh) ∧ in_step (run ops fresh))
    as Hrun.
  { intros ops. unfold run.
    induction ops as [|op ops IH] using rev_ind.
    - split; [by right|done].
    - rewrite foldl_app. simpl. destruct IH. by apply step_invariant. }
  split_and!.
  - apply Hrun.
  - intros ops.
    assert (CoreOps.core_run (map CoreOps.Listed ops) fresh = run ops fresh)
      as ->; [|apply Hrun].
    unfold CoreOps.core_run, run. generalize fresh.
    induction ops as [|op ops IH]; intros a; [done|]. simpl. apply IH.
  - apply step_invariant.
  - apply is_logged_in_iff.
  - intros rm a cookie. apply Hlogin, login_with_cookie_stores.
  - intros rm a uid password. apply Hlogin, login_with_credentials_stores.
  - done.
  - intros file probes a.
    by destruct (validate_login_credentials file probes a) as (? & ? & _).
  - intros file probes a Hb. unfold _validate_current_login.
    destruct (is_logged_in a) eqn:Hl; simpl.
    + destruct (fst (v_result (validate_login file probes a))); simpl; done.
    + intros _. destruct Hb as [[Ht Hc]|[? ?]]; [|done].
      unfold is_logged_in in Hl. by rewrite Ht, Hc in Hl.
Qed.

(** C9 as stated fails.  A validation that fails does not destroy the
    credentials: [validate_login] leaves both in place, and the clearing is
    done by the wrapper of the application.  And the pair is not kept at
    every operation boundary of [core.py]: the module-level
    [validate_login], called with a token and an empty cookie, leaves the
    object with a token and an empty cookie. *)
Lemma credentials_counterexample :
  ¬ (∀ file probes a,
       fst (v_result (validate_login file probes a)) = false →
       _token (v_after (validate_login file probes a)) = None ∧
       _cookie (v_after (validate_login file probes a)) = None) ∧
  ¬ (∀ ops, both_or_neither (CoreOps.core_run ops fresh)).
Proof.
  split.
  - intros H.
    destruct (H (FileLines ["4"]) (fun _ _ => None) Scenario.alice eq_refl)
      as [Ht _].
    vm_compute in Ht. discriminate.
  - intros H.
    specialize (H [CoreOps.ModuleValidateLogin FileAbsent (fun _ _ => None)
                     "tok" ""]).
    destruct H as [[_ Hc]|[Ht _]]; vm_compute in *; discriminate.
Qed.

(** The setters used alone break it as well: a token without cookie.  So
    do the module-level dumps: an empty token with a cookie, which the
    session store does not hold. *)
Example setter_alone :
  let a := CoreOps.core_run [CoreOps.SetToken "tok"] fresh in
  _token a = Some "tok" ∧ _cookie a = None ∧
  sess_token (_config a) = Some "tok" ∧ is_logged_in a = false.
Proof. vm_compute. done. Qed.

Example module_dump_alone :
  let a := CoreOps.core_run
             [CoreOps.ModuleDumpSimple Scenario.net1 ["1"] "" "c_user=1"]
             fresh in
  let b := CoreOps.core_run
             [CoreOps.ModuleDumpUnlimited Scenario.net1 ["1"] "" "c_user=1"
                false None] fresh in
  _token a = Some "" ∧ _cookie a = Some "c_user=1" ∧
  sess_cookie (_config a) = None ∧ b = a.
Proof. vm_compute. done. Qed.

Example credentials_after_run :
  let a := run [LoginWithCookie Scenario.rm_fallback "c_user=1";
                ValidateCurrentLogin (FileLines ["4"])
                  (fun _ _ => Some Scenario.probe_limit);
                Restart] fresh in
  _token a = None ∧ _cookie a = None.
Proof. vm_compute. done. Qed.

End SessionClaims.

(** ** Facts about strings *)

Module StrFacts.

Lemma append_cons x (a b : string) : String x a +:+ b = String x (a +:+ b).
Proof. reflexivity. Qed.

Lemma append_nil_l (b : string) : "" +:+ b = b.
Proof. reflexivity. Qed.

Lemma append_assoc (a b c : string) : (a +:+ b) +:+ c = a +:+ (b +:+ c).
Proof.
  induction a as [|x a IH]; [done|]. by rewrite !append_cons, IH.
Qed.

Lemma append_nil_r (a : string) : a +:+ "" = a.
Proof. induction a as [|x a IH]; [done|]. by rewrite append_cons, IH. Qed.

Lemma prefix_cons a p b s :
  String.prefix (String a p) (String b s) = true ↔ a = b ∧ String.prefix p s = true.
Proof.
  simpl. destruct (ascii_dec a b) as [->|Hne]; [tauto|].
  split; [done|]. by intros [? _].
Qed.

Lemma prefix_nil s : String.prefix "" s = true.
Proof. by destruct s. Qed.

(** [p] is a prefix of [s] when [s] is [p] followed by some text. *)
Lemma prefix_iff p s : String.prefix p s = true ↔ ∃ r, s = p +:+ r.
Proof.
  revert s. induction p as [|a p IH]; intros s.
  - rewrite prefix_nil. split; [|done]. intros _. by exists s.
  - destruct s as [|b s].
    + simpl. split; [done|]. by intros [r Hr].
    + rewrite prefix_cons, IH. split.
      * intros [-> [r ->]]. by exists r.
      * intros [r Hr]. rewrite append_cons in Hr. injection Hr as -> ->.
        eauto.
Qed.

Lemma prefix_app p s r : String.prefix p s = true → String.prefix p (s +:+ r) = true.
Proof.
  rewrite !prefix_iff. intros [q ->]. exists (q +:+ r). apply append_assoc.
Qed.

Lemma contains_nil sub : PyStr.contains sub "" = String.prefix sub "".
Proof. simpl. by rewrite orb_false_r. Qed.

(** [sub in s] holds when [s] is some text, [sub], and some text. *)
Lemma contains_iff sub s :
  PyStr.contains sub s = true ↔ ∃ a b, s = a +:+ sub +:+ b.
Proof.
  induction s as [|c s IH].
  - rewrite contains_nil, prefix_iff. split.
    + intros [r Hr]. by exists "", r.
    + intros (a & b & Hab). destruct a; [by exists b|done].
  - change (PyStr.contains sub (String c s))
      with (String.prefix sub (String c s) || PyStr.contains sub s).
    rewrite orb_true_iff, prefix_iff, IH. split.
    + intros [[r Hr]|(a & b & ->)].
      * by exists "", r.
      * by exists (String c a), b.
    + intros (a & b & Hab). destruct a as [|x a].
      * left. by exists b.
      * right. rewrite append_cons in Hab. injection Hab as -> ->.
        by exists a, b.
Qed.

(** A text found in a part of [s] is found in [s]. *)
Lemma contains_infix sub a t b :
  PyStr.contains sub t = true → PyStr.contains sub (a +:+ t +:+ b) = true.
Proof.
  rewrite !contains_iff. intros (x & y & ->).
  exists (a +:+ x), (y +:+ b). by rewrite !append_assoc.
Qed.

(** A prefix without the bar of [fid|name] is a prefix of [fid]. *)
Lemma prefix_before_bar p fid name :
  PyStr.contains "|" p = false →
  String.prefix p (Dump.item_of fid name) = true → String.prefix p fid = true.
Proof.
  unfold Dump.item_of. revert fid. induction p as [|a p IH]; intros fid Hbar.
  - intros _. apply prefix_nil.
  - change (PyStr.contains "|" (String a p))
      with (String.prefix "|" (String a p) || PyStr.contains "|" p) in Hbar.
    apply orb_false_elim in Hbar as [Ha Hp].
    destruct fid as [|b fid].
    + simpl. destruct (ascii_dec a "|") as [->|]; [|done].
      simpl in Ha. by destruct p.
    + change (String b fid +:+ "|" +:+ name)
        with (String b (fid +:+ "|" +:+ name)).
      rewrite !prefix_cons. intros [-> H]. split; [done|]. by apply IH.
Qed.

End StrFacts.

(** ** Texts and their lines *)

Module TextFacts.
Import Text.

Lemma single_line_cons c s :
  single_line (String c s) = true ↔ is_linebreak c = false ∧ single_line s = true.
Proof. simpl. rewrite andb_true_iff, negb_true_iff. tauto. Qed.

(** A line without boundary in front of a line feed is the first line. *)
Lemma lines_by_first (boundary : ascii → bool) x t :
  boundary LF = true → (∀ c, boundary c = true → is_linebreak c = true) →
  single_line x = true →
  lines_by boundary false (x +:+ String LF t) = x :: lines_by boundary false t.
Proof.
  intros Hlf Hb. induction x as [|c x IH].
  - intros _. rewrite StrFacts.append_nil_l. simpl. by rewrite Hlf.
  - intros [Hc Hx]%single_line_cons. rewrite StrFacts.append_cons.
    cbn [lines_by andb]. destruct (boundary c) eqn:E.
    + apply Hb in E. congruence.
    + by rewrite IH.
Qed.

(** A text without boundary is one line, or none when it is empty. *)
Lemma lines_by_single (boundary : ascii → bool) x :
  (∀ c, boundary c = true → is_linebreak c = true) →
  single_line x = true →
  lines_by boundary false x = if String.eqb x "" then [] else [x].
Proof.
  intros Hb. induction x as [|c x IH]; [done|].
  intros [Hc Hx]%single_line_cons. cbn [lines_by andb].
  destruct (boundary c) eqn:E.
  - apply Hb in E. congruence.
  - rewrite IH by done. by destruct x.
Qed.

Lemma lines_by_lines_text (boundary : ascii → bool) lines :
  boundary LF = true → (∀ c, boundary c = true → is_linebreak c = true) →
  Forall (fun x => single_line x = true) lines →
  lines_by boundary false (lines_text lines) = lines.
Proof.
  intros Hlf Hb. induction 1 as [|x lines Hx _ IH]; [done|].
  cbn [lines_text]. by rewrite lines_by_first, IH.
Qed.

Lemma lines_by_join_lines (boundary : ascii → bool) lines :
  boundary LF = true → (∀ c, boundary c = true → is_linebreak c = true) →
  Forall (fun x => single_line x = true) lines →
  lines_by boundary false (join_lines lines) = strip_last_empty lines.
Proof.
  intros Hlf Hb. induction 1 as [|x lines Hx Hall IH]; [done|].
  destruct lines as [|y lines].
  - cbn [join_lines strip_last_empty]. by apply lines_by_single.
  - change (join_lines (x :: y :: lines))
      with (x +:+ String LF (join_lines (y :: lines))).
    change (strip_last_empty (x :: y :: lines))
      with (x :: strip_last_empty (y :: lines)).
    by rewrite lines_by_first, IH.
Qed.

(** The boundaries of [splitlines] are the same before and after the
    translation of a read in text mode. *)
Lemma splitlines_universal_newlines s : ∀ after_cr,
  lines_by is_linebreak false (universal_newlines_from after_cr s) =
  lines_by is_linebreak after_cr s.
Proof.
  induction s as [|c s IH]; intros after_cr; [done|].
  cbn [universal_newlines_from lines_by].
  destruct (after_cr && Ascii.eqb c LF) eqn:Hskip; [apply IH|].
  destruct (Ascii.eqb_spec c CR) as [->|Hne].
  - cbn [lines_by andb]. change (is_linebreak LF) with true.
    change (is_linebreak CR) with true. cbn iota.
    change (Ascii.eqb LF CR) with false. by rewrite IH.
  - assert (Ascii.eqb c CR = false) as Hcr by (by apply Ascii.eqb_neq).
    destruct (is_linebreak c) eqn:Hc; simpl; rewrite Hc, ?Hcr, IH; done.
Qed.

Lemma read_lines_splitlines text : read_lines text = splitlines text.
Proof. apply splitlines_universal_newlines. Qed.

(** The lines of a text hold no boundary. *)
Lemma lines_by_single_line s : ∀ after_cr,
  Forall (fun x => single_line x = true) (lines_by is_linebreak after_cr s).
Proof.
  induction s as [|c s IH]; intros after_cr; [constructor|].
  cbn [lines_by]. destruct (after_cr && Ascii.eqb c LF); [apply IH|].
  destruct (is_linebreak c) eqn:Hc; [by constructor|].
  specialize (IH false). destruct (lines_by is_linebreak false s) as [|x xs].
  - repeat constructor. simpl. by rewrite Hc.
  - apply Forall_cons in IH as [Hx Hxs]. constructor; [|done].
    simpl. by rewrite Hc.
Qed.

Lemma read_lines_single_line text :
  Forall (fun x => single_line x = true) (read_lines text).
Proof. rewrite read_lines_splitlines. apply lines_by_single_line. Qed.

(** A text of single lines holds no carriage return: a read in text mode
    returns it as it is. *)
Lemma universal_newlines_first x t :
  single_line x = true →
  universal_newlines_from false (x +:+ String LF t) =
  x +:+ String LF (universal_newlines_from false t).
Proof.
  induction x as [|c x IH].
  - intros _. by rewrite !StrFacts.append_nil_l.
  - intros [Hc Hx]%single_line_cons. rewrite !StrFacts.append_cons.
    cbn [universal_newlines_from andb].
    destruct (Ascii.eqb_spec c CR) as [->|_]; [done|]. by rewrite IH.
Qed.

Lemma universal_newlines_lines_text lines :
  Forall (fun x => single_line x = true) lines →
  universal_newlines (lines_text lines) = lines_text lines.
Proof.
  unfold universal_newlines. induction 1 as [|x lines Hx _ IH]; [done|].
  cbn [lines_text]. by rewrite universal_newlines_first, IH.
Qed.

(** Text written line by line is read back line by line, by a file
    utility and by [input()]. *)
Lemma read_lines_lines_text lines :
  Forall (fun x => single_line x = true) lines →
  read_lines (lines_text lines) = lines.
Proof.
  intros H. rewrite read_lines_splitlines. by apply lines_by_lines_text.
Qed.

Lemma input_lines_lines_text lines :
  Forall (fun x => single_line x = true) lines →
  input_lines (lines_text lines) = lines.
Proof.
  intros H. unfold input_lines. rewrite universal_newlines_lines_text by done.
  apply lines_by_lines_text; [done| |done].
  intros c Hc. apply Ascii.eqb_eq in Hc as <-. done.
Qed.

Lemma read_lines_join_lines lines :
  Forall (fun x => single_line x = true) lines →
  read_lines (join_lines lines) = strip_last_empty lines.
Proof.
  intros H. rewrite read_lines_splitlines. by apply lines_by_join_lines.
Qed.

Lemma lines_text_app l k : lines_text (l ++ k) = lines_text l +:+ lines_text k.
Proof.
  induction l as [|x l IH]; [by rewrite StrFacts.append_nil_l|].
  cbn [app lines_text]. by rewrite IH, StrFacts.append_assoc, StrFacts.append_cons.
Qed.

(** ['\n'.join(batch) + '\n'] of a batch that is not empty. *)
Lemma batch_text_lines_text lines :
  lines ≠ [] → DumpText.batch_text lines = lines_text lines.
Proof.
  unfold DumpText.batch_text. induction lines as [|x lines IH]; [done|].
  intros _. destruct lines as [|y lines]; [done|].
  change (join_lines (x :: y :: lines))
    with (x +:+ String LF (join_lines (y :: lines))).
  change (lines_text (x :: y :: lines))
    with (x +:+ String LF (lines_text (y :: lines))).
  rewrite <- IH by done.
  by rewrite StrFacts.append_assoc, StrFacts.append_cons.
Qed.

(** Nothing is below the empty string: in a descending list it is last. *)
Lemma not_str_gt_empty x : ¬ DumpSpec.str_gt "" x.
Proof. unfold DumpSpec.str_gt, String.ltb. by destruct x. Qed.

Lemma strip_last_empty_sorted (l : list string) :
  StronglySorted DumpSpec.str_gt l →
  StronglySorted DumpSpec.str_gt (strip_last_empty l) ∧
  (∀ x, x ∈ strip_last_empty l ↔ x ∈ l ∧ x ≠ "") ∧
  ("" ∉ l → strip_last_empty l = l) ∧
  ("" ∈ l → length (strip_last_empty l) + 1 = length l).
Proof.
  induction 1 as [|x l Hs IH Hx].
  { split_and!; [constructor| |done|by intros ?%elem_of_nil].
    intros x. simpl. rewrite elem_of_nil. tauto. }
  destruct IH as (IH1 & IH2 & IH3 & IH4).
  destruct l as [|y l].
  - cbn [strip_last_empty]. destruct (String.eqb_spec x "") as [->|Hne].
    + split_and!.
      * constructor.
      * intros z. split; [by intros ?%elem_of_nil|].
        by intros [->%list_elem_of_singleton Hz].
      * intros Hn. exfalso. apply Hn. by left.
      * done.
    + split_and!.
      * by repeat constructor.
      * intros z. split; [|by intros [? _]]. intros Hz. split; [done|].
        by apply list_elem_of_singleton in Hz as ->.
      * done.
      * intros Hin%list_elem_of_singleton. congruence.
  - change (strip_last_empty (x :: y :: l))
      with (x :: strip_last_empty (y :: l)).
    assert (x ≠ "") as Hne.
    { intros ->. apply Forall_cons in Hx as [Hy _].
      by apply not_str_gt_empty in Hy. }
    split_and!.
    + constructor; [done|]. apply Forall_forall. intros z Hz%IH2.
      rewrite Forall_forall in Hx. apply Hx, Hz.
    + intros z. rewrite !(elem_of_cons _ z x), IH2. split.
      * intros [->|[? ?]]; auto.
      * intros [[->|?] ?]; auto.
    + intros Hnot. f_equal. apply IH3. intros ?. apply Hnot. by right.
    + intros [?|Hin]%elem_of_cons; [done|]. specialize (IH4 Hin).
      cbn [length] in *. lia.
Qed.

End TextFacts.

(** ** The texts that a dump appends *)

Module DumpTextFacts.
Import Dump DumpSpec DumpText Text TextFacts.

Lemma process_response_batch sep uf st response :
  let b := batch_of sep st response in
  out_main (process_response sep uf st response) =
    (if nonempty (new_main b) then out_main st ++ new_main b else out_main st) ∧
  out_unsep (process_response sep uf st response) =
    (if nonempty (new_unsep b) && uf
     then out_unsep st ++ new_unsep b else out_unsep st).
Proof.
  unfold batch_of, process_response. destruct response as [body|]; [|done].
  by destruct (body_truthy body).
Qed.

(** The texts appended are the lines accepted, each with its line feed. *)
Lemma phase2_texts_lines sep uf rs :
  state (phase2_texts sep uf rs) = phase2 sep uf rs ∧
  main_text (phase2_texts sep uf rs) = lines_text (out_main (phase2 sep uf rs)) ∧
  unsep_text (phase2_texts sep uf rs) =
    lines_text (out_unsep (phase2 sep uf rs)).
Proof.
  unfold phase2_texts, phase2.
  induction rs as [|r rs (IH1 & IH2 & IH3)] using rev_ind; [done|].
  rewrite !foldl_app. cbn [foldl write_response state main_text unsep_text].
  rewrite IH1, IH2, IH3.
  destruct (process_response_batch sep uf
              (foldl (process_response sep uf) init_state rs) r) as [-> ->].
  split_and!; [done| |].
  - destruct (new_main _) as [|x l] eqn:E; [done|]. cbn [nonempty].
    by rewrite lines_text_app, batch_text_lines_text.
  - destruct (new_unsep _) as [|x l] eqn:E; [done|]. cbn [nonempty andb].
    destruct uf; [|done].
    by rewrite lines_text_app, batch_text_lines_text.
Qed.

Lemma dump_texts_lines net a uids uf sep recursive :
  dump_texts net a uids uf sep recursive =
  (lines_text (main_lines (dump_friends net a uids uf sep recursive)),
   lines_text (unsep_lines (dump_friends net a uids uf sep recursive))).
Proof.
  unfold dump_texts.
  destruct (DumpClaims.dump_friends_phase2 net a uids uf sep recursive)
    as (_ & -> & ->).
  destruct (phase2_texts_lines sep uf (phase2_answers net a uids recursive))
    as (_ & -> & ->).
  done.
Qed.

End DumpTextFacts.

(** ** The file utilities *)

Module FileUtilsFacts.
Import FileUtils PyList DumpSpec.






End FileUtilsFacts.

Module FileUtilsProps.
Import FileUtils PyList DumpSpec FileUtilsFacts.




Lemma norm_index_le len i : norm_index len i ≤ len.
Proof. unfold norm_index. destruct (Z.ltb_spec i 0); lia. Qed.



(** Lines 2 to 4 of five are cut; when the file for them cannot be opened
    nothing is written; when the file itself cannot be written back they
    are saved and stay in the file. *)
Example cut_lines_two_to_four :
  cut_or_delete_lines (Some ["a"; "b"; "c"; "d"; "e"]) 2 4 (Some true) true =
    mk_cut true (Some ["a"; "e"]) (Some ["b"; "c"; "d"]) ∧
  cut_or_delete_lines (Some ["a"; "b"; "c"; "d"; "e"]) 2 4 (Some false) true =
    mk_cut false None None ∧
  cut_or_delete_lines (Some ["a"; "b"; "c"; "d"; "e"]) 2 4 (Some true) false =
    mk_cut false None (Some ["b"; "c"; "d"]).
Proof. split_and!; reflexivity. Qed.

Lemma single_line_subset (l k : list string) :
  (∀ x, x ∈ k → x ∈ l) →
  Forall (fun x => Text.single_line x = true) l →
  Forall (fun x => Text.single_line x = true) k.
Proof.
  intros Hsub Hl. apply Forall_forall. intros x Hx.
  rewrite Forall_forall in Hl. by apply Hl, Hsub.
Qed.

(** X5.  [remove_duplicates_from_file] writes back every distinct line of
    the file exactly once, in strictly descending order, joined by line
    feeds, and returns their number; when the file cannot be written it
    returns 0.  The count is at most the number of lines read, and equal to
    it exactly when the file had no duplicate; the order of the lines read
    does not matter.  A second run reads the text written: it finds the
    same lines except the empty line, which is last in the order and is
    lost with the line feed before it.  So the second run changes nothing
    when the file had no empty line, returns one less when it had one, and
    a third run changes nothing in either case. *)
Theorem remove_duplicates_spec (text : string) :
  ∃ unique,
    remove_duplicates_from_file (Some text) true =
      (length unique, Some (Text.join_lines unique)) ∧
    remove_duplicates_from_file (Some text) false = (0, None) ∧
    NoDup unique ∧ (∀ x, x ∈ unique ↔ x ∈ Text.read_lines text) ∧
    StronglySorted str_gt unique ∧
    length unique ≤ length (Text.read_lines text) ∧
    (length unique = length (Text.read_lines text) ↔
     NoDup (Text.read_lines text)) ∧
    (∀ text', Text.read_lines text' ≡ₚ Text.read_lines text →
       remove_duplicates_from_file (Some text') true =
       (length unique, Some (Text.join_lines unique))) ∧
    ∃ again,
      remove_duplicates_from_file (Some (Text.join_lines unique)) true =
        (length again, Some (Text.join_lines again)) ∧
      (∀ x, x ∈ again ↔ x ∈ Text.read_lines text ∧ x ≠ "") ∧
      ("" ∉ Text.read_lines text → again = unique) ∧
      ("" ∈ Text.read_lines text → length again + 1 = length unique) ∧
      remove_duplicates_from_file (Some (Text.join_lines again)) true =
        (length again, Some (Text.join_lines again)).
Proof.
  set (lines := Text.read_lines text).
  exists (Dump.sorted_set_reverse lines).
  destruct (CandidateFacts.sorted_set_reverse_spec lines) as (Hm & Hnd & Hs).
  assert (Dump.sorted_set_reverse lines ⊆+ lines) as Hsub.
  { apply NoDup_submseteq; [done|]. intros x. by rewrite Hm. }
  pose proof (TextFacts.read_lines_single_line text) as Hlines.
  fold lines in Hlines.
  assert (Forall (fun x => Text.single_line x = true)
            (Dump.sorted_set_reverse lines)) as Huniq.
  { apply (single_line_subset lines); [|done]. intros x. by rewrite Hm. }
  destruct (TextFacts.strip_last_empty_sorted _ Hs) as (Hs' & Hm' & Hsame & Hless).
  set (again := Text.strip_last_empty (Dump.sorted_set_reverse lines)) in *.
  assert (∀ k, StronglySorted str_gt k →
               Forall (fun x => Text.single_line x = true) k →
               Text.strip_last_empty k = k →
               remove_duplicates_from_file (Some (Text.join_lines k)) true =
               (length k, Some (Text.join_lines k))) as Hfix.
  { intros k Hk Hsingle Hstrip. unfold remove_duplicates_from_file.
    rewrite TextFacts.read_lines_join_lines, Hstrip by done.
    by rewrite <- (CandidateFacts.sorted_set_reverse_unique k k). }
  split_and!; try done.
  - by apply submseteq_length.
  - split.
    + intros Hlen. rewrite <- (submseteq_length_Permutation _ _ Hsub); [done|].
      lia.
    + intros Hl. apply Permutation_length, NoDup_Permutation; try done.
  - intros text' Hperm. unfold remove_duplicates_from_file.
    rewrite <- (CandidateFacts.sorted_set_reverse_unique (Text.read_lines text')
                  (Dump.sorted_set_reverse lines)); [done| |done].
    intros x. by rewrite Hm, Hperm.
  - exists again.
    assert (Forall (fun x => Text.single_line x = true) again) as Hagain.
    { apply (single_line_subset (Dump.sorted_set_reverse lines)); [|done].
      by intros x [? _]%Hm'. }
    assert (Text.strip_last_empty again = again) as Hidem.
    { destruct (TextFacts.strip_last_empty_sorted _ Hs') as (_ & _ & Hno & _).
      apply Hno. by intros [_ ?]%Hm'. }
    split_and!.
    + unfold remove_duplicates_from_file.
      rewrite TextFacts.read_lines_join_lines by done. fold again.
      by rewrite <- (CandidateFacts.sorted_set_reverse_unique again again).
    + intros x. by rewrite Hm', Hm.
    + intros Hno. apply Hsame. by rewrite Hm.
    + intros Hyes. apply Hless. by rewrite Hm.
    + by apply Hfix.
Qed.

(** The file holding [b], an empty line and [a]: 3 lines the first time,
    2 the second time and from then on. *)
Example remove_duplicates_empty_line :
  let text := "b" +:+ String Text.LF (String Text.LF "a") in
  remove_duplicates_from_file (Some text) true =
    (3, Some ("b" +:+ String Text.LF ("a" +:+ String Text.LF ""))) ∧
  remove_duplicates_from_file
    (Some ("b" +:+ String Text.LF ("a" +:+ String Text.LF ""))) true =
    (2, Some ("b" +:+ String Text.LF "a")) ∧
  remove_duplicates_from_file (Some ("b" +:+ String Text.LF "a")) true =
    (2, Some ("b" +:+ String Text.LF "a")).
Proof. split_and!; vm_compute; reflexivity. Qed.

(** X6.  On the main file of a dump, new with the call, whose lines hold
    no line boundary, the file read back is the list of the lines written
    and the duplicate remover removes nothing: the count it returns is the
    count the dump returned, and the lines written back are the lines of
    the file in another order. *)
Theorem remove_duplicates_after_dump net a uids uf sep recursive :
  let r := Dump.dump_friends net a uids uf sep recursive in
  let text := fst (DumpText.dump_texts net a uids uf sep recursive) in
  Forall (fun x => Text.single_line x = true) (Dump.main_lines r) →
  Text.read_lines text = Dump.main_lines r ∧
  ∃ unique,
    remove_duplicates_from_file (Some text) true =
      (fst (Dump.returned r), Some (Text.join_lines unique)) ∧
    unique ≡ₚ Dump.main_lines r.
Proof.
  cbv zeta. intros Hsingle.
  rewrite DumpTextFacts.dump_texts_lines. cbn [fst].
  destruct (DumpClaims.dump_friends_written net a uids uf sep recursive)
    as (Hnd & _ & _ & _ & Hret).
  set (l := Dump.main_lines (Dump.dump_friends net a uids uf sep recursive))
    in *.
  assert (Text.read_lines (Text.lines_text l) = l) as Hread
    by (by apply TextFacts.read_lines_lines_text).
  split; [done|].
  destruct (CandidateFacts.sorted_set_reverse_spec l) as (Hm & Hndu & _).
  assert (Dump.sorted_set_reverse l ≡ₚ l) as Hperm
    by (by apply NoDup_Permutation).
  exists (Dump.sorted_set_reverse l). split; [|done].
  unfold remove_duplicates_from_file. rewrite Hread, Hret. simpl.
  by rewrite (Permutation_length Hperm).
Qed.

(** The dump of the two seeds: three lines written, three lines read
    back, three lines kept. *)
Lemma remove_duplicates_after_dump_witness :
  fst (remove_duplicates_from_file
         (Some (fst (DumpText.dump_texts Scenario.net2 Scenario.alice
                       Scenario.seeds2 true None false))) true) = 3.
Proof.
  destruct (remove_duplicates_after_dump Scenario.net2 Scenario.alice
              Scenario.seeds2 true None false) as (_ & unique & Heq & _).
  - repeat constructor.
  - rewrite Heq. reflexivity.
Defined.

(** A name that holds a line feed: the dump counts one line, the file
    holds two, and the duplicate remover counts two. *)
Example remove_duplicates_line_break :
  let r := Dump.dump_friends Samples.net_break Scenario.alice ["1"] false
             None false in
  let text := fst (DumpText.dump_texts Samples.net_break Scenario.alice ["1"]
                     false None false) in
  Dump.returned r = (1, 0) ∧ Text.read_lines text = ["7|Ann"; "Bo"] ∧
  fst (remove_duplicates_from_file (Some text) true) = 2.
Proof. vm_compute. done. Qed.

Lemma filter_all {A} (f : A → bool) (l : list A) :
  (∀ x, x ∈ l → f x = true) → List.filter f l = l.
Proof.
  induction l as [|x l IH]; intros H; simpl; [done|].
  rewrite H by left. f_equal. apply IH. intros y Hy. apply H. by right.
Qed.

Lemma filter_none {A} (f : A → bool) (l : list A) :
  (∀ x, x ∈ l → f x = false) → List.filter f l = [].
Proof.
  induction l as [|x l IH]; intros H; simpl; [done|].
  rewrite H by left. apply IH. intros y Hy. apply H. by right.
Qed.

(** With prefixes, the id behind a line of the main file starts with one
    of them and the id behind a line of the second file with none. *)
Lemma produced_prefixed prefixes rs t x :
  prefixes ≠ [] → produced (Some prefixes) rs t x →
  ∃ fid name,
    x = Dump.item_of fid name ∧
    Dump.any_startswith fid (Some prefixes) =
      match t with Main => true | Unsep => false end.
Proof.
  intros Hne (fr & _ & Hc). unfold classify, route_of in Hc.
  destruct (f_id fr) as [fid|]; [|done].
  assert (Dump.prefixes_given (Some prefixes) = true) as Hgiven
    by (by destruct prefixes).
  rewrite Hgiven in Hc.
  exists fid, (default "Unknown" (f_name fr)).
  destruct (Dump.any_startswith fid (Some prefixes)), t; split; congruence.
Qed.

(** X4.  The separator agrees with the routing of the dump, on files new
    with the call whose lines hold no line boundary.  Applied with the
    same prefixes to the main file of a dump it keeps every line: the
    count it returns is the dump's main count and the text written is the
    lines of the main file joined by line feeds.  When no prefix holds the
    bar, applied to the second file of the dump it finds no matching line
    and writes nothing. *)
Theorem separate_by_prefix_after_dump net a uids uf prefixes recursive :
  prefixes ≠ [] →
  let r := Dump.dump_friends net a uids uf (Some prefixes) recursive in
  let texts := DumpText.dump_texts net a uids uf (Some prefixes) recursive in
  (Forall (fun x => Text.single_line x = true) (Dump.main_lines r) →
   Text.read_lines (fst texts) = Dump.main_lines r ∧
   separate_by_prefix (Some (fst texts)) prefixes true =
     (fst (Dump.returned r),
      if Dump.nonempty (Dump.main_lines r)
      then Some (Text.join_lines (Dump.main_lines r)) else None)) ∧
  (Forall (fun x => Text.single_line x = true) (Dump.unsep_lines r) →
   (∀ p, p ∈ prefixes → PyStr.contains "|" p = false) →
   Text.read_lines (snd texts) = Dump.unsep_lines r ∧
   ∀ writable,
     separate_by_prefix (Some (snd texts)) prefixes writable = (0, None)).
Proof.
  intros Hne. cbv zeta. rewrite DumpTextFacts.dump_texts_lines. cbn [fst snd].
  destruct (DumpClaims.dump_friends_written net a uids uf (Some prefixes)
              recursive) as (_ & _ & HM & HU & Hret).
  split.
  - intros Hsingle.
    assert (Text.read_lines
              (Text.lines_text
                 (Dump.main_lines
                    (Dump.dump_friends net a uids uf (Some prefixes) recursive)))
            = Dump.main_lines
                (Dump.dump_friends net a uids uf (Some prefixes) recursive))
      as Hread by (by apply TextFacts.read_lines_lines_text).
    split; [done|]. unfold separate_by_prefix. rewrite Hread, filter_all.
    + rewrite Hret. simpl. by destruct (Dump.main_lines _).
    + intros x Hx%HM.
      destruct (produced_prefixed _ _ _ _ Hne Hx) as (fid & name & -> & Ha).
      apply DumpClaims.any_startswith_true in Ha as (p & Hp & Hs).
      unfold starts_with_any. apply existsb_exists. exists p.
      split; [by apply list_elem_of_In|].
      unfold PyStr.startswith in *. unfold Dump.item_of.
      by apply StrFacts.prefix_app.
  - intros Hsingle Hbar.
    assert (Text.read_lines
              (Text.lines_text
                 (Dump.unsep_lines
                    (Dump.dump_friends net a uids uf (Some prefixes) recursive)))
            = Dump.unsep_lines
                (Dump.dump_friends net a uids uf (Some prefixes) recursive))
      as Hread by (by apply TextFacts.read_lines_lines_text).
    split; [done|]. intros writable.
    unfold separate_by_prefix. rewrite Hread, filter_none; [done|].
    intros x (_ & Hx)%HU.
    destruct (produced_prefixed _ _ _ _ Hne Hx) as (fid & name & -> & Ha).
    pose proof (proj1 (DumpClaims.any_startswith_false _ _) Ha) as Hnone.
    unfold starts_with_any.
    destruct (existsb _ prefixes) eqn:E; [|done].
    apply existsb_exists in E as (p & Hp%list_elem_of_In & Hs).
    unfold PyStr.startswith in *.
    apply StrFacts.prefix_before_bar in Hs; [|by apply Hbar].
    rewrite (Hnone p Hp) in Hs. done.
Qed.

(** The prefix [1000] on the dump of the two seeds: the separator keeps the
    one line of the main file and finds nothing in the second file. *)
Lemma separate_by_prefix_after_dump_witness :
  separate_by_prefix
    (Some (fst (DumpText.dump_texts Scenario.net2 Scenario.alice
                  Scenario.seeds2 true (Some ["1000"]) false)))
    ["1000"] true = (1, Some "100055|Cy") ∧
  separate_by_prefix
    (Some (snd (DumpText.dump_texts Scenario.net2 Scenario.alice
                  Scenario.seeds2 true (Some ["1000"]) false)))
    ["1000"] true = (0, None).
Proof.
  split; [reflexivity|].
  apply (proj2 (separate_by_prefix_after_dump Scenario.net2
                  Scenario.alice Scenario.seeds2 true ["1000"] false
                  ltac:(discriminate))).
  - repeat constructor.
  - intros p Hp%list_elem_of_singleton. subst p. reflexivity.
Defined.

End FileUtilsProps.

(** ** More on the dump: growth, order, and the dumps of the menu *)

Module DumpProps.
Import Dump DumpSpec DumpFacts.

Lemma records_app rs1 rs2 : records (rs1 ++ rs2) = records rs1 ++ records rs2.
Proof. unfold records. apply bind_app. Qed.

(** X7.  Phase 2 only ever appends: after more answers each file holds what
    it held before followed by the newly accepted lines, and the counters
    do not decrease.  What is written does not depend on the order of the
    answers: the same answers in another order give the same lines in each
    file, up to order, and the same counts. *)
Theorem phase2_appends_and_commutes sep uf rs1 rs2 :
  (∃ more_main more_unsep,
     out_main (phase2 sep uf (rs1 ++ rs2)) =
       out_main (phase2 sep uf rs1) ++ more_main ∧
     out_unsep (phase2 sep uf (rs1 ++ rs2)) =
       out_unsep (phase2 sep uf rs1) ++ more_unsep ∧
     line_count (phase2 sep uf (rs1 ++ rs2)) =
       line_count (phase2 sep uf rs1) + length more_main ∧
     line_count_un (phase2 sep uf (rs1 ++ rs2)) =
       line_count_un (phase2 sep uf rs1) + length more_unsep) ∧
  (∀ rs, rs ≡ₚ rs1 →
     out_main (phase2 sep uf rs) ≡ₚ out_main (phase2 sep uf rs1) ∧
     out_unsep (phase2 sep uf rs) ≡ₚ out_unsep (phase2 sep uf rs1) ∧
     line_count (phase2 sep uf rs) = line_count (phase2 sep uf rs1) ∧
     line_count_un (phase2 sep uf rs) = line_count_un (phase2 sep uf rs1)).
Proof.
  split.
  - rewrite !phase2_one_pass, records_app. unfold one_pass.
    rewrite foldl_app, foldl_route_fresh.
    set (b1 := foldl (route_friend sep) empty_batch (records rs1)).
    set (b2 := foldl _ (mk_batch _ _ [] []) (records rs2)).
    exists (new_main b2), (if uf then new_unsep b2 else []).
    unfold state_of, shift; simpl.
    destruct uf; rewrite ?length_app, ?app_nil_r; done.
  - intros rs Hperm.
    destruct (phase2_written sep uf rs) as (Hn1 & Hn2 & Hm & Hu & Hc & Hcu).
    destruct (phase2_written sep uf rs1)
      as (Hn1' & Hn2' & Hm' & Hu' & Hc' & Hcu').
    assert (∀ t x, produced sep rs t x ↔ produced sep rs1 t x) as Hprod.
    { intros t x. unfold produced, records.
      split; intros (fr & Hin & Hcl); exists fr; split; try done;
        apply list_elem_of_bind in Hin as (r & Hr & Hin);
        apply list_elem_of_bind; exists r; split; try done.
      - by rewrite <- Hperm.
      - by rewrite Hperm. }
    assert (out_main (phase2 sep uf rs) ≡ₚ out_main (phase2 sep uf rs1)) as HP1.
    { apply NoDup_Permutation; try done. intros x. by rewrite Hm, Hm', Hprod. }
    assert (out_unsep (phase2 sep uf rs) ≡ₚ out_unsep (phase2 sep uf rs1))
      as HP2.
    { apply NoDup_Permutation; try done. intros x. by rewrite Hu, Hu', Hprod. }
    split_and!; try done.
    + rewrite Hc, Hc'. by apply Permutation_length.
    + rewrite Hcu, Hcu'. by apply Permutation_length.
Qed.

(** Two records whose ids are free of the bar and whose lines are equal
    have the same id. *)
Lemma item_of_inj fid1 name1 fid2 name2 :
  PyStr.contains "|" fid1 = false → PyStr.contains "|" fid2 = false →
  item_of fid1 name1 = item_of fid2 name2 → fid1 = fid2.
Proof.
  unfold item_of. revert fid2.
  induction fid1 as [|c1 fid1 IH]; intros [|c2 fid2] H1 H2 Heq; [done| | |].
  - rewrite StrFacts.append_cons, StrFacts.append_nil_l in Heq.
    rewrite !StrFacts.append_cons in Heq. injection Heq as <- _.
    by rewrite (proj2 (StrFacts.contains_iff "|" (String "|" fid2))) in H2
      by (by exists "", fid2).
  - rewrite StrFacts.append_nil_l, !StrFacts.append_cons in Heq.
    injection Heq as -> _.
    by rewrite (proj2 (StrFacts.contains_iff "|" (String "|" fid1))) in H1
      by (by exists "", fid1).
  - rewrite !StrFacts.append_cons in Heq. injection Heq as -> Heq.
    f_equal. apply IH; [| |done].
    + destruct (PyStr.contains "|" fid1) eqn:E; [|done].
      apply StrFacts.contains_iff in E as (x & y & ->).
      rewrite (proj2 (StrFacts.contains_iff "|" _)) in H1; [done|].
      by exists (String c2 x), y.
    + destruct (PyStr.contains "|" fid2) eqn:E; [|done].
      apply StrFacts.contains_iff in E as (x & y & ->).
      rewrite (proj2 (StrFacts.contains_iff "|" _)) in H2; [done|].
      by exists (String c2 x), y.
Qed.

(** With ids free of the bar a line goes to one target only. *)
Lemma produced_one_target sep rs x :
  (∀ fr fid, fr ∈ records rs → f_id fr = Some fid →
             PyStr.contains "|" fid = false) →
  produced sep rs Main x → produced sep rs Unsep x → False.
Proof.
  intros Hbar (fr1 & Hin1 & Hc1) (fr2 & Hin2 & Hc2).
  unfold classify in Hc1, Hc2.
  destruct (f_id fr1) as [fid1|] eqn:E1; [|done].
  destruct (f_id fr2) as [fid2|] eqn:E2; [|done].
  injection Hc1 as Hr1 Hx1. injection Hc2 as Hr2 Hx2.
  assert (fid1 = fid2) as ->.
  { apply (item_of_inj fid1 (default "Unknown" (f_name fr1))
             fid2 (default "Unknown" (f_name fr2))
             (Hbar _ _ Hin1 E1) (Hbar _ _ Hin2 E2)).
    by rewrite Hx1, Hx2. }
  congruence.
Qed.



End DumpProps.

(** ** The number of times a line is written *)

Module WrittenOnce.
Import Dump DumpSpec DumpFacts.

(** C1 (as amended).  Each file holds every line at most once.  A line
    that occurs in the answers is in the main file, once, exactly when a
    record with that line is routed to the main file, and in the second
    file, once, exactly when that file was passed and a record with that
    line is routed to it.  So, when the second file is passed or no
    prefix is given, the line is written once or twice in all: twice
    exactly when records with that line are routed to both targets, which
    takes an id that holds the bar, and once when no id holds it; without
    prefixes it is once in any case.  It is written to no file exactly
    when no second file is passed and no record with that line is routed
    to the main file. *)
Theorem dump_friends_written_once net a uids uf sep recursive x :
  occurs sep (phase2_answers net a uids recursive) x →
  let r := dump_friends net a uids uf sep recursive in
  let rs := phase2_answers net a uids recursive in
  NoDup (main_lines r) ∧ NoDup (unsep_lines r) ∧
  (produced sep rs Main x → count_occ string_dec (main_lines r) x = 1) ∧
  (¬ produced sep rs Main x → count_occ string_dec (main_lines r) x = 0) ∧
  (produced sep rs Unsep x →
   count_occ string_dec (unsep_lines r) x = if uf then 1 else 0) ∧
  (¬ produced sep rs Unsep x → count_occ string_dec (unsep_lines r) x = 0) ∧
  (uf = true ∨ prefixes_given sep = false →
   1 ≤ times_written r x ∧ times_written r x ≤ 2) ∧
  (times_written r x = 2 ↔
   uf = true ∧ produced sep rs Main x ∧ produced sep rs Unsep x) ∧
  (times_written r x = 0 ↔ uf = false ∧ ¬ produced sep rs Main x) ∧
  (uf = true ∨ prefixes_given sep = false →
   (∀ fr fid, fr ∈ records rs → f_id fr = Some fid →
              PyStr.contains "|" fid = false) →
   times_written r x = 1) ∧
  (prefixes_given sep = false → times_written r x = 1).
Proof.
  intros [t Ht]. cbv zeta.
  destruct (DumpClaims.dump_friends_written net a uids uf sep recursive)
    as (HndM & HndU & HM & HU & _).
  set (r := dump_friends net a uids uf sep recursive) in *.
  set (rs := phase2_answers net a uids recursive) in *.
  assert (count_occ string_dec (main_lines r) x =
          if bool_decide (x ∈ main_lines r) then 1 else 0) as HcM
    by (by apply count_occ_NoDup).
  assert (count_occ string_dec (unsep_lines r) x =
          if bool_decide (x ∈ unsep_lines r) then 1 else 0) as HcU
    by (by apply count_occ_NoDup).
  assert (times_written r x =
          (if bool_decide (x ∈ main_lines r) then 1 else 0) +
          (if bool_decide (x ∈ unsep_lines r) then 1 else 0)) as Htimes.
  { unfold times_written. by rewrite DumpClaims.count_occ_app_str, HcM, HcU. }
  assert (prefixes_given sep = false → ¬ produced sep rs Unsep x) as Hnone.
  { intros Hp Hu. by pose proof (DumpClaims.produced_no_prefixes _ _ _ _ Hp Hu). }
  assert (¬ produced sep rs Main x → produced sep rs Unsep x) as Hother.
  { intros Hn. by destruct t. }
  assert (uf = true ∨ prefixes_given sep = false →
          x ∈ main_lines r ∨ x ∈ unsep_lines r) as Hsome.
  { intros Hcase. destruct t; [left; by apply HM|right].
    apply HU. split; [|done]. destruct Hcase as [?|Hp]; [done|].
    by destruct (Hnone Hp). }
  split_and!; try done.
  - intros Hm. rewrite HcM, bool_decide_eq_true_2; [done|by apply HM].
  - intros Hm. rewrite HcM, bool_decide_eq_false_2; [done|by rewrite HM].
  - intros Hu. rewrite HcU. destruct uf.
    + rewrite bool_decide_eq_true_2; [done|by apply HU].
    + rewrite bool_decide_eq_false_2; [done|]. rewrite HU. by intros [? _].
  - intros Hu. rewrite HcU, bool_decide_eq_false_2; [done|].
    rewrite HU. by intros [_ ?].
  - intros Hcase. rewrite Htimes. destruct (Hsome Hcase) as [Hin|Hin].
    + rewrite (bool_decide_eq_true_2 _ Hin).
      destruct (bool_decide (x ∈ unsep_lines r)); lia.
    + rewrite (bool_decide_eq_true_2 _ Hin).
      destruct (bool_decide (x ∈ main_lines r)); lia.
  - rewrite Htimes. split.
    + intros H2.
      destruct (decide (x ∈ main_lines r)) as [HinM|HinM];
        [|rewrite (bool_decide_eq_false_2 _ HinM) in H2;
          destruct (bool_decide (x ∈ unsep_lines r)); lia].
      destruct (decide (x ∈ unsep_lines r)) as [HinU|HinU];
        [|rewrite (bool_decide_eq_false_2 _ HinU) in H2;
          destruct (bool_decide (x ∈ main_lines r)); lia].
      apply HM in HinM. apply HU in HinU as [? ?]. done.
    + intros (Huf & Hm & Hu).
      rewrite !bool_decide_eq_true_2; [done|apply HU; by split|by apply HM].
  - rewrite Htimes. split.
    + intros H0.
      destruct (decide (x ∈ main_lines r)) as [HinM|HinM];
        [rewrite (bool_decide_eq_true_2 _ HinM) in H0; lia|].
      destruct (decide (x ∈ unsep_lines r)) as [HinU|HinU];
        [rewrite (bool_decide_eq_true_2 _ HinU) in H0; lia|].
      rewrite HM in HinM. split; [|done].
      destruct uf; [|done]. destruct HinU. apply HU. split; [done|].
      by apply Hother.
    + intros [-> Hm].
      rewrite !bool_decide_eq_false_2; [done| |by rewrite HM].
      rewrite HU. by intros [? _].
  - intros Hcase Hbar. rewrite Htimes. destruct (Hsome Hcase) as [Hin|Hin].
    + rewrite (bool_decide_eq_true_2 _ Hin), bool_decide_eq_false_2; [done|].
      rewrite HU. intros [_ Hu]. apply HM in Hin.
      by eapply DumpProps.produced_one_target.
    + rewrite (bool_decide_eq_true_2 _ Hin), bool_decide_eq_false_2; [done|].
      rewrite HM. intros Hm. apply HU in Hin as [_ Hu].
      by eapply DumpProps.produced_one_target.
  - intros Hp. rewrite Htimes.
    pose proof (DumpClaims.produced_no_prefixes _ _ _ _ Hp Ht) as ->.
    rewrite bool_decide_eq_true_2 by (by apply HM).
    rewrite bool_decide_eq_false_2; [done|]. rewrite HU. intros [_ Hu].
    by destruct (Hnone Hp).
Qed.

(** The line [7|Ann] is in the answers to both seeds and is written once. *)
Lemma dump_friends_written_once_witness :
  occurs None (phase2_answers Scenario.net2 Scenario.alice Scenario.seeds2 false)
    "7|Ann" ∧
  times_written
    (dump_friends Scenario.net2 Scenario.alice Scenario.seeds2 true None false)
    "7|Ann" = 1.
Proof.
  assert (occurs None
            (phase2_answers Scenario.net2 Scenario.alice Scenario.seeds2 false)
            "7|Ann") as Hp.
  { exists Main, (mk_friend (Some "7") (Some "Ann")). split; [|reflexivity].
    vm_compute. constructor. }
  split; [exact Hp|].
  exact (proj2 (proj2 (proj2 (proj2 (proj2 (proj2 (proj2 (proj2 (proj2 (proj2
           (dump_friends_written_once Scenario.net2 Scenario.alice
              Scenario.seeds2 true None false "7|Ann" Hp)))))))))) eq_refl).
Defined.

(** C1 as stated fails, in both directions.  With prefixes and no second
    file, the line [9|Bo] occurs in an answer of Phase 2 and is written to
    no file.  With a second file, the line [1|2|x] of two records, of which
    the id [1|2] starts with the prefix [1|] and the id [1] does not, is
    written to both files. *)
Lemma written_once_counterexample :
  ¬ (∀ net a uids uf sep recursive x,
       occurs sep (phase2_answers net a uids recursive) x →
       times_written (dump_friends net a uids uf sep recursive) x = 1) ∧
  ¬ (∀ net a uids sep recursive x,
       occurs sep (phase2_answers net a uids recursive) x →
       times_written (dump_friends net a uids true sep recursive) x = 1).
Proof.
  split.
  - intros H.
    specialize (H Scenario.net1 Scenario.alice ["100012345"] false
                  (Some ["1000"]) true "9|Bo").
    assert (times_written
              (dump_friends Scenario.net1 Scenario.alice ["100012345"] false
                 (Some ["1000"]) true) "9|Bo" = 0) as H0
      by (vm_compute; reflexivity).
    rewrite H in H0; [discriminate|].
    exists Unsep, (mk_friend (Some "9") (Some "Bo")). split; [|reflexivity].
    vm_compute. constructor.
  - intros H.
    specialize (H Samples.net_bar Scenario.alice ["5"] (Some ["1|"]) false
                  "1|2|x").
    assert (times_written
              (dump_friends Samples.net_bar Scenario.alice ["5"] true
                 (Some ["1|"]) false) "1|2|x" = 2) as H2
      by (vm_compute; reflexivity).
    rewrite H in H2; [discriminate|].
    exists Main, (mk_friend (Some "1|2") (Some "x")). split; [|reflexivity].
    vm_compute. constructor.
Qed.

(** The same two records without a second file: the line is written to
    the main file only, though one of its records is routed to the second
    file. *)
Example written_to_main_only :
  times_written
    (dump_friends Samples.net_bar Scenario.alice ["5"] false (Some ["1|"]) false)
    "1|2|x" = 1.
Proof. vm_compute. reflexivity. Qed.

End WrittenOnce.

(** ** The session store, the logins of the menu and the old functions *)

Module LoginProps.
Import Auth AuthSpec Validate ValidateSpec Session SessionStore Logins.

Lemma run_invariant ops :
  both_or_neither (run ops fresh) ∧ in_step (run ops fresh).
Proof.
  unfold run. induction ops as [|op ops [IH1 IH2]] using rev_ind.
  - split; [by right|done].
  - rewrite foldl_app. simpl. by apply SessionClaims.step_invariant.
Qed.

Lemma mapM_cons_nonempty (fr : friend) frs ids :
  friend_ids_of (fr :: frs) = Some ids → ids ≠ [].
Proof.
  unfold friend_ids_of. simpl.
  destruct (f_id fr); simpl; [|done].
  destruct (mapM f_id frs); simpl; [|done]. by intros [= <-].
Qed.

Lemma harvest_nonempty answer ids : verdict_of answer = Harvest ids → ids ≠ [].
Proof.
  unfold verdict_of. destruct answer as [ans|]; [|done].
  destruct (has_error_word _); [done|].
  destruct (get_friends (pa_body ans)) as [|fr frs] eqn:E; [done|].
  destruct (friend_ids_of (fr :: frs)) eqn:Em; [|done].
  intros [= <-]. by eapply mapM_cons_nonempty.
Qed.

(** The loop ends a failure with nothing saved, or a success with the ids
    it harvested saved in the session store. *)
Lemma probe_loop_saves probes a test_uids :
  ∀ n blocked log,
    let v := probe_loop probes a test_uids n blocked log in
    (v_result v = (false, []) ∧ v_after v = a) ∨
    (∃ ids, ids ≠ [] ∧ v_result v = (true, ids) ∧
            v_after v = with_login_check ids a).
Proof.
  induction test_uids as [|uid rest IH]; intros n blocked log; [by left|].
  rewrite ValidateClaims.probe_loop_cons. cbv zeta.
  destruct (PyStr.truthy (PyStr.strip uid)); [|apply IH].
  destruct (verdict_of _) as [|ids|] eqn:Ev; [apply IH| |apply IH].
  right. exists ids. split_and!; try done. by eapply harvest_nonempty.
Qed.

(** X9.  In every state reached from an object without session file by
    logins, logouts, validations and restarts, [get_session_info] reports a
    token exactly when it reports a cookie, and exactly when the object is
    logged in.  A validation that returns a non-empty list of ids has
    saved it: [load_login_check] returns the same list and [friend_count]
    is its length.  After a logout the report is empty. *)
Theorem session_info_tracks_login :
  (∀ ops,
     let a := run ops fresh in
     has_token (get_session_info (_config a)) = is_logged_in a ∧
     has_cookie (get_session_info (_config a)) = is_logged_in a) ∧
  (∀ file probes a,
     let v := validate_login file probes a in
     snd (v_result v) ≠ [] →
     fst (v_result v) = true ∧
     load_login_check (_config (v_after v)) = snd (v_result v) ∧
     friend_count (get_session_info (_config (v_after v))) =
       length (snd (v_result v))) ∧
  (∀ a, get_session_info (_config (logout a)) = mk_info false false 0).
Proof.
  split_and!.
  - intros ops. cbv zeta.
    destruct (run_invariant ops) as [Hb [Ht Hc]].
    unfold get_session_info, is_logged_in. simpl. rewrite Ht, Hc.
    destruct Hb as [[-> ->]|[-> ->]]; done.
  - intros file probes a. cbv zeta. unfold validate_login.
    destruct (is_logged_in a); simpl; [|done].
    destruct file as [| |test_uids]; [done|done|].
    destruct test_uids as [|uid rest]; [done|]. cbn [Dump.nonempty negb].
    destruct (probe_loop_saves probes a (uid :: rest) 0 false [])
      as [[-> _]|(ids & Hne & -> & ->)]; [done|].
    done.
  - done.
Qed.

(** X10.  Choice A of the login menu reaches the home menu only with the
    object logged in, and when it does not, no credential is left in the
    object or in the session store, not even one of an earlier session.
    Choice B reaches the home menu only logged in too; when it does not,
    a failed login has left the object as it was and a failed validation
    has cleared the credentials. *)
Theorem login_menu_outcomes rm file probes a :
  (∀ cookie,
     let r := choose_cookie_login rm file probes a cookie in
     (snd r = true → is_logged_in (fst r) = true) ∧
     (snd r = false →
      _token (fst r) = None ∧ _cookie (fst r) = None ∧
      sess_token (_config (fst r)) = None ∧
      sess_cookie (_config (fst r)) = None)) ∧
  (∀ uid password,
     let r := choose_id_pass_login rm file probes a uid password in
     (snd r = true → is_logged_in (fst r) = true) ∧
     (snd r = false →
      fst r = a ∨ (_token (fst r) = None ∧ _cookie (fst r) = None))).
Proof.
  assert (∀ a1, is_logged_in a1 = true →
            let r := _validate_current_login file probes a1 in
            (snd r = true → is_logged_in (fst r) = true) ∧
            (snd r = false → fst r = logout (v_after (validate_login file probes a1))))
    as Hval.
  { intros a1 Hl. cbv zeta. unfold _validate_current_login. rewrite Hl. simpl.
    destruct (fst (v_result (validate_login file probes a1))); simpl.
    - split; [|done]. intros _.
      destruct (SessionClaims.validate_login_credentials file probes a1)
        as (Ht & Hc & _).
      unfold is_logged_in in *. by rewrite Ht, Hc.
    - done. }
  split.
  - intros cookie. cbv zeta. unfold choose_cookie_login, _do_cookie_login.
    destruct (SessionClaims.login_with_cookie_stores rm a cookie)
      as [[Hr (c & t & Ha & Hc & Ht)]|[Hr Ha]]; rewrite Hr; simpl.
    + destruct (SessionClaims.store_invariant c t a Hc Ht) as (_ & _ & Hl).
      rewrite <- Ha in Hl. destruct (Hval _ Hl) as [H1 H2].
      split; [done|]. intros Hf. by rewrite (H2 Hf).
    + done.
  - intros uid password. cbv zeta.
    unfold choose_id_pass_login, _do_id_pass_login.
    destruct (SessionClaims.login_with_credentials_stores rm a uid password)
      as [[Hr (c & t & Ha & Hc & Ht)]|[Hr Ha]]; rewrite Hr; simpl.
    + destruct (SessionClaims.store_invariant c t a Hc Ht) as (_ & _ & Hl).
      rewrite <- Ha in Hl. destruct (Hval _ Hl) as [H1 H2].
      split; [done|]. intros Hf. right. by rewrite (H2 Hf).
    + split; [done|]. intros _. by left.
Qed.

(** X11.  The old module-level logins return their credentials together
    and only on success: [login_with_credentials] returns a non-empty
    cookie and a non-empty token, which the object and the session store
    then hold, with the status [SUCCESS], or it returns neither and leaves
    the object as it was; [login_with_cookie] returns a non-empty token on
    success and none on failure. *)
Theorem login_aliases_return rm a :
  (∀ uid password,
     let r := login_with_credentials_alias rm a uid password in
     (∃ cookie token,
        snd r = (Some cookie, Some token, "SUCCESS") ∧
        cookie ≠ "" ∧ token ≠ "" ∧
        _cookie (fst r) = Some cookie ∧ _token (fst r) = Some token ∧
        sess_cookie (_config (fst r)) = Some cookie ∧
        sess_token (_config (fst r)) = Some token) ∨
     (∃ status, snd r = (None, None, status) ∧ fst r = a)) ∧
  (∀ cookie,
     let r := login_with_cookie_alias rm a cookie in
     (∃ token, snd r = (Some token, "SUCCESS") ∧ token ≠ "" ∧
               _token (fst r) = Some token) ∨
     (snd r = (None, "TOKEN_FAILED") ∧ fst r = a)).
Proof.
  split.
  - intros uid password. cbv zeta. unfold login_with_credentials_alias.
    assert (∀ remaining retry_count log,
              let o := login_loop rm uid password a remaining retry_count log in
              fst (result o) = true → snd (result o) = "SUCCESS") as Hstatus.
    { induction remaining as [|remaining IH]; intros retry_count log; simpl;
        [done|].
      destruct (login_api rm retry_count uid password) as [|e|text js];
        [apply IH|done|].
      destruct (PyStr.contains proxy_error text); [apply IH|].
      destruct js as [e|data]; [done|].
      destruct (login_success data); [|done].
      destruct (usable (_extract_token_from_cookie rm _)); [done|].
      destruct (usable (_extract_token_from_api rm _)); done. }
    destruct (SessionClaims.login_with_credentials_stores rm a uid password)
      as [[Hr (c & t & Ha & Hc & Ht)]|[Hr Ha]].
    + left. exists c, t.
      pose proof (Hstatus MAX_API_RETRIES 0 [] Hr) as Hs.
      change (login_loop rm uid password a MAX_API_RETRIES 0 [])
        with (login_with_credentials rm a uid password) in Hs.
      rewrite Hr, Hs, Ha. cbn [fst snd]. unfold store. simpl.
      split_and!; try done; by apply CandidateFacts.truthy_ne.
    + right. rewrite Hr. cbn [fst snd]. eauto.
  - intros cookie. cbv zeta. unfold login_with_cookie_alias, login_with_cookie.
    destruct (usable (_extract_token_from_cookie rm (ensure_sb cookie)))
      as [t|] eqn:E1; simpl.
    + left. exists t. split_and!; try done.
      apply AuthClaims.usable_truthy in E1 as [_ Ht].
      by apply CandidateFacts.truthy_ne.
    + destruct (usable (_extract_token_from_api rm (ensure_sb cookie)))
        as [t|] eqn:E2; simpl.
      * left. exists t. split_and!; try done.
        apply AuthClaims.usable_truthy in E2 as [_ Ht].
        by apply CandidateFacts.truthy_ne.
      * by right.
Qed.

End LoginProps.

(** ** White space, bars and the identifiers read from the terminal *)

Module StripFacts.
Import PyStr Inputs.

Lemma contains_char_cons (x c : ascii) s :
  contains (String x "") (String c s) =
  Ascii.eqb x c || contains (String x "") s.
Proof.
  change (contains (String x "") (String c s))
    with (String.prefix (String x "") (String c s) || contains (String x "") s).
  f_equal. simpl. destruct (ascii_dec x c) as [->|Hne].
  - rewrite Ascii.eqb_refl. by destruct s.
  - symmetry. by apply Ascii.eqb_neq.
Qed.

Lemma contains_char_nil (x : ascii) : contains (String x "") "" = false.
Proof. reflexivity. Qed.

Lemma contains_char_app (x : ascii) a b :
  contains (String x "") (a +:+ b) =
  contains (String x "") a || contains (String x "") b.
Proof.
  induction a as [|c a IH]; [by rewrite StrFacts.append_nil_l|].
  by rewrite StrFacts.append_cons, !contains_char_cons, IH, orb_assoc.
Qed.

Lemma rstrip_cons c s :
  rstrip (String c s) =
  match rstrip s with
  | EmptyString => if is_space c then EmptyString else String c EmptyString
  | r => String c r
  end.
Proof. reflexivity. Qed.

Lemma rstrip_cons_keep c s :
  is_space c = false → rstrip (String c s) = String c (rstrip s).
Proof. intros H. rewrite rstrip_cons, H. by destruct (rstrip s). Qed.

Lemma rstrip_idemp s : rstrip (rstrip s) = rstrip s.
Proof.
  induction s as [|c s IH]; [done|]. rewrite rstrip_cons.
  destruct (rstrip s) as [|d r] eqn:E.
  - destruct (is_space c) eqn:Hc; [done|]. by rewrite rstrip_cons_keep.
  - by rewrite rstrip_cons, IH.
Qed.

(** Text kept by [rstrip] in front of a character that is no white space. *)
Lemma rstrip_app_keep a c b :
  is_space c = false → rstrip (a +:+ String c b) = a +:+ String c (rstrip b).
Proof.
  intros Hc. induction a as [|x a IH].
  - rewrite !StrFacts.append_nil_l. by apply rstrip_cons_keep.
  - rewrite !StrFacts.append_cons, rstrip_cons, IH.
    destruct a; [by rewrite StrFacts.append_nil_l|].
    by rewrite StrFacts.append_cons.
Qed.

Lemma lstrip_head s :
  lstrip s = "" ∨ ∃ c t, lstrip s = String c t ∧ is_space c = false.
Proof.
  induction s as [|c s IH]; [by left|]. simpl.
  destruct (is_space c) eqn:Hc; [done|]. right. eauto.
Qed.

Lemma lstrip_keep c s : is_space c = false → lstrip (String c s) = String c s.
Proof. simpl. by intros ->. Qed.

(** What [strip] returns is empty or starts with a character that is no
    white space. *)
Lemma strip_head s :
  strip s = "" ∨ ∃ c t, strip s = String c t ∧ is_space c = false.
Proof.
  unfold strip. destruct (lstrip_head s) as [->|(c & t & -> & Hc)]; [by left|].
  right. rewrite rstrip_cons_keep by done. eauto.
Qed.

Lemma strip_idemp s : strip (strip s) = strip s.
Proof.
  unfold strip. destruct (lstrip_head s) as [->|(c & t & -> & Hc)]; [done|].
  rewrite rstrip_cons_keep by done. rewrite lstrip_keep by done.
  by rewrite rstrip_cons_keep, rstrip_idemp by done.
Qed.

Lemma lstrip_suffix s : ∃ a, s = a +:+ lstrip s.
Proof.
  induction s as [|c s [a IH]]; [by exists ""|]. simpl.
  destruct (is_space c).
  - exists (String c a). by rewrite StrFacts.append_cons, <- IH.
  - by exists "".
Qed.

Lemma rstrip_prefix s : ∃ b, s = rstrip s +:+ b.
Proof.
  induction s as [|c s [b IH]]; [by exists ""|]. rewrite rstrip_cons.
  destruct (rstrip s) as [|d r] eqn:E.
  - rewrite StrFacts.append_nil_l in IH. subst b.
    destruct (is_space c); [by exists (String c s)|by exists s].
  - exists b. by rewrite StrFacts.append_cons, <- IH.
Qed.

Lemma strip_infix s : ∃ a b, s = a +:+ strip s +:+ b.
Proof.
  unfold strip. destruct (lstrip_suffix s) as [a Ha].
  destruct (rstrip_prefix (lstrip s)) as [b Hb].
  exists a, b. by rewrite <- Hb.
Qed.

(** [strip] adds no character. *)
Lemma strip_no_char (x : ascii) s :
  contains (String x "") s = false → contains (String x "") (strip s) = false.
Proof.
  intros H. destruct (contains (String x "") (strip s)) eqn:E; [|done].
  destruct (strip_infix s) as (a & b & Hs).
  rewrite Hs, (StrFacts.contains_infix _ a _ b E) in H. done.
Qed.

Lemma before_bar_no_bar s : contains "|" (before_bar s) = false.
Proof.
  induction s as [|c s IH]; [done|]. simpl.
  destruct (Ascii.eqb c "|") eqn:E; [done|].
  rewrite contains_char_cons, IH, orb_false_r.
  rewrite Ascii.eqb_sym. done.
Qed.

Lemma before_bar_app fid t :
  contains "|" fid = false → before_bar (fid +:+ String "|" t) = fid.
Proof.
  induction fid as [|c fid IH]; [done|].
  rewrite contains_char_cons. intros [Hc Hf]%orb_false_elim.
  rewrite StrFacts.append_cons. simpl.
  rewrite Ascii.eqb_sym, Hc. by rewrite IH.
Qed.

Lemma clean_id_spec uid :
  clean_id uid = true ↔
  truthy uid = true ∧ contains "|" uid = false ∧ strip uid = uid.
Proof.
  unfold clean_id.
  rewrite !andb_true_iff, negb_true_iff, String.eqb_eq. tauto.
Qed.

(** The identifier read back from a line of the dump. *)
Lemma uid_of_item fid name :
  clean_id fid = true →
  truthy (strip (Dump.item_of fid name)) = true ∧
  strip (before_bar (strip (Dump.item_of fid name))) = fid.
Proof.
  intros (Ht & Hbar & Hs)%clean_id_spec.
  destruct (strip_head fid) as [He|(c & t & He & Hc)];
    rewrite Hs in He; subst fid; [done|].
  unfold Dump.item_of, strip.
  rewrite StrFacts.append_cons, lstrip_keep by done.
  rewrite <- StrFacts.append_cons.
  change ("|" +:+ name) with (String "|" name).
  rewrite rstrip_app_keep by done. split; [done|].
  rewrite before_bar_app by done. apply Hs.
Qed.

End StripFacts.

Module InputProps.
Import PyStr Inputs StripFacts Dump DumpSpec.

Lemma uid_list_loop_items acc (recs : list (string * string)) rest :
  Forall (fun r => clean_id r.1 = true) recs →
  uid_list_loop acc (map (fun r => item_of r.1 r.2) recs ++ "" :: rest) =
  Some (acc ++ map fst recs, rest).
Proof.
  intros H. revert acc. induction H as [|r recs Hr _ IH]; intros acc.
  - simpl. by rewrite app_nil_r.
  - cbn [map app uid_list_loop].
    destruct (uid_of_item r.1 r.2 Hr) as [-> ->].
    apply clean_id_spec in Hr as (-> & _). cbn [negb].
    rewrite IH. by rewrite <- app_assoc.
Qed.

Lemma lines_as_items (l : list string) :
  Forall (fun x => ∃ fid name, x = item_of fid name ∧ clean_id fid = true) l →
  ∃ recs : list (string * string),
    l = map (fun r => item_of r.1 r.2) recs ∧
    Forall (fun r => clean_id r.1 = true) recs.
Proof.
  induction 1 as [|x l (fid & name & -> & Hc) _ (recs & -> & IH)].
  - by exists [].
  - exists ((fid, name) :: recs). split; [done|]. by constructor.
Qed.

(** X12.  The main file of a dump can be pasted back as a list of
    identifiers.  For lines [id|name] whose ids are not empty, hold no bar
    and have no white space at either end, [_get_uid_list] reads up to the
    first empty line and returns the ids, in order, whatever the names
    are.  The main file of a dump, new with the call, whose lines hold no
    line boundary, reaches [input()] line by line as it was written; when
    the answers hold such ids only, pasting it and pressing Enter returns
    one identifier for each line written. *)
Theorem uid_list_round_trip :
  (∀ (recs : list (string * string)) rest,
     Forall (fun r => clean_id r.1 = true) recs →
     _get_uid_list (map (fun r => item_of r.1 r.2) recs ++ "" :: rest) =
     Some (map fst recs, rest)) ∧
  (∀ net a uids uf sep recursive rest,
     let r := dump_friends net a uids uf sep recursive in
     let text := fst (DumpText.dump_texts net a uids uf sep recursive) in
     (∀ fr fid, fr ∈ records (phase2_answers net a uids recursive) →
                f_id fr = Some fid → clean_id fid = true) →
     Forall (fun x => Text.single_line x = true) (main_lines r) →
     Text.input_lines text = main_lines r ∧
     ∃ ids,
       _get_uid_list (Text.input_lines text ++ "" :: rest) = Some (ids, rest) ∧
       Forall2 (fun uid line => ∃ name, line = item_of uid name)
               ids (main_lines r)).
Proof.
  split.
  - intros recs rest H. unfold _get_uid_list.
    by rewrite uid_list_loop_items.
  - intros net a uids uf sep recursive rest. cbv zeta. intros Hclean Hsingle.
    rewrite DumpTextFacts.dump_texts_lines. cbn [fst].
    rewrite TextFacts.input_lines_lines_text by done. split; [done|].
    destruct (DumpClaims.dump_friends_written net a uids uf sep recursive)
      as (_ & _ & HM & _).
    destruct (lines_as_items (main_lines (dump_friends net a uids uf sep recursive)))
      as (recs & Heq & Hrecs).
    { apply Forall_forall. intros x (fr & Hin & Hc)%HM.
      unfold classify in Hc. destruct (f_id fr) as [fid|] eqn:Hid; [|done].
      injection Hc as _ <-. exists fid, (default "Unknown" (f_name fr)).
      split; [done|]. by eapply Hclean. }
    exists (map fst recs). rewrite Heq. split.
    + unfold _get_uid_list. by rewrite uid_list_loop_items.
    + clear. induction recs as [|r recs IH]; constructor; [by exists r.2|done].
Qed.

(** Two lines with any names, and the main file of the dump of the two
    seeds, pasted back. *)
Lemma uid_list_round_trip_witness :
  _get_uid_list ["7|Ann"; "100055|Cy Mo "; ""; "8|Bo"] =
    Some (["7"; "100055"], ["8|Bo"]) ∧
  ∃ ids,
    _get_uid_list
      (Text.input_lines
         (fst (DumpText.dump_texts Scenario.net2 Scenario.alice
                 Scenario.seeds2 true None false)) ++ [""]) = Some (ids, []) ∧
    length ids = 3.
Proof.
  split.
  - apply (proj1 uid_list_round_trip [("7", "Ann"); ("100055", "Cy Mo ")]
             ["8|Bo"]).
    repeat constructor.
  - destruct (proj2 uid_list_round_trip Scenario.net2 Scenario.alice
                Scenario.seeds2 true None false [])
      as (_ & ids & Hids & Hall).
    + intros fr fid Hin Hid. apply list_elem_of_In in Hin. vm_compute in Hin.
      repeat (destruct Hin as [<-|Hin]); try done;
        simpl in Hid; try discriminate; injection Hid as <-; reflexivity.
    + repeat constructor.
    + exists ids. split; [exact Hids|].
      apply Forall2_length in Hall. rewrite Hall. reflexivity.
Defined.

(** A name that holds a line feed: the file reaches [input()] as two
    lines, and the second one gives an identifier that no answer held. *)
Example uid_list_line_break :
  _get_uid_list
    (Text.input_lines
       (fst (DumpText.dump_texts Samples.net_break Scenario.alice ["1"]
               false None false)) ++ [""]) = Some (["7"; "Bo"], []).
Proof. vm_compute. reflexivity. Qed.

Lemma before_bar_id s : contains "|" s = false → before_bar s = s.
Proof.
  induction s as [|c s IH]; [done|].
  rewrite contains_char_cons. intros [Hc Hs]%orb_false_elim. simpl.
  by rewrite Ascii.eqb_sym, Hc, IH.
Qed.

(** What both readers make of a line. *)
Lemma read_uid_shape raw :
  let uid := strip (before_bar (strip raw)) in
  contains "|" uid = false ∧ strip uid = uid.
Proof.
  split; [|apply strip_idemp].
  apply (strip_no_char "|"), before_bar_no_bar.
Qed.

Lemma uid_list_loop_spec typed : ∀ acc uids rest,
  uid_list_loop acc typed = Some (uids, rest) →
  ∃ read raw,
    typed = read ++ raw :: rest ∧ strip raw = "" ∧
    Forall (fun l => strip l ≠ "") read ∧
    uids = acc ++ List.filter truthy
                    (map (fun l => strip (before_bar (strip l))) read).
Proof.
  induction typed as [|raw typed IH]; intros acc uids rest; [done|].
  cbn [uid_list_loop].
  destruct (truthy (strip raw)) eqn:Ht; cbn [negb].
  - intros (read & raw' & -> & Hb & Hread & ->)%IH.
    exists (raw :: read), raw'. split_and!; try done.
    + constructor; [by apply CandidateFacts.truthy_ne|done].
    + cbn [map List.filter].
      destruct (truthy (strip (before_bar (strip raw)))); [|done].
      by rewrite <- app_assoc.
  - intros [= <- <-]. exists [], raw. split_and!; try done.
    + destruct (strip raw); [done|discriminate].
    + by rewrite app_nil_r.
Qed.

Lemma uid_list_loop_none typed : ∀ acc,
  uid_list_loop acc typed = None ↔ Forall (fun l => strip l ≠ "") typed.
Proof.
  induction typed as [|raw typed IH]; intros acc; [done|].
  cbn [uid_list_loop]. rewrite Forall_cons.
  destruct (truthy (strip raw)) eqn:Ht; cbn [negb].
  - rewrite IH. apply CandidateFacts.truthy_ne in Ht. tauto.
  - split; [done|]. intros [Hne _].
    apply CandidateFacts.truthy_ne in Hne. congruence.
Qed.

Lemma numbered_loop_spec n : ∀ acc typed,
  (numbered_loop n acc typed = None ↔ length typed < n) ∧
  (∀ uids rest, numbered_loop n acc typed = Some (uids, rest) →
     uids = acc ++ map (fun l => strip (before_bar (strip l))) (take n typed) ∧
     rest = drop n typed).
Proof.
  induction n as [|n IH]; intros acc typed.
  - split; [split; [done|lia]|]. intros uids rest [= <- <-].
    by rewrite take_0, drop_0, app_nil_r.
  - destruct typed as [|raw typed]; cbn [numbered_loop].
    + split; [split; [simpl; lia|done]|done].
    + destruct (IH (acc ++ [strip (if contains "|" (_get_input raw)
                                    then before_bar (_get_input raw)
                                    else _get_input raw)]) typed)
        as [Hnone Hsome].
      split; [rewrite Hnone; simpl; lia|].
      intros uids rest [-> ->]%Hsome. split; [|done].
      rewrite <- app_assoc. cbn [take map app]. do 3 f_equal.
      unfold _get_input.
      destruct (contains "|" (strip raw)) eqn:E; [done|].
      by rewrite before_bar_id.
Qed.

(** X13.  What the two readers of identifiers return.  [_get_uid_list]
    reads up to the first blank line and fails exactly when there is none;
    every identifier it returns is not empty, holds no bar and has no white
    space at either end, and there is at most one for each line read.
    [_get_uids_numbered] reads exactly [count] lines and fails exactly when
    fewer are there; it returns one identifier for each line, free of bars
    and of outer white space, but it keeps the empty ones. *)
Theorem uid_readers_spec (typed : list string) :
  (_get_uid_list typed = None ↔ Forall (fun l => strip l ≠ "") typed) ∧
  (∀ uids rest, _get_uid_list typed = Some (uids, rest) →
     (∃ read raw,
        typed = read ++ raw :: rest ∧ strip raw = "" ∧
        Forall (fun l => strip l ≠ "") read ∧
        uids = List.filter truthy
                 (map (fun l => strip (before_bar (strip l))) read)) ∧
     Forall (fun u => clean_id u = true) uids ∧
     length uids + length rest < length typed) ∧
  (∀ count, _get_uids_numbered count typed = None ↔
            length typed < Z.to_nat count) ∧
  (∀ count uids rest, _get_uids_numbered count typed = Some (uids, rest) →
     uids = map (fun l => strip (before_bar (strip l)))
              (take (Z.to_nat count) typed) ∧
     rest = drop (Z.to_nat count) typed ∧
     length uids = Z.to_nat count ∧
     Forall (fun u => contains "|" u = false ∧ strip u = u) uids).
Proof.
  split_and!.
  - apply uid_list_loop_none.
  - intros uids rest (read & raw & -> & Hb & Hread & Hu)%uid_list_loop_spec.
    simpl in Hu. split_and!.
    + by exists read, raw.
    + subst uids. apply Forall_forall. intros u Hu%list_elem_of_In.
      apply filter_In in Hu as [Hin Ht].
      apply in_map_iff in Hin as (l & <- & _).
      apply clean_id_spec. split; [done|]. apply read_uid_shape.
    + subst uids. rewrite length_app. simpl.
      pose proof (filter_length_le truthy
                    (map (fun l => strip (before_bar (strip l))) read)) as Hle.
      rewrite length_map in Hle. lia.
  - intros count. apply (numbered_loop_spec _ [] typed).
  - intros count uids rest H.
    destruct (proj2 (numbered_loop_spec _ [] typed) _ _ H) as [Hu Hr].
    simpl in Hu. split_and!; try done.
    + subst uids. rewrite length_map, length_take.
      destruct (Nat.le_gt_cases (Z.to_nat count) (length typed)) as [|Hlt];
        [lia|].
      apply (proj1 (numbered_loop_spec _ [] typed)) in Hlt.
      unfold _get_uids_numbered in H. congruence.
    + subst uids. apply Forall_forall. intros u Hu%list_elem_of_In.
      apply in_map_iff in Hu as (l & <- & _). apply read_uid_shape.
Qed.

(** The two readers on the same lines: the second keeps the empty
    identifier of the line that holds a name only. *)
Example uid_readers_differ :
  _get_uid_list [" 7 |Ann"; "|Bo"; "9"; ""] = Some (["7"; "9"], []) ∧
  _get_uids_numbered 3 [" 7 |Ann"; "|Bo"; "9"; ""] = Some (["7"; ""; "9"], [""]).
Proof. split; reflexivity. Qed.

Lemma extract_uid_from_url_found svc n url uid :
  fst (extract_uid_from_url svc n url) = Some uid →
  truthy uid = true ∧
  ∃ data, svc n url = Some data ∧ ud_status data = Some "success" ∧
          ud_user_id data = Some uid.
Proof.
  unfold extract_uid_from_url.
  destruct (startswith url facebook_prefix); [|done]. cbn [negb].
  destruct (svc n url) as [data|]; [|done].
  destruct (bool_decide (ud_status data = Some "success")) eqn:Hs; [|done].
  apply bool_decide_eq_true in Hs.
  destruct (opt_truthy (ud_user_id data)) eqn:Ht; [|done].
  cbn [andb fst]. intros Hu. rewrite Hu in Ht. eauto.
Qed.

Lemma extract_uid_from_url_posted svc n url :
  snd (extract_uid_from_url svc n url) =
  if startswith url facebook_prefix then [url] else [].
Proof.
  unfold extract_uid_from_url.
  destruct (startswith url facebook_prefix); [|done]. cbn [negb].
  destruct (svc n url) as [data|]; [|done].
  by destruct (_ && _).
Qed.

Lemma urls_loop_spec svc n : ∀ uids sent typed,
  (urls_loop svc n uids sent typed = None ↔ length typed < n) ∧
  (∀ r, urls_loop svc n uids sent typed = Some r →
     posted r = sent ++ List.filter (fun u => startswith u facebook_prefix)
                          (map strip (take n typed)) ∧
     unread r = drop n typed ∧
     ∃ more, found r = uids ++ more ∧
       length sent + length more ≤ length (posted r) ∧
       Forall (answered svc (posted r) (length sent)) more).
Proof.
  induction n as [|n IH]; intros uids sent typed.
  { split; [split; [done|lia]|]. intros r [= <-]. simpl.
    rewrite app_nil_r.
    split_and!; try done. exists []. rewrite app_nil_r. simpl.
    split_and!; [done|lia|constructor]. }
  destruct typed as [|raw typed]; cbn [urls_loop].
  { split; [split; [simpl; lia|done]|done]. }
  unfold _get_input. cbn [take map List.filter length drop].
  pose proof (extract_uid_from_url_posted svc (length sent) (strip raw)) as Hp.
  pose proof (extract_uid_from_url_found svc (length sent) (strip raw)) as Hf.
  destruct (startswith (strip raw) facebook_prefix) eqn:Hpre; cbn [negb].
  2:{ destruct (IH uids sent typed) as [Hnone Hsome].
      split; [rewrite Hnone; lia|]. apply Hsome. }
  rewrite Hp.
  assert (∀ uids', (uids' = uids ∨ ∃ uid, uids' = uids ++ [uid] ∧
                      fst (extract_uid_from_url svc (length sent) (strip raw))
                        = Some uid) →
            (urls_loop svc n uids' (sent ++ [strip raw]) typed = None ↔
             S (length typed) < S n) ∧
            (∀ r, urls_loop svc n uids' (sent ++ [strip raw]) typed = Some r →
               posted r = sent ++ strip raw ::
                 List.filter (fun u => startswith u facebook_prefix)
                   (map strip (take n typed)) ∧
               unread r = drop n typed ∧
               ∃ more, found r = uids ++ more ∧
                 length sent + length more ≤ length (posted r) ∧
                 Forall (answered svc (posted r) (length sent)) more)) as Hstep.
  { intros uids' Hu.
    destruct (IH uids' (sent ++ [strip raw]) typed) as [Hnone Hsome].
    split; [rewrite Hnone; lia|].
    intros r (Hpost & Hun & more & Hfound & Hlen & Hall)%Hsome.
    rewrite <- app_assoc in Hpost. simpl in Hpost.
    rewrite length_app in Hlen, Hall. simpl in Hlen, Hall.
    split_and!; try done.
    assert (Forall (answered svc (posted r) (length sent)) more) as Hall'.
    { eapply Forall_impl; [exact Hall|].
      intros uid (Ht & k & url & data & Hk & Hrest).
      split; [done|]. exists k, url, data. split; [lia|done]. }
    destruct Hu as [->|(uid & -> & Huid)].
    - exists more. split_and!; try done. lia.
    - exists (uid :: more). rewrite <- app_assoc in Hfound.
      split_and!; try done; [simpl; lia|].
      constructor; [|done].
      destruct (Hf uid Huid) as (Ht & data & Hd & Hs & Hid).
      split; [done|]. exists (length sent), (strip raw), data.
      split_and!; try done.
      rewrite Hpost. by rewrite list_lookup_middle. }
  destruct (fst (extract_uid_from_url svc (length sent) (strip raw)))
    as [uid|] eqn:Hfst.
  - destruct (truthy uid); apply Hstep; eauto.
  - apply Hstep; eauto.
Qed.

(** X14.  [_get_urls_to_uids] reads exactly [count] lines and fails
    exactly when fewer are there.  It posts the URLs that start with
    [https://www.facebook.com/], in the order typed, one request each, and
    sends nothing for the others.  Every identifier it returns is not
    empty and is the user id of a successful answer to one of these
    requests; there are at most as many as requests. *)
Theorem urls_to_uids_spec (svc : uid_service) (count : Z)
    (typed : list string) :
  (_get_urls_to_uids svc count typed = None ↔
   length typed < Z.to_nat count) ∧
  (∀ r, _get_urls_to_uids svc count typed = Some r →
     posted r = List.filter (fun u => startswith u facebook_prefix)
                  (map strip (take (Z.to_nat count) typed)) ∧
     unread r = drop (Z.to_nat count) typed ∧
     length (found r) ≤ length (posted r) ∧
     Forall (answered svc (posted r) 0) (found r)) ∧
  (∀ n url, startswith url facebook_prefix = false →
     extract_uid_from_url svc n url = (None, [])).
Proof.
  unfold _get_urls_to_uids.
  destruct (urls_loop_spec svc (Z.to_nat count) [] [] typed) as [Hnone Hsome].
  split_and!; [done| |].
  - intros r (Hp & Hu & more & Hf & Hlen & Hall)%Hsome.
    simpl in *. subst more. done.
  - intros n url Hpre. unfold extract_uid_from_url. by rewrite Hpre.
Qed.

(** Three rounds: a profile that is known, a line that is no profile URL
    and a profile that is not known. *)
Example urls_to_uids_three_rounds :
  _get_urls_to_uids InputSamples.svc1 3
    [" https://www.facebook.com/ann "; "facebook.com/ann";
     "https://www.facebook.com/bob"; "7"] =
  Some (mk_urls ["7"]
          ["https://www.facebook.com/ann"; "https://www.facebook.com/bob"]
          ["7"]).
Proof. reflexivity. Qed.

End InputProps.

(** ** The module-level functions that take the credentials *)

Module CompatProps.
Import Auth Validate ValidateSpec Dump Compat.

Lemma probe_loop_sent probes a test_uids : ∀ n blocked log,
  Forall (fun q => ∃ uid, q = ReqFriends uid (fmt (_token a)) (fmt (_cookie a)))
         log →
  Forall (fun q => ∃ uid, q = ReqFriends uid (fmt (_token a)) (fmt (_cookie a)))
         (v_sent (probe_loop probes a test_uids n blocked log)).
Proof.
  induction test_uids as [|uid rest IH]; intros n blocked log Hlog; [done|].
  rewrite ValidateClaims.probe_loop_cons. cbv zeta.
  destruct (PyStr.truthy (PyStr.strip uid)); [|by apply IH].
  assert (Forall (fun q => ∃ uid, q = ReqFriends uid (fmt (_token a))
                                      (fmt (_cookie a)))
            (log ++ probe_requests a [PyStr.strip uid])) as Hlog'.
  { apply Forall_app. split; [done|]. repeat constructor. eauto. }
  destruct (verdict_of _); simpl; auto.
Qed.

Lemma requests_for_carry a uids :
  Forall (fun q => ∃ uid, q = ReqFriends uid (fmt (_token a)) (fmt (_cookie a)))
         (requests_for a uids).
Proof. unfold requests_for. apply Forall_fmap, Forall_true. simpl. eauto. Qed.

Lemma dump_friends_carry net a uids uf sep recursive :
  Forall (fun q => ∃ uid, q = ReqFriends uid (fmt (_token a)) (fmt (_cookie a)))
         (issued (dump_friends net a uids uf sep recursive)).
Proof.
  unfold dump_friends. destruct (is_logged_in a); simpl; [|done].
  destruct (nonempty (phase1 (gather net 0 uids))); simpl.
  - apply Forall_app. split; apply requests_for_carry.
  - apply requests_for_carry.
Qed.

(** X15.  The module-level [validate_login], [dump_unlimited] and
    [dump_simple] work on the credentials they are given and do not store
    them.  Every request they send carries the token and the cookie
    passed; afterwards the object holds these, while the token and the
    cookie of the session store are what they were, so that an object
    created anew over the store has the stored ones again.  With an empty
    token or an empty cookie nothing is sent and the results are
    [(False, [])], [(0, 0)] and [0]. *)
Theorem compat_credentials_not_stored file probes net (a : api)
    (token cookie : string) (uids : list string) uf sep :
  let v := validate_login_alias file probes a token cookie in
  let d := dump_unlimited_alias net a uids token cookie uf sep in
  let s := dump_simple_alias net a uids token cookie in
  (Forall (fun q => ∃ uid, q = ReqFriends uid token cookie) (v_sent v) ∧
   Forall (fun q => ∃ uid, q = ReqFriends uid token cookie) (issued (snd d)) ∧
   Forall (fun q => ∃ uid, q = ReqFriends uid token cookie)
          (issued (snd (snd s)))) ∧
  (_token (v_after v) = Some token ∧ _cookie (v_after v) = Some cookie ∧
   fst d = set_fields token cookie a ∧ fst s = set_fields token cookie a) ∧
  (sess_token (_config (v_after v)) = sess_token (_config a) ∧
   sess_cookie (_config (v_after v)) = sess_cookie (_config a) ∧
   _token (_load_session (_config (v_after v))) = sess_token (_config a) ∧
   _cookie (_load_session (_config (v_after v))) = sess_cookie (_config a) ∧
   _load_session (_config (fst d)) = _load_session (_config a) ∧
   _load_session (_config (fst s)) = _load_session (_config a)) ∧
  (token = "" ∨ cookie = "" →
   v_result v = (false, []) ∧ v_sent v = [] ∧
   returned (snd d) = (0, 0) ∧ issued (snd d) = [] ∧
   fst (snd s) = 0 ∧ issued (snd (snd s)) = []).
Proof.
  cbv zeta.
  unfold validate_login_alias, dump_unlimited_alias, dump_simple_alias,
    dump_unlimited, dump_simple.
  cbn [fst snd].
  set (a' := set_fields token cookie a).
  assert (validate_login file probes a' =
            mk_validation a' [] (v_result (validate_login file probes a')) false ∨
          ∃ test_uids, validate_login file probes a' =
            probe_loop probes a' test_uids 0 false []) as Hv.
  { unfold validate_login. destruct (is_logged_in a'); simpl; [|by left].
    destruct file as [| |test_uids]; [by left|by left|].
    destruct (nonempty test_uids); simpl; [right; eauto|by left]. }
  split_and!.
  - destruct Hv as [->|[test_uids ->]]; [done|].
    by apply (probe_loop_sent probes a').
  - apply (dump_friends_carry net a').
  - apply (dump_friends_carry net a').
  - destruct Hv as [->|[test_uids ->]]; [done|].
    by destruct (LoginProps.probe_loop_saves probes a' test_uids 0 false [])
      as [[_ ->]|(ids & _ & _ & ->)].
  - destruct Hv as [->|[test_uids ->]]; [done|].
    by destruct (LoginProps.probe_loop_saves probes a' test_uids 0 false [])
      as [[_ ->]|(ids & _ & _ & ->)].
  - done.
  - done.
  - destruct Hv as [->|[test_uids ->]]; [done|].
    by destruct (LoginProps.probe_loop_saves probes a' test_uids 0 false [])
      as [[_ ->]|(ids & _ & _ & ->)].
  - destruct Hv as [->|[test_uids ->]]; [done|].
    by destruct (LoginProps.probe_loop_saves probes a' test_uids 0 false [])
      as [[_ ->]|(ids & _ & _ & ->)].
  - destruct Hv as [->|[test_uids ->]]; [done|].
    by destruct (LoginProps.probe_loop_saves probes a' test_uids 0 false [])
      as [[_ ->]|(ids & _ & _ & ->)].
  - destruct Hv as [->|[test_uids ->]]; [done|].
    by destruct (LoginProps.probe_loop_saves probes a' test_uids 0 false [])
      as [[_ ->]|(ids & _ & _ & ->)].
  - done.
  - done.
  - intros Hempty.
    assert (is_logged_in a' = false) as Hl.
    { unfold is_logged_in, a'. simpl.
      destruct Hempty as [-> | ->]; [done|]. apply andb_false_r. }
    unfold validate_login, dump_friends. rewrite Hl. done.
Qed.

End CompatProps.

(** ** Cookie strings *)

Module CookieProps.
Import PyStr Cookies StripFacts.

Lemma split_char_no_sep (sep : ascii) s :
  contains (String sep "") s = false → split_char sep s = [s].
Proof.
  induction s as [|c s IH]; [done|].
  rewrite contains_char_cons. intros [Hc Hs]%orb_false_elim. simpl.
  rewrite Ascii.eqb_sym, Hc. by rewrite IH.
Qed.

Lemma split_char_app (sep : ascii) a b :
  contains (String sep "") a = false →
  split_char sep (a +:+ String sep b) = a :: split_char sep b.
Proof.
  induction a as [|c a IH].
  - intros _. rewrite StrFacts.append_nil_l. simpl. by rewrite Ascii.eqb_refl.
  - rewrite contains_char_cons. intros [Hc Ha]%orb_false_elim.
    rewrite StrFacts.append_cons. simpl.
    rewrite Ascii.eqb_sym, Hc. by rewrite IH.
Qed.

Lemma split_once_app (sep : ascii) k v :
  contains (String sep "") k = false →
  split_once sep (k +:+ String sep v) = (k, v).
Proof.
  induction k as [|c k IH].
  - intros _. rewrite StrFacts.append_nil_l. simpl. by rewrite Ascii.eqb_refl.
  - rewrite contains_char_cons. intros [Hc Hk]%orb_false_elim.
    rewrite StrFacts.append_cons. simpl.
    rewrite Ascii.eqb_sym, Hc. by rewrite IH.
Qed.

(** Every piece of a text without the character [x] is without it. *)
Lemma split_char_pieces (sep x : ascii) s :
  contains (String x "") s = false →
  Forall (fun p => contains (String x "") p = false) (split_char sep s).
Proof.
  induction s as [|c s IH]; [by repeat constructor|].
  rewrite contains_char_cons. intros [Hc Hs]%orb_false_elim. simpl.
  specialize (IH Hs).
  destruct (Ascii.eqb c sep); [by constructor|].
  destruct (split_char sep s) as [|p ps].
  - repeat constructor. by rewrite contains_char_cons, Hc.
  - apply Forall_cons in IH as [Hp Hps]. constructor; [|done].
    by rewrite contains_char_cons, Hc.
Qed.

Lemma plain_key_spec k :
  plain_key k = true ↔
  contains ";" k = false ∧ contains "=" k = false ∧ lstrip k = k.
Proof.
  unfold plain_key.
  rewrite !andb_true_iff, !negb_true_iff, String.eqb_eq. tauto.
Qed.

Lemma plain_value_spec v :
  plain_value v = true ↔ contains ";" v = false ∧ rstrip v = v.
Proof.
  unfold plain_value.
  rewrite !andb_true_iff, !negb_true_iff, String.eqb_eq. tauto.
Qed.

(** [strip] returns a plain pair as it is. *)
Lemma strip_pair k v :
  lstrip k = k → rstrip v = v →
  strip (k +:+ String "=" v) = k +:+ String "=" v.
Proof.
  intros Hk Hv. unfold strip.
  assert (lstrip (k +:+ String "=" v) = k +:+ String "=" v) as ->.
  { destruct (lstrip_head k) as [He|(c & t & He & Hc)]; rewrite Hk in He;
      subst k; [done|].
    rewrite StrFacts.append_cons. by apply lstrip_keep. }
  rewrite rstrip_app_keep by done. by rewrite Hv.
Qed.

(** One piece of the cookie string, with or without a space in front. *)
Lemma parse_cookie_pair m (space : bool) k v :
  plain_key k = true → plain_value v = true →
  parse_cookie m ((if space then " " else "") +:+ k +:+ String "=" v) =
  <[k := v]> m.
Proof.
  intros (_ & Hke & Hk)%plain_key_spec (_ & Hv)%plain_value_spec.
  unfold parse_cookie.
  rewrite !contains_char_app, contains_char_cons, Ascii.eqb_refl.
  rewrite orb_true_r, orb_true_r.
  assert (strip ((if space then " " else "") +:+ k +:+ String "=" v) =
          k +:+ String "=" v) as ->.
  { destruct space; [|by rewrite StrFacts.append_nil_l, strip_pair].
    rewrite <- (strip_pair k v) at 2 by done. done. }
  by rewrite split_once_app.
Qed.

Lemma pair_no_semicolon k v :
  plain_key k = true → plain_value v = true →
  ∀ space : bool,
    contains ";" ((if space then " " else "") +:+ k +:+ String "=" v) = false.
Proof.
  intros (Hk & _)%plain_key_spec (Hv & _)%plain_value_spec space.
  rewrite !contains_char_app, contains_char_cons, Hk, Hv.
  by destruct space.
Qed.

Lemma cookie_text_cons kv kv' rest :
  cookie_text (kv :: kv' :: rest) =
  (fst kv +:+ String "=" (snd kv)) +:+
  String ";" (" " +:+ cookie_text (kv' :: rest)).
Proof.
  change (cookie_text (kv :: kv' :: rest))
    with (fst kv +:+ "=" +:+ snd kv +:+ "; " +:+ cookie_text (kv' :: rest)).
  rewrite !StrFacts.append_cons, !StrFacts.append_nil_l.
  by rewrite StrFacts.append_assoc, StrFacts.append_cons.
Qed.

Lemma parse_cookie_text pairs : ∀ m (space : bool),
  Forall (fun kv => plain_key kv.1 = true ∧ plain_value kv.2 = true) pairs →
  foldl parse_cookie m
    (split_char ";" ((if space then " " else "") +:+ cookie_text pairs)) =
  foldl (fun m kv => <[kv.1 := kv.2]> m) m pairs.
Proof.
  induction pairs as [|kv rest IH]; intros m space Hall.
  - by destruct space.
  - apply Forall_cons in Hall as [[Hk Hv] Hall].
    destruct rest as [|kv' rest].
    + change (cookie_text [kv]) with (fst kv +:+ "=" +:+ snd kv).
      rewrite StrFacts.append_cons, StrFacts.append_nil_l.
      rewrite split_char_no_sep by by apply pair_no_semicolon.
      simpl. by rewrite parse_cookie_pair.
    + rewrite cookie_text_cons, <- StrFacts.append_assoc.
      rewrite split_char_app by by apply pair_no_semicolon.
      cbn [foldl]. rewrite parse_cookie_pair by done.
      apply (IH _ true Hall).
Qed.

Lemma foldl_insert_snoc (m : gmap string string) pairs kv :
  foldl (fun m kv => <[kv.1 := kv.2]> m) m (pairs ++ [kv]) =
  <[kv.1 := kv.2]> (foldl (fun m kv => <[kv.1 := kv.2]> m) m pairs).
Proof. by rewrite foldl_app. Qed.

(** Of the pairs with the same key the last one is kept; the keys of no
    pair keep what the map held. *)
Lemma foldl_insert_lookup (m : gmap string string) pairs k :
  (k ∉ map fst pairs →
   foldl (fun m kv => <[kv.1 := kv.2]> m) m pairs !! k = m !! k) ∧
  (∀ before v after, pairs = before ++ (k, v) :: after →
     k ∉ map fst after →
     foldl (fun m kv => <[kv.1 := kv.2]> m) m pairs !! k = Some v).
Proof.
  split.
  - revert m. induction pairs as [|kv rest IH]; intros m Hk; [done|].
    simpl in *. apply not_elem_of_cons in Hk as [Hne Hk].
    rewrite IH by done. by rewrite lookup_insert_ne.
  - intros before v after -> Hafter. rewrite foldl_app. simpl.
    revert Hafter. generalize (foldl (fun m kv => <[kv.1 := kv.2]> m) m before).
    intros m0. revert m0.
    induction after as [|kv after IH] using rev_ind; intros m0 Hafter.
    + simpl. by rewrite lookup_insert_eq.
    + rewrite map_app in Hafter. apply not_elem_of_app in Hafter as [Ha Hkv].
      rewrite foldl_insert_snoc. simpl in Hkv.
      apply not_elem_of_cons in Hkv as [Hne _].
      rewrite lookup_insert_ne by done. by apply IH.
Qed.

(** X16.  [parse_cookies] reads back a cookie string in the usual form.
    For pairs whose keys hold no semicolon, no equals sign and no white
    space in front, and whose values hold no semicolon and no white space
    at the end, the string [k1=v1; k2=v2; ...] is parsed to the map that
    holds, for each key, the value of its last pair, and nothing for any
    other key.  A string without an equals sign is parsed to the empty
    map. *)
Theorem parse_cookies_round_trip :
  (∀ pairs : list (string * string),
     Forall (fun kv => plain_key kv.1 = true ∧ plain_value kv.2 = true) pairs →
     parse_cookies (cookie_text pairs) =
       foldl (fun m kv => <[kv.1 := kv.2]> m) ∅ pairs ∧
     (∀ before k v after, pairs = before ++ (k, v) :: after →
        k ∉ map fst after → parse_cookies (cookie_text pairs) !! k = Some v) ∧
     (∀ k, k ∉ map fst pairs → parse_cookies (cookie_text pairs) !! k = None)) ∧
  (∀ cookie_str, contains "=" cookie_str = false →
     parse_cookies cookie_str = ∅).
Proof.
  split.
  - intros pairs Hall.
    assert (parse_cookies (cookie_text pairs) =
            foldl (fun m kv => <[kv.1 := kv.2]> m) ∅ pairs) as Heq.
    { unfold parse_cookies.
      rewrite <- (parse_cookie_text pairs ∅ false Hall).
      by rewrite StrFacts.append_nil_l. }
    rewrite Heq. split_and!; [done| |].
    + intros before k v after. apply foldl_insert_lookup.
    + intros k Hk. by rewrite (proj1 (foldl_insert_lookup ∅ pairs k) Hk).
  - intros cookie_str Hno. unfold parse_cookies.
    pose proof (split_char_pieces ";" "=" cookie_str Hno) as Hall.
    generalize (∅ : gmap string string).
    induction Hall as [|p ps Hp _ IH]; intros m; [done|].
    simpl. unfold parse_cookie at 2. rewrite Hp. apply IH.
Qed.

(** Three pairs, the first key twice. *)
Lemma parse_cookies_round_trip_witness :
  parse_cookies "c_user=1; xs=a=b; c_user=2" !! "c_user" = Some "2" ∧
  parse_cookies "c_user=1; xs=a=b; c_user=2" !! "xs" = Some "a=b" ∧
  parse_cookies "c_user=1; xs=a=b; c_user=2" !! "sb" = None.
Proof.
  assert (Forall (fun kv : string * string =>
                    plain_key kv.1 = true ∧ plain_value kv.2 = true)
            [("c_user", "1"); ("xs", "a=b"); ("c_user", "2")]) as Hall
    by (repeat constructor).
  destruct (proj1 parse_cookies_round_trip _ Hall) as (_ & Hlast & Hnone).
  split_and!.
  - apply (Hlast [("c_user", "1"); ("xs", "a=b")] "c_user" "2" []); [done|].
    apply not_elem_of_nil.
  - apply (Hlast [("c_user", "1")] "xs" "a=b" [("c_user", "2")]); [done|].
    simpl. rewrite list_elem_of_singleton. discriminate.
  - apply Hnone. simpl. rewrite !elem_of_cons, elem_of_nil.
    intros [?|[?|[?|[]]]]; discriminate.
Defined.

(** [lstrip] and [rstrip] remove white space only. *)
Lemma lstrip_keeps_char (x : ascii) s :
  is_space x = false →
  contains (String x "") (lstrip s) = contains (String x "") s.
Proof.
  intros Hx. induction s as [|c s IH]; [done|]. simpl lstrip.
  destruct (is_space c) eqn:Hc; [|done].
  rewrite contains_char_cons, IH.
  destruct (Ascii.eqb_spec x c) as [->|_]; [congruence|done].
Qed.

Lemma rstrip_keeps_char (x : ascii) s :
  is_space x = false →
  contains (String x "") (rstrip s) = contains (String x "") s.
Proof.
  intros Hx. induction s as [|c s IH]; [done|].
  rewrite rstrip_cons, (contains_char_cons x c s), <- IH.
  destruct (rstrip s) as [|d r].
  - rewrite contains_char_nil, orb_false_r.
    destruct (is_space c) eqn:Hc.
    + destruct (Ascii.eqb_spec x c) as [->|_]; [congruence|done].
    + by rewrite contains_char_cons, contains_char_nil, orb_false_r.
  - by rewrite (contains_char_cons x c).
Qed.

Lemma strip_keeps_char (x : ascii) s :
  is_space x = false →
  contains (String x "") (strip s) = contains (String x "") s.
Proof.
  intros Hx. unfold strip.
  by rewrite rstrip_keeps_char, lstrip_keeps_char.
Qed.

(** A text that holds the separator is the two parts of [split_once] with
    the separator between them. *)
Lemma split_once_spec (sep : ascii) s :
  contains (String sep "") s = true →
  s = fst (split_once sep s) +:+ String sep (snd (split_once sep s)).
Proof.
  induction s as [|c s IH]; [done|].
  rewrite contains_char_cons. simpl.
  destruct (Ascii.eqb_spec c sep) as [->|Hne].
  - intros _. by rewrite StrFacts.append_nil_l.
  - destruct (Ascii.eqb_spec sep c) as [->|_]; [done|]. simpl.
    intros Hs. rewrite StrFacts.append_cons. f_equal. by apply IH.
Qed.

Lemma split_char_first (sep : ascii) s :
  ∃ p ps b, split_char sep s = p :: ps ∧ s = p +:+ b.
Proof.
  induction s as [|c s (p & ps & b & Heq & Hs)].
  - by exists "", [], "".
  - simpl. destruct (Ascii.eqb c sep).
    + by exists "", (split_char sep s), (String c s).
    + rewrite Heq. exists (String c p), ps, b. split; [done|].
      by rewrite StrFacts.append_cons, <- Hs.
Qed.

(** Every piece is a part of the text. *)
Lemma split_char_infix (sep : ascii) s p :
  p ∈ split_char sep s → ∃ a b, s = a +:+ p +:+ b.
Proof.
  revert p. induction s as [|c s IH]; intros p.
  - simpl. intros ->%list_elem_of_singleton. by exists "", "".
  - simpl. destruct (Ascii.eqb c sep).
    + intros [->|Hin]%elem_of_cons.
      * by exists "", (String c s).
      * destruct (IH p Hin) as (a & b & ->). by exists (String c a), b.
    + destruct (split_char_first sep s) as (q & qs & b & Heq & Hs).
      rewrite Heq in IH |- *. intros [->|Hin]%elem_of_cons.
      * exists "", b. by rewrite StrFacts.append_nil_l, StrFacts.append_cons, <- Hs.
      * destruct (IH p) as (a & b' & ->); [by right|].
        by exists (String c a), b'.
Qed.

(** A piece without the text [sb=] leaves the key [sb] alone. *)
Lemma parse_cookie_other_key p :
  contains "sb=" p = false →
  (∀ m, parse_cookie m p = m) ∨
  (∃ k v, k ≠ "sb" ∧ ∀ m, parse_cookie m p = <[k := v]> m).
Proof.
  intros Hsb. unfold parse_cookie.
  destruct (contains "=" p) eqn:He; [|by left]. right.
  exists (fst (split_once "=" (strip p))), (snd (split_once "=" (strip p))).
  split; [|done]. intros Hk.
  assert (contains "=" (strip p) = true) as He'
    by (by rewrite strip_keeps_char).
  apply split_once_spec in He'. rewrite Hk in He'.
  destruct (strip_infix p) as (a & b & Hp).
  rewrite Hp, He' in Hsb.
  rewrite (proj2 (StrFacts.contains_iff "sb=" _)) in Hsb; [done|].
  exists a, (snd (split_once "=" (strip p)) +:+ b). reflexivity.
Qed.

(** X17.  The field that [login_with_cookie] adds is the one that
    [validate_login] sends.  For a cookie that does not hold the text
    [sb=], the cookie that a cookie login stores is parsed by
    [parse_cookies] to a map in which the key [sb] has the value
    [By.ShajoN-404.OfficiaL]; every other key has what the cookie as typed
    gives. *)
Theorem parse_cookies_ensure_sb (cookie : string) :
  contains "sb=" cookie = false →
  parse_cookies (Auth.ensure_sb cookie) !! "sb" = Some "By.ShajoN-404.OfficiaL" ∧
  (∀ k, k ≠ "sb" →
     parse_cookies (Auth.ensure_sb cookie) !! k = parse_cookies cookie !! k) ∧
  (∀ rm a, fst (Auth.result (Auth.login_with_cookie rm a cookie)) = true →
     ∃ stored, _cookie (Auth.after (Auth.login_with_cookie rm a cookie)) =
                 Some stored ∧
               parse_cookies stored !! "sb" = Some "By.ShajoN-404.OfficiaL").
Proof.
  intros Hsb.
  assert (Auth.ensure_sb cookie =
          ("sb" +:+ String "=" "By.ShajoN-404.OfficiaL") +:+ String ";" cookie)
    as Hens.
  { unfold Auth.ensure_sb. by rewrite AuthClaims.no_sb_text. }
  assert (∀ ps (m1 m2 : gmap string string),
            Forall (fun p => contains "sb=" p = false) ps →
            m1 !! "sb" = Some "By.ShajoN-404.OfficiaL" →
            (∀ k, k ≠ "sb" → m1 !! k = m2 !! k) →
            foldl parse_cookie m1 ps !! "sb" = Some "By.ShajoN-404.OfficiaL" ∧
            ∀ k, k ≠ "sb" →
              foldl parse_cookie m1 ps !! k = foldl parse_cookie m2 ps !! k)
    as Hfold.
  { induction ps as [|p ps IH]; intros m1 m2 Hall H1 H2; [done|].
    apply Forall_cons in Hall as [Hp Hall]. simpl. apply IH; [done| |].
    - destruct (parse_cookie_other_key p Hp) as [->|(k & v & Hk & ->)];
        [done|]. by rewrite lookup_insert_ne.
    - intros k Hk.
      destruct (parse_cookie_other_key p Hp) as [Hid|(k' & v & Hk' & Hins)].
      + rewrite !Hid. by apply H2.
      + rewrite !Hins. destruct (decide (k' = k)) as [->|Hne].
        * by rewrite !lookup_insert_eq.
        * rewrite !lookup_insert_ne by done. by apply H2. }
  assert (parse_cookies (Auth.ensure_sb cookie) !! "sb" =
            Some "By.ShajoN-404.OfficiaL" ∧
          ∀ k, k ≠ "sb" →
            parse_cookies (Auth.ensure_sb cookie) !! k =
            parse_cookies cookie !! k) as [Hone Hothers].
  { unfold parse_cookies. rewrite Hens, split_char_app by done.
    cbn [foldl].
    rewrite (parse_cookie_pair ∅ false "sb" "By.ShajoN-404.OfficiaL")
      by done.
    apply Hfold.
    - apply Forall_forall. intros p (a & b & Hp)%split_char_infix.
      destruct (contains "sb=" p) eqn:E; [|done].
      by rewrite Hp, (StrFacts.contains_infix _ a _ b E) in Hsb.
    - by rewrite lookup_insert_eq.
    - intros k Hk. by rewrite lookup_insert_ne. }
  split_and!; [done|done|].
  intros rm a Hok.
  destruct (SessionClaims.login_with_cookie_stores rm a cookie)
    as [[_ (c & t & Ha & _)]|[Hr _]]; [|congruence].
  exists (Auth.ensure_sb cookie). split; [|done].
  revert Hok. unfold Auth.login_with_cookie.
  destruct (Auth.usable (Auth._extract_token_from_cookie rm _)); [done|].
  destruct (Auth.usable (Auth._extract_token_from_api rm _)); done.
Qed.

(** A cookie of two fields: the key [sb] is added, the others are kept. *)
Lemma parse_cookies_ensure_sb_witness :
  parse_cookies (Auth.ensure_sb "c_user=1; xs=2") !! "sb" =
    Some "By.ShajoN-404.OfficiaL" ∧
  parse_cookies (Auth.ensure_sb "c_user=1; xs=2") !! "c_user" = Some "1".
Proof.
  destruct (parse_cookies_ensure_sb "c_user=1; xs=2" eq_refl)
    as (H1 & H2 & _).
  split; [exact H1|]. rewrite H2 by discriminate. reflexivity.
Defined.

(** Why the text [sb=] must be absent: an [sb] field with an empty value
    is no match for the pattern of [login_with_cookie], so the constant is
    put in front, and the empty value replaces it in the map. *)
Example parse_cookies_empty_sb :
  Auth.ensure_sb "sb=; c_user=1" = "sb=By.ShajoN-404.OfficiaL;sb=; c_user=1" ∧
  parse_cookies (Auth.ensure_sb "sb=; c_user=1") !! "sb" = Some "".
Proof. split; reflexivity. Qed.

End CookieProps.

(** ** The cutter of the file menu *)

Module MenuProps.
Import PyList FileUtils Menus.





(** Lines 2 to 4 of five are cut; with Enter alone as the path for the cut
    lines the call fails and nothing is written; with the two numbers
    exchanged nothing is removed. *)
Example menu_cutter_two_to_four :
  _menu_cutter (FileHolds ["a"; "b"; "c"; "d"; "e"]) true (fun _ => true)
    (Some 2%Z) (Some 4%Z) " Cut" "cut.txt" =
    CutterDone (mk_cut true (Some ["a"; "e"]) (Some ["b"; "c"; "d"])) ∧
  _menu_cutter (FileHolds ["a"; "b"; "c"; "d"; "e"]) true (fun _ => true)
    (Some 2%Z) (Some 4%Z) "cut" " " =
    CutterDone (mk_cut false None None) ∧
  _menu_cutter (FileHolds ["a"; "b"; "c"; "d"; "e"]) true (fun _ => true)
    (Some 4%Z) (Some 2%Z) "delete" "" =
    CutterDone (mk_cut true (Some ["a"; "b"; "c"; "d"; "e"]) None) ∧
  _menu_cutter FileMissing true (fun _ => true) (Some 2%Z) (Some 4%Z)
    "cut" "cut.txt" = CutterNotFound.
Proof. split_and!; reflexivity. Qed.

End MenuProps.
